(** * Nanolab-Keithleys: sweep procedures and data analysis

    A shallow embedding of [procedures.py], [devices.py] and the transforms
    of [data_analysis.py], with the properties of the sweep orchestration and
    of the Analysis table proved about the embedded code.

    Numbers.  Where a statement does not depend on rounding, floats are
    embedded as the real numbers [R]: such a statement speaks about the
    arithmetic the code writes down, not about rounding, overflow, infinities
    or nan.  Where rounding or the floats that are no numbers decide (the
    spacing of the sweep points, a division by zero on the floats of numpy),
    the code is embedded once more over the binary64 floats of the kernel, in
    [Float64].  Python's exceptions are explicit: a computation that can raise
    returns a [result]. *)

From Stdlib Require Import Reals Lra Lia ZArith String List.
From Stdlib Require Floats Uint63.
From stdpp Require Import base option gmap strings list fin_maps.

Local Open Scope string_scope.
Local Open Scope R_scope.

(** ** Python: exceptions, state, numbers *)

Module Py.

(** The exceptions the embedded code can raise. *)
Inductive exn : Type :=
| ZeroDivisionError
| ValueError
| KeyError
| IndexError
| TypeError
| AttributeError.

#[global] Instance exn_eq_dec : EqDecision exn.
Proof. solve_decision. Defined.

Inductive result (A : Type) : Type :=
| Ok (a : A)
| Raise (e : exn).
#[global] Arguments Ok {A} a.
#[global] Arguments Raise {A} e.

#[global] Instance result_ret : MRet result := fun _ a => Ok a.
#[global] Instance result_bind : MBind result := fun _ _ f m =>
  match m with
  | Ok a => f a
  | Raise e => Raise e
  end.

(** [try: m except (catch): return handler]. *)
Definition try_except {A} (m : result A) (catch : list exn) (handler : A)
  : result A :=
  match m with
  | Ok a => Ok a
  | Raise e => if bool_decide (e ∈ catch) then Ok handler else Raise e
  end.

(** A method that reads and writes a state [St] and may raise: the state
    reached so far survives the exception. *)
Definition M (St A : Type) : Type := St → result A * St.

Definition ret {St A} (a : A) : M St A := fun s => (Ok a, s).
Definition bind {St A B} (m : M St A) (f : A → M St B) : M St B := fun s =>
  match m s with
  | (Ok a, s') => f a s'
  | (Raise e, s') => (Raise e, s')
  end.
Definition raise {St A} (e : exn) : M St A := fun s => (Raise e, s).
Definition lift {St A} (r : result A) : M St A := fun s => (r, s).
Definition get {St} : M St St := fun s => (Ok s, s).
Definition put {St} (s : St) : M St unit := fun _ => (Ok tt, s).

#[global] Instance M_ret {St} : MRet (M St) := fun _ a => ret a.
#[global] Instance M_bind {St} : MBind (M St) := fun _ _ f m => bind m f.

(** [for i, x in enumerate(xs, start=i): body(i, x)]. *)
Fixpoint for_enumerate {St A} (body : nat → A → M St unit) (i : nat)
    (xs : list A) : M St unit :=
  match xs with
  | [] => ret tt
  | x :: xs' => bind (body i x) (fun _ => for_enumerate body (S i) xs')
  end.

(** [a / b] on Python floats: a divisor of zero raises. *)
Definition div (a b : R) : result R :=
  if Req_dec_T b 0 then Raise ZeroDivisionError else Ok (a / b).

(** [math.log]. *)
Definition log (x : R) : result R :=
  if Rlt_dec 0 x then Ok (ln x) else Raise ValueError.

(** The value of [x ** 0.5] on a float: the square root of a non-negative
    base, and for a negative base the complex number Python answers with,
    the principal root [sqrt(-x) * 1j]. *)
Inductive number : Type :=
| Float (x : R)
| Complex (re im : R).

Definition pow_half (x : R) : number :=
  if Rle_dec 0 x then Float (sqrt x) else Complex 0 (sqrt (- x)).

(** [a * n] for a float [a]. *)
Definition mul (a : R) (n : number) : number :=
  match n with
  | Float x => Float (a * x)
  | Complex re im => Complex (a * re) (a * im)
  end.

(** Arguments whose type the callee finds out at run time. *)
Inductive value : Type :=
| VFloat (x : R)
| VInt (z : Z)
| VStr (s : string).

(** [operator.index]. *)
Definition as_index (v : value) : result Z :=
  match v with
  | VInt z => Ok z
  | _ => Raise TypeError
  end.

(** Conversion to a float array element. *)
Definition as_float (v : value) : result R :=
  match v with
  | VFloat x => Ok x
  | VInt z => Ok (IZR z)
  | VStr _ => Raise TypeError
  end.

(** A dict whose insertion order is observed: an association list. *)
Definition dict (V : Type) : Type := list (string * V).

Fixpoint dict_get {V} (k : string) (d : dict V) : option V :=
  match d with
  | [] => None
  | (k', v) :: d' => if String.eqb k k' then Some v else dict_get k d'
  end.

(** [d[k] = v]: an existing key keeps its place. *)
Fixpoint dict_set {V} (k : string) (v : V) (d : dict V) : dict V :=
  match d with
  | [] => [(k, v)]
  | (k', v') :: d' =>
      if String.eqb k k' then (k', v) :: d' else (k', v') :: dict_set k v d'
  end.

Definition dict_values {V} (d : dict V) : list V := map snd d.

End Py.
Import Py.

#[global] Instance R_eq_dec : EqDecision R := Req_dec_T.
#[global] Instance Rle_decision (x y : R) : Decision (x <= y) := Rle_dec x y.
#[global] Instance Rlt_decision (x y : R) : Decision (x < y) := Rlt_dec x y.
#[global] Instance Rge_decision (x y : R) : Decision (x >= y) := Rge_dec x y.

(** ** pandas: the part of DataFrame the repository uses *)

Module Frame.

(** The row labels: the default [RangeIndex], or the labels taken from a
    column (or left over by a row selection), with the column's name. *)
Inductive Index : Type :=
| RangeIndex (stop : nat)
| LabelIndex (name : option string) (values : list R).

Definition labels (ix : Index) : list R :=
  match ix with
  | RangeIndex stop => map INR (seq 0 stop)
  | LabelIndex _ values => values
  end.

(** A table: row labels and named columns of cells.  Column labels are
    distinct, and a frame is well formed when every column has one cell per
    row label ([wf]). *)
Record DataFrame (A : Type) : Type := mkFrame {
  index : Index;
  columns : gmap string (list A)
}.
#[global] Arguments mkFrame {A} index columns.
#[global] Arguments index {A} d.
#[global] Arguments columns {A} d.

Definition nrows {A} (df : DataFrame A) : nat := length (labels (index df)).

Definition wf {A} (df : DataFrame A) : Prop :=
  ∀ name (col : list A), columns df !! name = Some col → length col = nrows df.

(** [name in df]. *)
Definition contains {A} (name : string) (df : DataFrame A) : bool :=
  bool_decide (is_Some (columns df !! name)).

(** [df[name]]. *)
Definition getitem {A} (name : string) (df : DataFrame A) : result (list A) :=
  match columns df !! name with
  | Some col => Ok col
  | None => Raise KeyError
  end.

(** [df[name] = col]. *)
Definition setitem {A} (name : string) (col : list A) (df : DataFrame A)
  : DataFrame A :=
  mkFrame (index df) (<[name := col]> (columns df)).

(** The cell [x[name]] of the row [x] at position [i]. *)
Definition row_at {A} (df : DataFrame A) (i : nat) (name : string) : result A :=
  match columns df !! name with
  | Some col =>
      match col !! i with
      | Some a => Ok a
      | None => Raise IndexError
      end
  | None => Raise KeyError
  end.

(** [df.apply(f, axis=1)]: [f] on every row, top to bottom. *)
Definition apply_rows {A B} (f : (string → result A) → result B)
    (df : DataFrame A) : result (list B) :=
  mapM (fun i => f (row_at df i)) (seq 0 (nrows df)).

(** [df.set_index(name)]: the column becomes the row labels. *)
Definition set_index (name : string) (df : DataFrame R) : result (DataFrame R) :=
  match columns df !! name with
  | Some col => Ok (mkFrame (LabelIndex (Some name) col) (delete name (columns df)))
  | None => Raise KeyError
  end.

(** The positions of a row label. *)
Definition positions (label : R) (ix : Index) : list nat :=
  filter (fun i => labels ix !! i = Some label) (seq 0 (length (labels ix))).

(** [df.at[label, name]].  A label that labels several rows makes pandas
    hand back a Series instead of a cell, and [zero] fails on it later: at
    [vals[i] = ...] with ValueError on a dual sweep, at the subtraction with
    an InvalidIndexError of pandas on a single one.  The model raises
    ValueError here in both cases. *)
Definition at_ (label : R) (name : string) (df : DataFrame R) : result R :=
  match positions label (index df) with
  | [] => Raise KeyError
  | [i] => row_at df i name
  | _ => Raise ValueError
  end.

(** Selection by a boolean mask. *)
Fixpoint select {A} (mask : list bool) (xs : list A) : list A :=
  match mask, xs with
  | b :: mask', x :: xs' => if b then x :: select mask' xs' else select mask' xs'
  | _, _ => []
  end.

(** [df[mask]]: the selected rows keep their labels. *)
Definition getitem_mask {A} (mask : list bool) (df : DataFrame A) : DataFrame A :=
  mkFrame
    (LabelIndex
       (match index df with RangeIndex _ => None | LabelIndex name _ => name end)
       (select mask (labels (index df))))
    (select mask <$> columns df).

(** [series.unique()]: the values in order of first appearance. *)
Fixpoint unique (xs : list R) : list R :=
  match xs with
  | [] => []
  | x :: xs' => x :: filter (fun y => y ≠ x) (unique xs')
  end.

(** [min(xs, key=abs)]: the first element of least magnitude. *)
Definition min_abs (xs : list R) : result R :=
  match xs with
  | [] => Raise ValueError
  | x :: xs' =>
      Ok (fold_left (fun m y => if decide (Rabs y < Rabs m) then y else m) xs' x)
  end.

(** [array.mean()].  The mean of no values is nan in numpy; it arises only
    for a table without rows, where no cell is computed from it. *)
Definition mean (xs : list R) : R :=
  fold_right Rplus 0 xs / INR (length xs).

(** [DataFrame(index=RangeIndex(stop=n), columns=names)]: every cell is
    missing. *)
Definition empty_frame {A} (n : nat) (names : list string)
  : DataFrame (option A) :=
  mkFrame (RangeIndex n)
    (list_to_map (map (fun name => (name, replicate n None)) names)).

(** [df.iloc[i] = record]: the record's values go to the columns of the same
    name, and a column the record does not name gets a missing cell. *)
Definition iloc_set {A} (i : nat) (record : dict A) (df : DataFrame (option A))
  : result (DataFrame (option A)) :=
  if decide (i < nrows df)%nat
  then Ok (mkFrame (index df)
             (map_imap (fun name col => Some (<[i := dict_get name record]> col))
                (columns df)))
  else Raise IndexError.

(** [df.add_prefix(p)]. *)
Definition add_prefix {A} (p : string) (df : DataFrame A) : DataFrame A :=
  mkFrame (index df) (kmap (String.append p) (columns df)).

(** [left.join(right)] on the row labels: the right cell at the left's row
    label; columns of the same name cannot be joined. *)
Definition join {A} (left right : DataFrame (option A))
  : result (DataFrame (option A)) :=
  if decide (columns left ##ₘ columns right)
  then
    Ok (mkFrame (index left)
          (columns left ∪
             ((fun col =>
                 map (fun label =>
                        match positions label (index right) with
                        | i :: _ => mjoin (col !! i)
                        | [] => None
                        end)
                   (labels (index left))) <$> columns right)))
  else Raise ValueError.

(** [series.max()] and [series.min()].  Of a series without values they are
    nan: a cell of [option R] is a float, and [None] stands for a float that
    is no real number, nan or an infinity. *)
Definition series_max (xs : list R) : option R :=
  match xs with
  | [] => None
  | x :: xs' => Some (fold_left Rmax xs' x)
  end.

Definition series_min (xs : list R) : option R :=
  match xs with
  | [] => None
  | x :: xs' => Some (fold_left Rmin xs' x)
  end.

(** [a / b] on the floats of numpy, as [max()] and [min()] give them on a
    numeric column: it does not raise; a divisor of zero gives an infinity
    or nan, and nan gives nan.  (On an object column of Python floats a
    divisor of zero raises ZeroDivisionError; without a zero among the
    values the two agree.) *)
Definition float_div (a b : option R) : option R :=
  match a, b with
  | Some x, Some y => if decide (y = 0) then None else Some (x / y)
  | _, _ => None
  end.

End Frame.
Import Frame.

(** ** data_analysis.py: the Analysis table *)

Module Analysis.

(** Table objects live in a store: [copy] makes a new object, and the
    in-place operations ([set_index(inplace=True)], [op[name] = ...],
    [self.loc[:, :] = op]) change the object they are called on.  A
    location is a position in the store; Python has no reference to an
    object that does not exist, so a location outside the store is an
    artefact of the model and [load] raises [KeyError] there.  The methods
    [zero] and [invert_current] below are the bodies of the methods, run
    with [self] bound to an Analysis object; which objects have the methods
    is the matter of [ref] further down. *)
Abbreviation loc := nat (only parsing).
Abbreviation store := (list (DataFrame R)).

Definition load (l : loc) : M store (DataFrame R) := fun h =>
  match h !! l with
  | Some df => (Ok df, h)
  | None => (Raise KeyError, h)
  end.

Definition save (l : loc) (df : DataFrame R) : M store unit := fun h =>
  (Ok tt, <[l := df]> h).

Definition new (df : DataFrame R) : M store loc := fun h =>
  (Ok (length h), (h ++ [df])%list).

(** [df.copy()]. *)
Definition copy (l : loc) : M store loc :=
  df ← load l; new df.

(** [df[name]]. *)
Definition column (l : loc) (name : string) : M store (list R) :=
  df ← load l; lift (getitem name df).

(** [df[name] = col]. *)
Definition set_column (l : loc) (name : string) (col : list R) : M store unit :=
  df ← load l; save l (setitem name col df).

(** [name in df]. *)
Definition has_column (l : loc) (name : string) : M store bool :=
  df ← load l; mret (contains name df).

(** [df.set_index(name, inplace=True)]. *)
Definition set_index_inplace (l : loc) (name : string) : M store unit :=
  df ← load l; df' ← lift (set_index name df); save l df'.

(** [df.at[label, name]]. *)
Definition at_cell (l : loc) (label : R) (name : string) : M store R :=
  df ← load l; lift (at_ label name df).

(** [df[mask]]. *)
Definition rows_where (l : loc) (mask : list bool) : M store loc :=
  df ← load l; new (getitem_mask mask df).

(** [self.loc[:, :] = op].  [op] was copied from [self] and only cell values
    were changed since, so the two carry the same labels and every cell of
    [self] takes the cell of [op]. *)
Definition assign_all (self op : loc) : M store unit :=
  src ← load op; dst ← load self; save self (mkFrame (index dst) (columns src)).

(** The inner function [find_zero] of [zero].  When none of the three
    comparisons holds the Python function falls off its end and returns
    None, on which the subtraction in [zero] raises TypeError. *)
Definition find_zero (df : loc) : M store R :=
  volt ← column df "voltage";
  let pv := filter (fun v => v <= 0) volt in
  let nv := filter (fun v => v <= 0) volt in
  min_pv ← lift (min_abs pv);
  min_nv ← lift (min_abs nv);
  _ ← set_index_inplace df "voltage";
  min_nc ← at_cell df min_nv "current";
  min_pc ← at_cell df min_pv "current";
  if decide (Rabs min_pv > Rabs min_nv) then mret min_pc
  else if decide (Rabs min_pv < Rabs min_nv) then mret min_nc
  else if decide (Rabs min_pv = Rabs min_nv) then mret ((min_nc + min_pc) / 2)
  else raise TypeError.

(** The calibration constant [cal] of [zero]. *)
Definition calibration (self : loc) : M store R :=
  dual ← has_column self "secondary voltage";
  if dual : bool then
    sec ← column self "secondary voltage";
    vals ← mapM (fun sv =>
                   sec' ← column self "secondary voltage";
                   op ← rows_where self (map (fun x => bool_decide (x = sv)) sec');
                   op' ← copy op;
                   find_zero op')
                (unique sec);
    mret (mean vals)
  else
    self' ← copy self;
    find_zero self'.

Definition zero (self : loc) (inplace : bool) : M store loc :=
  cal ← calibration self;
  op ← copy self;
  cur ← column op "current";
  _ ← set_column op "current" (map (fun x => x - cal) cur);
  _ ← (if inplace then assign_all self op else mret tt);
  mret op.

Definition invert_current (self : loc) (primary secondary inplace : bool)
  : M store loc :=
  output ← copy self;
  _ ← (if primary then
         cur ← column output "current";
         set_column output "current" (map (fun x => x * -1) cur)
       else mret tt);
  has ← has_column output "secondary current";
  _ ← (if has && secondary then
         cur ← column output "secondary current";
         set_column output "secondary current" (map (fun x => x * -1) cur)
       else mret tt);
  _ ← (if inplace then assign_all self output else mret tt);
  mret output.

(** *** The Fowler-Nordheim transform

    The cells of a row are Python floats here, as they are in the object
    columns of the tables that the sweeps return: a division by zero raises
    ZeroDivisionError and [x ** 0.5] of a negative float is complex.  On a
    table of numeric dtype the cells are numpy floats, whose arithmetic does
    not raise; see [Float64]. *)

(** A cell of the transformed table: a number, or None. *)
Definition cell : Type := option number.

Definition x_transform (voltage : R) : result cell :=
  try_except (q ← div 1 voltage; Ok (Some (Float q)))
    [ZeroDivisionError] None.

Definition x_sd (voltage voltage_sd : R) : result cell :=
  try_except (q ← div 1 voltage; Ok (Some (mul q (pow_half voltage_sd))))
    [ZeroDivisionError] None.

Definition y_transform (voltage current : R) : result cell :=
  try_except
    (q ← div current (voltage ^ 2);
     y ← log (Rabs q);
     Ok (Some (Float y)))
    [ValueError; ZeroDivisionError] None.

Definition y_sd (current current_sd voltage voltage_sd : R) : result cell :=
  try_except
    (a ← div 2 voltage;
     b ← div 1 current;
     Ok (Some (pow_half ((a * voltage_sd) ^ 2 + (b * current_sd) ^ 2))))
    [ZeroDivisionError] None.

Definition fowler_nordheim_transform (self : DataFrame R)
    (voltage_name current_name : string) : result (DataFrame cell) :=
  fn_x ← apply_rows (fun x => v ← x voltage_name; x_transform v) self;
  fn_x_sd ← apply_rows (fun x =>
                v ← x voltage_name;
                vsd ← x (voltage_name +:+ " sd");
                x_sd v vsd) self;
  fn_y ← apply_rows (fun x =>
                v ← x voltage_name;
                c ← x current_name;
                y_transform v c) self;
  fn_y_sd ← apply_rows (fun x =>
                c ← x current_name;
                csd ← x (current_name +:+ " sd");
                v ← x voltage_name;
                vsd ← x (voltage_name +:+ " sd");
                y_sd c csd v vsd) self;
  let out :=
    mkFrame (index self)
      (<["fn_x" := fn_x]> (<["fn_x sd" := fn_x_sd]>
        (<["fn_y" := fn_y]> (<["fn_y sd" := fn_y_sd]> ∅)))) in
  if contains "secondary voltage" self then
    sec ← getitem "secondary voltage" self;
    Ok (setitem "secondary voltage" ((fun v => Some (Float v)) <$> sec) out)
  else Ok out.

(** *** The switching current

    The result is None on a table without [secondary voltage], else a table
    with one row per distinct primary voltage.  Its row labels, taken from
    [unique], are distinct, so [out.at[voltage, ...]] writes the cell in the
    row of [voltage]'s turn: the loop builds the rows in order. *)
Definition switching_current (self : DataFrame R)
  : result (option (DataFrame (option R))) :=
  if contains "secondary voltage" self then
    volt ← getitem "voltage" self;
    let out_index := unique volt in
    rows ← mapM (fun voltage =>
              volt' ← getitem "voltage" self;
              let op := getitem_mask (map (fun v => bool_decide (v = voltage)) volt')
                          self in
              sec ← getitem "secondary voltage" op;
              opp ← getitem "current"
                      (getitem_mask (map (fun s => bool_decide (s >= 0)) sec) op);
              sec' ← getitem "secondary voltage" op;
              opn ← getitem "current"
                      (getitem_mask (map (fun s => bool_decide (s <= 0)) sec') op);
              Ok (float_div (series_max opp) (series_min opp),
                  float_div (series_min opn) (series_max opn)))
            out_index;
    Ok (Some (mkFrame (LabelIndex None out_index)
                (<["positive" := rows.*1]> (<["negative" := rows.*2]> ∅))))
  else Ok None.

(** *** The class of a table object

    [Analysis] subclasses [DataFrame] and does not override [_constructor],
    with which pandas builds the result of [self.copy()]: the copy of an
    Analysis is a plain DataFrame.  So the tables that [zero] and
    [invert_current] return are no Analysis objects, and have none of its
    methods.  A reference tells the class of the object it points to. *)
Inductive ref : Type :=
| DataFrameRef (l : loc)
| AnalysisRef (l : loc).

Definition ref_loc (r : ref) : loc :=
  match r with
  | DataFrameRef l | AnalysisRef l => l
  end.

(** [Analysis(df)] for a [df] that is a DataFrame, of either class: a new
    Analysis object that holds the table of [df].  (Whether a later write to
    the new object shows in [df] depends on the copy-on-write mode of pandas;
    here it does not.) *)
Definition init (df : ref) : M store ref :=
  table ← load (ref_loc df);
  self ← new table;
  mret (AnalysisRef self).

(** [obj.zero(inplace)], [obj.invert_current(primary, secondary, inplace)]
    and [obj.fowler_nordheim_transform(voltage_name, current_name)] on a
    table object of either class.  Python looks the method up first, and on
    a plain DataFrame the lookup raises AttributeError. *)
Definition call_zero (obj : ref) (inplace : bool) : M store ref :=
  match obj with
  | AnalysisRef self => op ← zero self inplace; mret (DataFrameRef op)
  | DataFrameRef _ => raise AttributeError
  end.

Definition call_invert_current (obj : ref) (primary secondary inplace : bool)
  : M store ref :=
  match obj with
  | AnalysisRef self =>
      output ← invert_current self primary secondary inplace;
      mret (DataFrameRef output)
  | DataFrameRef _ => raise AttributeError
  end.

Definition call_fowler_nordheim_transform (obj : ref)
    (voltage_name current_name : string) : M store (DataFrame cell) :=
  match obj with
  | AnalysisRef self =>
      table ← load self;
      lift (fowler_nordheim_transform table voltage_name current_name)
  | DataFrameRef _ => raise AttributeError
  end.

End Analysis.

(** ** devices.py: the instruments *)

(** The commands the drivers send, one constructor per command string, with
    the value formatted into it. *)
Inductive scpi : Type :=
| RstStatusPresetCls
| RstCls
| StatusMeasurementEnable (n : Z)
| Sre (n : Z)
| TriggerSourceImmediate
| SourceClearAutoOff
| SourceFunctionVoltage
| TraceFeedSense1
| TraceFeedSense
| SenseCurrentProtection (x : R)
| TracePoints (x : Z)
| TriggerCount (x : Z)
| Output (x : bool)
| SenseCurrentNplcycles (x : R)
| Nplcycles (x : R)
| SourceDelay (x : R)
| SystemAzeroState (x : bool)
| SystemAzeroCaching (x : bool)
| SourceVoltageLevel (x : R)
| SystemBeeper (freq time : R)
| TraceFeedControlNext
| Initiate
| Calc3FormMean
| Calc3FormSdev
| Calc3DataQuery
| Abort
| Cls.

(** What the program does to the world outside: it opens a resource, writes
    a command to it, sends it a query, waits for its service request, or
    sleeps. *)
Inductive event : Type :=
| Opened (address : string)
| Sent (address : string) (command : scpi)
| Asked (address : string) (query : scpi)
| Waited (address : string)
| Slept (seconds : R).

(** The history of the world, latest event first. *)
Abbreviation world := (list event).

(** The instruments are outside the program: what one answers to
    [calc3:data?] is a function of everything that happened before.  A
    Keithley 2400 answers with voltage and current (later fields of the
    answer are dropped by the driver), a Keithley 6485 with a current.  The
    instruments take every command and answer every query: a [write] or
    [query] that fails in pyvisa is not modelled, and a run is a run on
    instruments that work. *)
Class Instruments : Type := {
  calc3_data_2400 : string → world → R * R;
  calc3_data_6485 : string → world → R
}.

Definition emit (e : event) : M world unit := fun w => (Ok tt, e :: w).

(** [time.sleep]. *)
Definition sleep (seconds : R) : M world unit :=
  if decide (seconds < 0) then raise ValueError else emit (Slept seconds).

Module Keithley2400.

Record t : Type := mk { meter : string }.

Definition write (self : t) (command : scpi) : M world unit :=
  emit (Sent (meter self) command).

Definition query `{Instruments} (self : t) (q : scpi) : M world (R * R) := fun w =>
  (Ok (calc3_data_2400 (meter self) w), Asked (meter self) q :: w).

Definition set_max_current (self : t) (x : R) : M world unit :=
  write self (SenseCurrentProtection x).

Definition set_measurements (self : t) (x : Z) : M world unit :=
  _ ← write self (TracePoints x);
  write self (TriggerCount x).

Definition set_soak (self : t) (x : R) : M world unit :=
  write self (SourceDelay x).

Definition set_nplc (self : t) (x : R) : M world unit :=
  write self (SenseCurrentNplcycles x).

Definition set_azero (self : t) (x : bool) : M world unit :=
  _ ← write self (SystemAzeroState x);
  write self (SystemAzeroCaching x).

Definition set_output_enabled (self : t) (x : bool) : M world unit :=
  write self (Output x).

Definition set_target_voltage (self : t) (x : R) : M world unit :=
  write self (SourceVoltageLevel x).

Definition beep (self : t) (freq time : R) : M world unit :=
  write self (SystemBeeper freq time).

Definition init (address : string) (max_current : R) (measurements : Z)
    (soak nplc : R) (azero : bool) : M world t :=
  _ ← emit (Opened address);
  let self := mk address in
  _ ← write self RstStatusPresetCls;
  _ ← write self (StatusMeasurementEnable 512);
  _ ← write self (Sre 1);
  _ ← write self TriggerSourceImmediate;
  _ ← write self SourceClearAutoOff;
  _ ← write self SourceFunctionVoltage;
  _ ← write self TraceFeedSense1;
  _ ← set_max_current self max_current;
  _ ← set_measurements self measurements;
  _ ← set_output_enabled self false;
  _ ← set_nplc self nplc;
  _ ← set_soak self soak;
  _ ← set_azero self azero;
  mret self.

Definition measure `{Instruments} (self : t) : M world (dict R) :=
  _ ← write self TraceFeedControlNext;
  _ ← write self Initiate;
  _ ← emit (Waited (meter self));
  _ ← write self Calc3FormMean;
  '(voltage_mean, current_mean) ← query self Calc3DataQuery;
  _ ← write self Calc3FormSdev;
  '(voltage_sd, current_sd) ← query self Calc3DataQuery;
  _ ← write self Abort;
  _ ← write self Cls;
  mret [("voltage", voltage_mean); ("voltage sd", voltage_sd);
        ("current", current_mean); ("current sd", current_sd)].

End Keithley2400.

Module Keithley6485.

(** [soak] is an attribute of the driver object here, not a setting of the
    instrument. *)
Record t : Type := mk { meter : string; soak : R }.

Definition write (self : t) (command : scpi) : M world unit :=
  emit (Sent (meter self) command).

Definition query `{Instruments} (self : t) (q : scpi) : M world R := fun w =>
  (Ok (calc3_data_6485 (meter self) w), Asked (meter self) q :: w).

Definition set_measurements (self : t) (x : Z) : M world unit :=
  _ ← write self (TracePoints x);
  write self (TriggerCount x).

Definition set_nplc (self : t) (x : R) : M world unit :=
  write self (Nplcycles x).

Definition set_azero (self : t) (x : bool) : M world unit :=
  write self (SystemAzeroState x).

Definition init (address : string) (measurements : Z) (soak nplc : R)
    (azero : bool) : M world t :=
  _ ← emit (Opened address);
  let self := mk address soak in
  _ ← write self RstCls;
  _ ← write self (StatusMeasurementEnable 512);
  _ ← write self (Sre 1);
  _ ← write self TriggerSourceImmediate;
  _ ← write self TraceFeedSense;
  _ ← set_measurements self measurements;
  _ ← set_nplc self nplc;
  _ ← set_azero self azero;
  mret self.

Definition measure `{Instruments} (self : t) : M world (dict R) :=
  _ ← sleep (soak self);
  _ ← write self TraceFeedControlNext;
  _ ← write self Initiate;
  _ ← emit (Waited (meter self));
  _ ← write self Calc3FormMean;
  current_mean ← query self Calc3DataQuery;
  _ ← write self Calc3FormSdev;
  current_sd ← query self Calc3DataQuery;
  _ ← write self Abort;
  _ ← write self Cls;
  mret [("current", current_mean); ("current sd", current_sd)].

End Keithley6485.

(** ** procedures.py: sweep points and sweeps *)

(** [numpy.geomspace] is taken as given. *)
Class Numpy : Type := {
  geomspace : value → value → value → result (list R)
}.

(** [numpy.linspace(start, stop, num)], by numpy's own steps, in exact
    arithmetic: the count must be an index and not negative, the points are
    [k * step + start] (or [k / div * delta + start] when the step is zero),
    and the last point is set to [stop].  [Float64.linspace] is the same on
    doubles. *)
Definition linspace (start stop num : value) : result (list R) :=
  num ← as_index num;
  if decide (num < 0)%Z then Raise ValueError else
  start ← as_float start;
  stop ← as_float stop;
  let n := Z.to_nat num in
  let div := (n - 1)%nat in
  let delta := stop - start in
  let step := delta / INR div in
  let y :=
    if decide (0 < div)%nat then
      if decide (step = 0)
      then map (fun k => INR k / INR div * delta + start) (seq 0 n)
      else map (fun k => INR k * step + start) (seq 0 n)
    else map (fun k => INR k * delta + start) (seq 0 n) in
  Ok (if decide (1 < n)%nat then <[(n - 1)%nat := stop]> y else y).

(** [dst[:] = src[:]] on arrays: the shapes agree, or one value is spread
    over [dst]; otherwise numpy refuses. *)
Definition assign_slice (dst src : list R) : result (list R) :=
  if decide (length src = length dst) then Ok src
  else match src with
       | [x] => Ok (replicate (length dst) x)
       | _ => Raise ValueError
       end.

Module SweepPoints.

(** The array and its [scale] attribute. *)
Record t : Type := mk { data : list R; scale : string }.

Definition new `{Numpy} (start end_ points scale : value) : result t :=
  match scale with
  | VStr s =>
      if decide (s = "linear" ∨ s = "lin") then
        out ← linspace start end_ points; Ok (mk out s)
      else if decide (s = "logarithmic" ∨ s = "log") then
        out ← geomspace start end_ points; Ok (mk out s)
      else Raise ValueError
  | _ => Raise ValueError
  end.

(** [self[i]]. *)
Definition item (self : t) (i : nat) : result R :=
  match data self !! i with
  | Some x => Ok x
  | None => Raise IndexError
  end.

(** The loop of [regen] over the keyword arguments. *)
Fixpoint regen_kwargs (kwargs : dict value) (start end_ points scale : value)
  : result (value * value * value * value) :=
  match kwargs with
  | [] => Ok (start, end_, points, scale)
  | (key, item) :: kwargs' =>
      if decide (key = "start") then regen_kwargs kwargs' item end_ points scale
      else if decide (key = "end") then regen_kwargs kwargs' start item points scale
      else if decide (key = "points") then regen_kwargs kwargs' start end_ item scale
      else if decide (key = "scale") then regen_kwargs kwargs' start end_ points item
      else Raise ValueError
  end.

(** [regen] changes the object it is called on: the state is [self]. *)
Definition regen `{Numpy} (kwargs : dict value) : M t unit :=
  self ← get;
  start ← lift (item self 0);
  let points := length (data self) in
  end_ ← lift (item self (points - 1));
  let scale := scale self in
  '(start, end_, points, scale) ←
    lift (regen_kwargs kwargs (VFloat start) (VFloat end_)
            (VInt (Z.of_nat points)) (VStr scale));
  new ← lift (new start end_ points scale);
  data' ← lift (assign_slice (data self) (data new));
  put (mk data' (SweepPoints.scale new)).

End SweepPoints.

(** [a = {True: soak, False: 0}] and [a[key]]. *)
Definition soak_table (soak : R) (key : bool) : R :=
  if key then soak else 0.

Definition record_columns : list string :=
  ["voltage"; "voltage sd"; "current"; "current sd"].

(** The state of a method of a sweep object: the object and the world. *)
Definition this {O} : M (O * world) O := fun s => (Ok (fst s), s).
Definition update {O} (f : O → O) : M (O * world) unit := fun s =>
  (Ok tt, (f (fst s), snd s)).
Definition io {O A} (m : M world A) : M (O * world) A := fun s =>
  let '(r, w) := m (snd s) in (r, (fst s, w)).

(** [f1r['current'], f1r['current sd'] = f2.values()]. *)
Definition take_current (f1r f2r : dict R) : result (dict R) :=
  match dict_values f2r with
  | [current; current_sd] =>
      Ok (dict_set "current sd" current_sd (dict_set "current" current f1r))
  | _ => Raise ValueError
  end.

(** The measurements of one step are submitted to a thread pool; the model
    runs them one after the other, in the order of submission. *)
Module Sweep.

(** A [Sweep], or a [PicoSweep] when it has an ammeter. *)
Record t : Type := mk {
  soak : R;
  sourcemeter : Keithley2400.t;
  voltages : SweepPoints.t;
  df : DataFrame (option R);
  ammeter : option Keithley6485.t
}.

Definition set_df (df' : DataFrame (option R)) (self : t) : t :=
  mk (soak self) (sourcemeter self) (voltages self) df' (ammeter self).

Definition set_ammeter (am : Keithley6485.t) (self : t) : t :=
  mk (soak self) (sourcemeter self) (voltages self) (df self) (Some am).

Definition init `{Numpy} (address : string) (start end_ : R) (measurements : Z)
    (max_current : R) (samples : Z) (nplc soak : R) (azero : bool)
    (scale : string) : M world t :=
  let a := soak_table soak in
  let self_soak := a (negb azero) in
  sourcemeter ← Keithley2400.init address max_current samples (a azero) nplc azero;
  voltages ← lift (SweepPoints.new (VFloat start) (VFloat end_)
                     (VInt measurements) (VStr scale));
  let df := empty_frame (Z.to_nat measurements) record_columns in
  mret (mk self_soak sourcemeter voltages df None).

(** [Sweep.measure]. *)
Definition measure `{Instruments} (i : nat) : M (t * world) unit :=
  self ← this;
  record ← io (Keithley2400.measure (sourcemeter self));
  df' ← lift (iloc_set i record (df self));
  update (set_df df').

(** [PicoSweep.measure]. *)
Definition pico_measure `{Instruments} (am : Keithley6485.t) (i : nat)
  : M (t * world) unit :=
  self ← this;
  f1r ← io (Keithley2400.measure (sourcemeter self));
  f2r ← io (Keithley6485.measure am);
  f1r ← lift (take_current f1r f2r);
  df' ← lift (iloc_set i f1r (df self));
  update (set_df df').

(** [self.measure(i)]: the method of the object's class. *)
Definition self_measure `{Instruments} (i : nat) : M (t * world) unit :=
  self ← this;
  match ammeter self with
  | None => measure i
  | Some am => pico_measure am i
  end.

Definition execute `{Instruments} : M (t * world) (DataFrame (option R)) :=
  self ← this;
  _ ← io (Keithley2400.beep (sourcemeter self) 1000 1);
  _ ← io (Keithley2400.set_output_enabled (sourcemeter self) true);
  _ ← for_enumerate (fun i voltage =>
         _ ← io (Keithley2400.set_target_voltage (sourcemeter self) voltage);
         _ ← io (sleep (soak self));
         self_measure i)
       0 (SweepPoints.data (voltages self));
  _ ← io (Keithley2400.set_target_voltage (sourcemeter self) 0);
  _ ← io (Keithley2400.set_output_enabled (sourcemeter self) false);
  self ← this;
  mret (df self).

End Sweep.

Module PicoSweep.

Definition init `{Numpy} (voltmeter_address ammeter_address : string)
    (start end_ : R) (measurements : Z) (samples : Z) (nplc soak : R)
    (azero : bool) (scale : string) : M world Sweep.t :=
  let a := soak_table soak in
  self ← Sweep.init voltmeter_address start end_ measurements (1 / 1000000)
           samples nplc soak azero scale;
  ammeter ← Keithley6485.init ammeter_address samples (a azero) nplc azero;
  mret (Sweep.set_ammeter ammeter self).

End PicoSweep.

Module DualSweep.

(** A [DualSweep], or a [PicoDualSweep] when it has an ammeter. *)
Record t : Type := mk {
  soak : R;
  primary_sourcemeter : Keithley2400.t;
  secondary_sourcemeter : Keithley2400.t;
  primary_voltages : SweepPoints.t;
  secondary_voltages : SweepPoints.t;
  primary_df : DataFrame (option R);
  secondary_df : DataFrame (option R);
  ammeter : option Keithley6485.t
}.

Definition set_primary_df (df' : DataFrame (option R)) (self : t) : t :=
  mk (soak self) (primary_sourcemeter self) (secondary_sourcemeter self)
    (primary_voltages self) (secondary_voltages self)
    df' (secondary_df self) (ammeter self).

Definition set_secondary_df (df' : DataFrame (option R)) (self : t) : t :=
  mk (soak self) (primary_sourcemeter self) (secondary_sourcemeter self)
    (primary_voltages self) (secondary_voltages self)
    (primary_df self) df' (ammeter self).

Definition set_ammeter (am : Keithley6485.t) (self : t) : t :=
  mk (soak self) (primary_sourcemeter self) (secondary_sourcemeter self)
    (primary_voltages self) (secondary_voltages self)
    (primary_df self) (secondary_df self) (Some am).

Definition init `{Numpy} (primary_address secondary_address : string)
    (primary_start primary_end : R) (primary_measurements : Z)
    (secondary_start secondary_end : R) (secondary_measurements : Z)
    (primary_max_current secondary_max_current : R) (samples : Z)
    (nplc soak : R) (azero : bool) (primary_scale secondary_scale : string)
  : M world t :=
  let a := soak_table soak in
  let self_soak := a (negb azero) in
  primary_sourcemeter ←
    Keithley2400.init primary_address primary_max_current samples (a azero)
      nplc azero;
  secondary_sourcemeter ←
    Keithley2400.init secondary_address secondary_max_current samples (a azero)
      nplc azero;
  primary_voltages ←
    lift (SweepPoints.new (VFloat primary_start) (VFloat primary_end)
            (VInt primary_measurements) (VStr primary_scale));
  secondary_voltages ←
    lift (SweepPoints.new (VFloat secondary_start) (VFloat secondary_end)
            (VInt secondary_measurements) (VStr secondary_scale));
  let primary_df :=
    empty_frame (Z.to_nat (primary_measurements * secondary_measurements))
      record_columns in
  let secondary_df := primary_df in
  mret (mk self_soak primary_sourcemeter secondary_sourcemeter
          primary_voltages secondary_voltages primary_df secondary_df None).

(** [DualSweep.measure]. *)
Definition measure `{Instruments} (i j : nat) : M (t * world) unit :=
  self ← this;
  f1 ← io (Keithley2400.measure (primary_sourcemeter self));
  f2 ← io (Keithley2400.measure (secondary_sourcemeter self));
  let row := (i * length (SweepPoints.data (secondary_voltages self)) + j)%nat in
  df1 ← lift (iloc_set row f1 (primary_df self));
  _ ← update (set_primary_df df1);
  df2 ← lift (iloc_set row f2 (secondary_df self));
  update (set_secondary_df df2).

(** [PicoDualSweep.measure]. *)
Definition pico_measure `{Instruments} (am : Keithley6485.t) (i j : nat)
  : M (t * world) unit :=
  self ← this;
  f1r ← io (Keithley2400.measure (primary_sourcemeter self));
  f2r ← io (Keithley6485.measure am);
  f3r ← io (Keithley2400.measure (secondary_sourcemeter self));
  f1r ← lift (take_current f1r f2r);
  let row := (i * length (SweepPoints.data (secondary_voltages self)) + j)%nat in
  df1 ← lift (iloc_set row f1r (primary_df self));
  _ ← update (set_primary_df df1);
  df2 ← lift (iloc_set row f3r (secondary_df self));
  update (set_secondary_df df2).

(** [self.measure(i, j)]: the method of the object's class. *)
Definition self_measure `{Instruments} (i j : nat) : M (t * world) unit :=
  self ← this;
  match ammeter self with
  | None => measure i j
  | Some am => pico_measure am i j
  end.

Definition execute `{Instruments} : M (t * world) (DataFrame (option R)) :=
  self ← this;
  _ ← io (Keithley2400.beep (primary_sourcemeter self) 1000 1);
  _ ← io (Keithley2400.beep (secondary_sourcemeter self) 2000 2);
  _ ← io (Keithley2400.set_output_enabled (primary_sourcemeter self) true);
  _ ← io (Keithley2400.set_output_enabled (secondary_sourcemeter self) true);
  _ ← for_enumerate (fun i pv =>
         _ ← io (Keithley2400.set_target_voltage (primary_sourcemeter self) pv);
         for_enumerate (fun j sv =>
           _ ← io (Keithley2400.set_target_voltage (secondary_sourcemeter self) sv);
           _ ← io (sleep (soak self));
           self_measure i j)
         0 (SweepPoints.data (secondary_voltages self)))
       0 (SweepPoints.data (primary_voltages self));
  _ ← io (Keithley2400.set_target_voltage (primary_sourcemeter self) 0);
  _ ← io (Keithley2400.set_output_enabled (primary_sourcemeter self) false);
  _ ← io (Keithley2400.set_target_voltage (secondary_sourcemeter self) 0);
  _ ← io (Keithley2400.set_output_enabled (secondary_sourcemeter self) false);
  self ← this;
  lift (join (primary_df self) (add_prefix "secondary " (secondary_df self))).

End DualSweep.

Module PicoDualSweep.

Definition init `{Numpy} (primary_address secondary_address ammeter_address : string)
    (primary_start primary_end : R) (primary_measurements : Z)
    (secondary_start secondary_end : R) (secondary_measurements : Z)
    (secondary_max_current : R) (samples : Z)
    (nplc soak : R) (azero : bool) (primary_scale secondary_scale : string)
  : M world DualSweep.t :=
  let a := soak_table soak in
  self ← DualSweep.init primary_address secondary_address
           primary_start primary_end primary_measurements
           secondary_start secondary_end secondary_measurements
           (1 / 1000000) secondary_max_current samples nplc soak azero
           primary_scale secondary_scale;
  ammeter ← Keithley6485.init ammeter_address samples (a azero) nplc azero;
  mret (DualSweep.set_ammeter ammeter self).

End PicoDualSweep.

(** ** numpy.float64: the code on doubles

    The floats of numpy are IEEE binary64 numbers, the floats of the kernel.
    Their arithmetic rounds, and it does not raise: a division by zero gives
    an infinity or nan (and a RuntimeWarning).  The points of [linspace] are
    such floats, and so are the cells of a table of numeric dtype (a table
    built from lists of floats, or read from a file). *)

Module Float64.
Import PrimFloat.
Local Open Scope float_scope.

(** The integer [k] as a double: exact below 2^53, and meant for the indices
    and counts of an array, which stay far below 2^63. *)
Definition of_index (k : nat) : float :=
  of_uint63 (Uint63.of_Z (Z.of_nat k)).

(** [numpy.linspace(start, stop, num)] for float bounds and an integer
    count, by numpy's own steps: [delta = stop - start],
    [step = delta / div], the points [arange(0, num) * step + start] (or
    [arange(0, num) / div * delta + start] when the step is zero), every
    operation rounded, and the last point set to [stop]. *)
Definition linspace (start stop : float) (num : Z) : result (list float) :=
  if decide (num < 0)%Z then Raise ValueError else
  let n := Z.to_nat num in
  let div := (n - 1)%nat in
  let delta := stop - start in
  let step := delta / of_index div in
  let y :=
    if decide (0 < div)%nat then
      if step =? 0
      then map (fun k => of_index k / of_index div * delta + start) (seq 0 n)
      else map (fun k => of_index k * step + start) (seq 0 n)
    else map (fun k => of_index k * delta + start) (seq 0 n) in
  Ok (if decide (1 < n)%nat then <[(n - 1)%nat := stop]> y else y).

Module SweepPoints.

Record t : Type := mk { data : list float; scale : string }.

(** [SweepPoints(start, end, points, scale)] for float bounds, an integer
    count and a string scale; [numpy.geomspace] is taken as given. *)
Definition new (geomspace : float → float → Z → result (list float))
    (start end_ : float) (points : Z) (scale : string) : result t :=
  if decide (scale = "linear" ∨ scale = "lin") then
    out ← linspace start end_ points; Ok (mk out scale)
  else if decide (scale = "logarithmic" ∨ scale = "log") then
    out ← geomspace start end_ points; Ok (mk out scale)
  else Raise ValueError.

End SweepPoints.

(** [a / b] on numpy floats. *)
Definition div (a b : float) : result float := Ok (a / b).

(** The inner function [x_transform] of [fowler_nordheim_transform] on a
    cell of a numeric table. *)
Definition x_transform (voltage : float) : result (option float) :=
  try_except (q ← div 1 voltage; Ok (Some q)) [ZeroDivisionError] None.

(** The column [fn_x] of [fowler_nordheim_transform] on a numeric table:
    [self.apply(lambda x: x_transform(x[voltage_name]), axis=1)].  (The
    other three columns need [**] and [math.log], which the floats of the
    kernel do not have.) *)
Definition fn_x (self : DataFrame float) (voltage_name : string)
  : result (list (option float)) :=
  apply_rows (fun x => v ← x voltage_name; x_transform v) self.

End Float64.

(** * The vocabulary of the properties

    The definitions above embed the source.  The ones below belong to the
    statements and proofs about it: what a run wrote to the instruments,
    the shape of a result table, closed examples. *)

(** What the four cell functions return: they never raise. *)
Definition fn_x_cell (v : R) : Analysis.cell :=
  if decide (v = 0) then None else Some (Float (1 / v)).

Definition fn_x_sd_cell (v vsd : R) : Analysis.cell :=
  if decide (v = 0) then None else Some (mul (1 / v) (pow_half vsd)).

Definition fn_y_cell (v c : R) : Analysis.cell :=
  if decide (v = 0 ∨ c = 0) then None
  else Some (Float (ln (Rabs (c / v ^ 2)))).

Definition fn_y_sd_cell (c csd v vsd : R) : Analysis.cell :=
  if decide (v = 0 ∨ c = 0) then None
  else Some (Float (sqrt ((2 / v * vsd) ^ 2 + (1 / c * csd) ^ 2))).

(** A table of three rows: zero voltage, regular, zero current. *)
Definition fn_sample : DataFrame R :=
  mkFrame (RangeIndex 3)
    (list_to_map [("voltage", [0; 2; 1]); ("voltage sd", [1; 4; 1]);
                  ("current", [3; 5; 0]); ("current sd", [1; 1; 1])]).

(** The data [invert_current] leaves in the table it returns. *)
Definition inverted (primary secondary : bool) (df : DataFrame R) : DataFrame R :=
  let d1 := if primary
            then setitem "current"
                   ((fun x => x * -1) <$> default [] (columns df !! "current")) df
            else df in
  if contains "secondary current" d1 && secondary
  then setitem "secondary current"
         ((fun x => x * -1) <$> default [] (columns d1 !! "secondary current")) d1
  else d1.

(** [m] changes none of the first [n] objects of the store. *)
Definition preserves {A} (n : nat) (m : M (list (DataFrame R)) A) : Prop :=
  ∀ h r h', (n ≤ length h)%nat → m h = (r, h') →
    (n ≤ length h')%nat ∧ ∀ l, (l < n)%nat → h' !! l = h !! l.

(** [m] returns only values that satisfy [P]. *)
Definition returns {A} (n : nat) (P : A → Prop) (m : M (list (DataFrame R)) A)
  : Prop :=
  ∀ h a h', (n ≤ length h)%nat → m h = (Ok a, h') → P a.

(** The two-row table of the calibration example. *)
Definition two_rows : DataFrame R :=
  mkFrame (RangeIndex 2)
    (list_to_map [("voltage", [-1; 2]); ("current", [-5; 8])]).

(** The one-cell table of the inversion example. *)
Definition current_three : DataFrame R :=
  mkFrame (RangeIndex 1) (list_to_map [("current", [3])]).

(** The delay last sent to the instrument at [address] as its
    [source:delay]. *)
Fixpoint source_delay (address : string) (w : list event) : option R :=
  match w with
  | [] => None
  | Sent a (SourceDelay x) :: w' =>
      if decide (a = address) then Some x else source_delay address w'
  | _ :: w' => source_delay address w'
  end.

(** The voltage last sent to the instrument at [address] as its
    [source:voltage:level]. *)
Fixpoint source_level (address : string) (w : list event) : option R :=
  match w with
  | [] => None
  | Sent a (SourceVoltageLevel x) :: w' =>
      if decide (a = address) then Some x else source_level address w'
  | _ :: w' => source_level address w'
  end.

(** How many acquisitions were started on the instrument at [address]. *)
Fixpoint initiated (address : string) (w : list event) : nat :=
  match w with
  | [] => 0
  | Sent a Initiate :: w' =>
      if decide (a = address) then S (initiated address w') else initiated address w'
  | _ :: w' => initiated address w'
  end.

(** The sleeps of a run, latest first. *)
Fixpoint sleeps (w : list event) : list R :=
  match w with
  | [] => []
  | Slept d :: w' => d :: sleeps w'
  | _ :: w' => sleeps w'
  end.

(** What [Keithley2400.__init__] writes, latest first. *)
Definition init_2400 (address : string) (max_current : R) (measurements : Z)
    (soak nplc : R) (azero : bool) : list event :=
  [Sent address (SystemAzeroCaching azero);
   Sent address (SystemAzeroState azero);
   Sent address (SourceDelay soak);
   Sent address (SenseCurrentNplcycles nplc);
   Sent address (Output false);
   Sent address (TriggerCount measurements);
   Sent address (TracePoints measurements);
   Sent address (SenseCurrentProtection max_current);
   Sent address TraceFeedSense1;
   Sent address SourceFunctionVoltage;
   Sent address SourceClearAutoOff;
   Sent address TriggerSourceImmediate;
   Sent address (Sre 1);
   Sent address (StatusMeasurementEnable 512);
   Sent address RstStatusPresetCls;
   Opened address].

(** What [Keithley6485.__init__] writes, latest first. *)
Definition init_6485 (address : string) (measurements : Z) (nplc : R)
    (azero : bool) : list event :=
  [Sent address (SystemAzeroState azero);
   Sent address (Nplcycles nplc);
   Sent address (TriggerCount measurements);
   Sent address (TracePoints measurements);
   Sent address TraceFeedSense;
   Sent address TriggerSourceImmediate;
   Sent address (Sre 1);
   Sent address (StatusMeasurementEnable 512);
   Sent address RstCls;
   Opened address].

(** What [Keithley2400.measure] writes, latest first. *)
Definition measure_events (a : string) : list event :=
  [Sent a Cls; Sent a Abort; Asked a Calc3DataQuery; Sent a Calc3FormSdev;
   Asked a Calc3DataQuery; Sent a Calc3FormMean; Waited a; Sent a Initiate;
   Sent a TraceFeedControlNext].

(** A numpy without [geomspace], for the closed examples. *)
Definition linear_only : Numpy := {| geomspace := fun _ _ _ => Raise ValueError |}.

(** Instruments that answer with the voltage they were set to, and twice
    that as the current, for the closed examples. *)
Definition echo : Instruments := {|
  calc3_data_2400 := fun a w =>
    (default 0 (source_level a w), 2 * default 0 (source_level a w));
  calc3_data_6485 := fun a w => 2 * default 0 (source_level a w)
|}.

(** A result table of [N] rows: the default row labels and the four record
    columns, each of [N] cells. *)
Definition sized {A} (N : nat) (df : DataFrame (option A)) : Prop :=
  index df = RangeIndex N ∧
  (∀ name, name ∈ record_columns →
           ∃ col, columns df !! name = Some col ∧ length col = N) ∧
  (∀ name col, columns df !! name = Some col → name ∈ record_columns).

(** The sweep [sw] with another result table. *)
Definition with_df (sw : Sweep.t) (df : DataFrame (option R)) : Sweep.t :=
  Sweep.mk (Sweep.soak sw) (Sweep.sourcemeter sw) (Sweep.voltages sw) df
    (Sweep.ammeter sw).

(** The dual sweep [ds] with other result tables. *)
Definition with_dfs (ds : DualSweep.t) (p s : DataFrame (option R)) : DualSweep.t :=
  DualSweep.mk (DualSweep.soak ds) (DualSweep.primary_sourcemeter ds)
    (DualSweep.secondary_sourcemeter ds) (DualSweep.primary_voltages ds)
    (DualSweep.secondary_voltages ds) p s (DualSweep.ammeter ds).

(** The measurement taken at primary index [i] and secondary index [j] is in
    row [i * n + j] of the tables [p] and [s]: there is a moment [hist] of the
    run, right after the soak sleep, at which the primary instrument was set
    to [pv] and the secondary one to [sv] and [i * n + j] acquisitions had
    been started on the primary instrument since [w0]; the two measurements
    taken from that moment on are the cells of the row. *)
Definition recorded `{Instruments} (ds : DualSweep.t) (w0 : list event)
    (i j : nat) (pv sv : R) (p s : DataFrame (option R)) : Prop :=
  let pm := DualSweep.primary_sourcemeter ds in
  let sm := DualSweep.secondary_sourcemeter ds in
  let row := (i * length (SweepPoints.data (DualSweep.secondary_voltages ds)) + j)%nat in
  ∃ past f1 hist1 f2 hist2,
    let hist := Slept (DualSweep.soak ds) :: past in
    source_level (Keithley2400.meter pm) hist = Some pv ∧
    source_level (Keithley2400.meter sm) hist = Some sv ∧
    initiated (Keithley2400.meter pm) hist
    = (initiated (Keithley2400.meter pm) w0 + row)%nat ∧
    Keithley2400.measure pm hist = (Ok f1, hist1) ∧
    Keithley2400.measure sm hist1 = (Ok f2, hist2) ∧
    ∀ name, name ∈ record_columns →
      row_at p row name = Ok (dict_get name f1) ∧
      row_at s row name = Ok (dict_get name f2).

(** The keywords [start] and [end] of [regen], each given or not. *)
Definition bounds_kwargs (s e : option R) : dict value :=
  (match s with Some x => [("start", VFloat x)] | None => [] end
   ++ match e with Some x => [("end", VFloat x)] | None => [] end)%list.

(** The state last sent to the output of the instrument at [address]. *)
Fixpoint output_state (address : string) (w : list event) : option bool :=
  match w with
  | [] => None
  | Sent a (Output x) :: w' =>
      if decide (a = address) then Some x else output_state address w'
  | _ :: w' => output_state address w'
  end.

(** The events of a measurement step: a new source level, a sleep, and the
    commands, queries and waits of an acquisition. *)
Definition acquisition_event (e : event) : Prop :=
  match e with
  | Sent _ (SourceVoltageLevel _) | Sent _ TraceFeedControlNext
  | Sent _ Initiate | Sent _ Calc3FormMean | Sent _ Calc3FormSdev
  | Sent _ Abort | Sent _ Cls | Asked _ Calc3DataQuery | Waited _ | Slept _ => True
  | _ => False
  end.

(** The events of [execute]: those of its steps, the beep and the commands
    to an output. *)
Definition execute_event (e : event) : Prop :=
  match e with
  | Sent _ (SystemBeeper _ _) | Sent _ (Output _) => True
  | _ => acquisition_event e
  end.

(** [m] keeps the property [P] of the state, whether it returns or raises. *)
Definition keeps {St A} (P : St → Prop) (m : M St A) : Prop :=
  ∀ s r s', P s → m s = (r, s') → P s'.

(** The scales that [SweepPoints] knows. *)
Definition scales : list string := ["linear"; "lin"; "logarithmic"; "log"].

(** What a step of [Sweep.execute] at the voltage [v] does to the world,
    latest first. *)
Definition step_events (a : string) (soak v : R) : list event :=
  (measure_events a ++ [Slept soak; Sent a (SourceVoltageLevel v)])%list.

(** What [Sweep.execute] does to the world on the voltages [vs], latest
    first. *)
Definition sweep_events (a : string) (soak : R) (vs : list R) : list event :=
  ([Sent a (Output false); Sent a (SourceVoltageLevel 0)]
   ++ flat_map (step_events a soak) (rev vs)
   ++ [Sent a (Output true); Sent a (SystemBeeper 1000 1)])%list.

(** The cells of the column [xs] in the rows whose secondary voltage is
    [sv]: the sub-sweep at [sv]. *)
Definition group {A} (sv : R) (sec : list R) (xs : list A) : list A :=
  select (map (fun x => bool_decide (x = sv)) sec) xs.

(** [offset] is the current of a sweep, with voltages [gvs] and currents
    [gcs], in the row of its non-positive voltage closest to zero. *)
Definition reference (gvs gcs : list R) (offset : R) : Prop :=
  ∃ j v0,
    gvs !! j = Some v0 ∧ v0 <= 0 ∧
    (∀ v, v ∈ gvs → v <= 0 → Rabs v0 <= Rabs v) ∧
    gcs !! j = Some offset.

(** A dual-sweep table of two sub-sweeps, at the secondary voltages 0 and
    1. *)
Definition two_groups : DataFrame R :=
  mkFrame (RangeIndex 4)
    (list_to_map [("voltage", [-1; 1; -1; 1]); ("secondary voltage", [0; 0; 1; 1]);
                  ("current", [1; 2; 3; 4])]).

(** The currents of the rows whose voltage is [v] and whose secondary
    voltage passes [g], selected as [switching_current] selects them. *)
Definition currents_at (vs sec cs : list R) (v : R) (g : R → bool) : list R :=
  select (map g (select (map (fun x => bool_decide (x = v)) vs) sec))
    (select (map (fun x => bool_decide (x = v)) vs) cs).

Section Float64Samples.
Import PrimFloat.

(** A numeric table of three rows: zero voltage, regular, zero current. *)
Definition fn_sample_float64 : DataFrame float :=
  mkFrame (RangeIndex 3)
    (list_to_map [("voltage", [0; 2; 1]); ("voltage sd", [1; 4; 1]);
                  ("current", [3; 5; 0]); ("current sd", [1; 1; 1])]%float).


End Float64Samples.

(** * Properties *)

(** ** Tools *)

Lemma mapM_Ok {A B} (f : A → result B) (g : A → B) (l : list A) :
  (∀ x, x ∈ l → f x = Ok (g x)) → mapM f l = Ok (g <$> l).
Proof.
  induction l as [|x l IH]; intros Hf; simpl; [done|].
  rewrite Hf by apply list_elem_of_here. simpl.
  rewrite IH; [done|]. intros y Hy. apply Hf. by apply list_elem_of_further.
Qed.

Lemma row_at_Ok {A} (df : DataFrame A) (i : nat) (name : string)
    (col : list A) (a : A) :
  columns df !! name = Some col → col !! i = Some a → row_at df i name = Ok a.
Proof. intros Hc Hi. unfold row_at. by rewrite Hc, Hi. Qed.

Lemma apply_rows_Ok {A B} (f : (string → result A) → result B) (g : nat → B)
    (df : DataFrame A) :
  (∀ i, (i < nrows df)%nat → f (row_at df i) = Ok (g i)) →
  apply_rows f df = Ok (g <$> seq 0 (nrows df)).
Proof.
  intros Hf. apply mapM_Ok. intros i Hi. apply Hf.
  apply elem_of_seq in Hi. lia.
Qed.

Lemma wf_lookup {A} (df : DataFrame A) (name : string) (col : list A) (i : nat) :
  wf df → columns df !! name = Some col → (i < nrows df)%nat →
  ∃ a, col !! i = Some a.
Proof.
  intros Hwf Hc Hi. apply lookup_lt_is_Some_2. by rewrite (Hwf _ _ Hc).
Qed.

Lemma nrows_range {A} (n : nat) (cols : gmap string (list A)) :
  nrows (mkFrame (RangeIndex n) cols) = n.
Proof. unfold nrows. simpl. by rewrite length_map, length_seq. Qed.

Lemma wf_list_to_map {A} (n : nat) (l : list (string * list A)) :
  Forall (fun p => length p.2 = n) l →
  wf (mkFrame (RangeIndex n) (list_to_map l)).
Proof.
  intros Hl name col Hcol. rewrite nrows_range. simpl in Hcol.
  apply elem_of_list_to_map_2 in Hcol.
  rewrite Forall_forall in Hl. apply (Hl _ Hcol).
Qed.

(** ** The Fowler-Nordheim transform *)

Section FowlerNordheim.
Import Analysis.
#[local] Arguments pow : simpl never.

Lemma sqr_zero (v : R) : v ^ 2 = 0 → v = 0.
Proof.
  intros Hv. destruct (Req_dec_T v 0) as [|Hn]; [done|].
  by destruct (pow_nonzero v 2 Hn).
Qed.

Lemma x_transform_eq (v : R) : x_transform v = Ok (fn_x_cell v).
Proof.
  unfold x_transform, fn_x_cell, div.
  destruct (Req_dec_T v 0); simpl; destruct (decide (v = 0)); done.
Qed.

Lemma x_sd_eq (v vsd : R) : x_sd v vsd = Ok (fn_x_sd_cell v vsd).
Proof.
  unfold x_sd, fn_x_sd_cell, div.
  destruct (Req_dec_T v 0); simpl; destruct (decide (v = 0)); done.
Qed.

Lemma y_transform_eq (v c : R) : y_transform v c = Ok (fn_y_cell v c).
Proof.
  unfold y_transform, fn_y_cell, div, log.
  destruct (Req_dec_T (v ^ 2) 0) as [Hv|Hv]; simpl.
  - rewrite decide_True; [done|]. left. by apply sqr_zero.
  - assert (v ≠ 0) by (intros ->; apply Hv; lra).
    destruct (Rlt_dec 0 (Rabs (c / v ^ 2))) as [Hq|Hq]; simpl.
    + rewrite decide_False; [done|]. intros [?| ->]; [done|].
      unfold Rdiv in Hq. rewrite Rmult_0_l, Rabs_R0 in Hq. lra.
    + rewrite decide_True; [done|]. right.
      destruct (Req_dec_T c 0) as [|Hc]; [done|]. exfalso. apply Hq.
      apply Rabs_pos_lt. unfold Rdiv. apply Rmult_integral_contrapositive_currified;
        [done|]. by apply Rinv_neq_0_compat.
Qed.

Lemma y_sd_eq (c csd v vsd : R) : y_sd c csd v vsd = Ok (fn_y_sd_cell c csd v vsd).
Proof.
  unfold y_sd, fn_y_sd_cell, div.
  destruct (Req_dec_T v 0) as [Hv|Hv]; simpl.
  { rewrite decide_True; [done|]. by left. }
  destruct (Req_dec_T c 0) as [Hc|Hc]; simpl.
  { rewrite decide_True; [done|]. by right. }
  rewrite decide_False by (intros [?|?]; done).
  unfold pow_half.
  destruct (Rle_dec 0 ((2 / v * vsd) ^ 2 + (1 / c * csd) ^ 2)) as [|Hneg]; [done|].
  destruct Hneg. apply Rplus_le_le_0_compat; apply pow2_ge_0.
Qed.

Lemma fmap_seq_lookup {B} (g : nat → B) (n i : nat) :
  (i < n)%nat → (g <$> seq 0 n) !! i = Some (g i).
Proof. intros Hi. rewrite list_lookup_fmap, lookup_seq_lt by done. done. Qed.

Lemma fowler_nordheim_rows (self : DataFrame R) (vn cn : string)
    (vs vsds cs csds : list R) :
  wf self →
  columns self !! vn = Some vs →
  columns self !! (vn +:+ " sd") = Some vsds →
  columns self !! cn = Some cs →
  columns self !! (cn +:+ " sd") = Some csds →
  ∃ out, fowler_nordheim_transform self vn cn = Ok out ∧
    ∀ i v vsd c csd,
      vs !! i = Some v → vsds !! i = Some vsd →
      cs !! i = Some c → csds !! i = Some csd →
      row_at out i "fn_x" = Ok (fn_x_cell v) ∧
      row_at out i "fn_x sd" = Ok (fn_x_sd_cell v vsd) ∧
      row_at out i "fn_y" = Ok (fn_y_cell v c) ∧
      row_at out i "fn_y sd" = Ok (fn_y_sd_cell c csd v vsd).
Proof.
  intros Hwf Hv Hvsd Hc Hcsd.
  set (V i := default 0 (vs !! i)). set (VS i := default 0 (vsds !! i)).
  set (C i := default 0 (cs !! i)). set (CS i := default 0 (csds !! i)).
  assert (Hrow : ∀ i, (i < nrows self)%nat →
            row_at self i vn = Ok (V i) ∧ row_at self i (vn +:+ " sd") = Ok (VS i) ∧
            row_at self i cn = Ok (C i) ∧ row_at self i (cn +:+ " sd") = Ok (CS i)).
  { intros i Hi. unfold V, VS, C, CS.
    destruct (wf_lookup _ _ _ i Hwf Hv Hi) as [a Ha].
    destruct (wf_lookup _ _ _ i Hwf Hvsd Hi) as [b Hb].
    destruct (wf_lookup _ _ _ i Hwf Hc Hi) as [c Hc'].
    destruct (wf_lookup _ _ _ i Hwf Hcsd Hi) as [d Hd].
    rewrite Ha, Hb, Hc', Hd. simpl.
    repeat split; eapply row_at_Ok; eauto. }
  assert (E1 : apply_rows (fun x => v ← x vn; x_transform v) self
               = Ok ((fun i => fn_x_cell (V i)) <$> seq 0 (nrows self))).
  { apply apply_rows_Ok. intros i Hi. destruct (Hrow i Hi) as (-> & _). simpl.
    apply x_transform_eq. }
  assert (E2 : apply_rows (fun x => v ← x vn; vsd ← x (vn +:+ " sd"); x_sd v vsd) self
               = Ok ((fun i => fn_x_sd_cell (V i) (VS i)) <$> seq 0 (nrows self))).
  { apply apply_rows_Ok. intros i Hi. destruct (Hrow i Hi) as (-> & -> & _).
    simpl. apply x_sd_eq. }
  assert (E3 : apply_rows (fun x => v ← x vn; c ← x cn; y_transform v c) self
               = Ok ((fun i => fn_y_cell (V i) (C i)) <$> seq 0 (nrows self))).
  { apply apply_rows_Ok. intros i Hi. destruct (Hrow i Hi) as (-> & _ & -> & _).
    simpl. apply y_transform_eq. }
  assert (E4 : apply_rows (fun x => c ← x cn; csd ← x (cn +:+ " sd");
                             v ← x vn; vsd ← x (vn +:+ " sd"); y_sd c csd v vsd) self
               = Ok ((fun i => fn_y_sd_cell (C i) (CS i) (V i) (VS i))
                       <$> seq 0 (nrows self))).
  { apply apply_rows_Ok. intros i Hi. destruct (Hrow i Hi) as (-> & -> & -> & ->).
    simpl. apply y_sd_eq. }
  unfold fowler_nordheim_transform. rewrite E1. simpl. rewrite E2. simpl.
  rewrite E3. simpl. rewrite E4. simpl.
  set (cols := <["fn_x" := _]> _).
  assert (Hcells : ∀ out, (columns out = cols ∨
                           columns out = <["secondary voltage" :=
                             (fun v => Some (Float v)) <$>
                               default [] (columns self !! "secondary voltage")]> cols) →
    ∀ i v vsd c csd,
      vs !! i = Some v → vsds !! i = Some vsd →
      cs !! i = Some c → csds !! i = Some csd →
      row_at out i "fn_x" = Ok (fn_x_cell v) ∧
      row_at out i "fn_x sd" = Ok (fn_x_sd_cell v vsd) ∧
      row_at out i "fn_y" = Ok (fn_y_cell v c) ∧
      row_at out i "fn_y sd" = Ok (fn_y_sd_cell c csd v vsd)).
  { intros out Hout i v vsd c csd Hiv Hivsd Hic Hicsd.
    assert (Hi : (i < nrows self)%nat).
    { rewrite <- (Hwf _ _ Hv). by eapply lookup_lt_Some. }
    assert (HV : V i = v) by (unfold V; by rewrite Hiv).
    assert (HVS : VS i = vsd) by (unfold VS; by rewrite Hivsd).
    assert (HC : C i = c) by (unfold C; by rewrite Hic).
    assert (HCS : CS i = csd) by (unfold CS; by rewrite Hicsd).
    unfold row_at.
    destruct Hout as [-> | ->]; unfold cols;
      repeat (rewrite lookup_insert_ne by done);
      rewrite ?lookup_insert_eq;
      repeat split.
    all: repeat (rewrite lookup_insert_ne by done); rewrite ?lookup_insert_eq.
    all: rewrite fmap_seq_lookup by done; by rewrite ?HV, ?HVS, ?HC, ?HCS. }
  destruct (contains "secondary voltage" self) eqn:Hsec.
  - unfold contains in Hsec. apply bool_decide_eq_true in Hsec as [sec Hsec].
    unfold getitem. rewrite Hsec. simpl. eexists; split; [done|].
    apply Hcells. right. simpl. by rewrite Hsec.
  - eexists; split; [done|]. apply Hcells. by left.
Qed.

Lemma fn_sample_wf : wf fn_sample.
Proof. apply wf_list_to_map. repeat constructor. Qed.

(** Degenerate rows on a table of Python floats (object columns, as the
    sweeps return them).  On such a table with the voltage, current and
    deviation columns the transform returns a table (it does not raise); in
    a row of zero voltage the four cells are None, in a row of zero current
    [fn_y] and [fn_y sd] are None, and this does not touch the other rows:
    wherever the voltage is not zero [fn_x] and [fn_x sd] are numbers, and
    wherever the current is not zero either, so are [fn_y] and [fn_y sd]. *)
Theorem fowler_nordheim_degenerate_rows (self : DataFrame R) (vn cn : string)
    (vs vsds cs csds : list R) :
  wf self →
  columns self !! vn = Some vs →
  columns self !! (vn +:+ " sd") = Some vsds →
  columns self !! cn = Some cs →
  columns self !! (cn +:+ " sd") = Some csds →
  ∃ out, fowler_nordheim_transform self vn cn = Ok out ∧
    ∀ i v vsd c csd,
      vs !! i = Some v → vsds !! i = Some vsd →
      cs !! i = Some c → csds !! i = Some csd →
      ∃ fn_x fn_x_sd fn_y fn_y_sd : cell,
        row_at out i "fn_x" = Ok fn_x ∧
        row_at out i "fn_x sd" = Ok fn_x_sd ∧
        row_at out i "fn_y" = Ok fn_y ∧
        row_at out i "fn_y sd" = Ok fn_y_sd ∧
        (v = 0 → fn_x = None ∧ fn_x_sd = None ∧ fn_y = None ∧ fn_y_sd = None) ∧
        (c = 0 → fn_y = None ∧ fn_y_sd = None) ∧
        (v ≠ 0 → is_Some fn_x ∧ is_Some fn_x_sd) ∧
        (v ≠ 0 → c ≠ 0 → is_Some fn_y ∧ is_Some fn_y_sd).
Proof.
  intros Hwf Hv Hvsd Hc Hcsd.
  destruct (fowler_nordheim_rows self vn cn _ _ _ _ Hwf Hv Hvsd Hc Hcsd)
    as (out & Hout & Hrows).
  exists out. split; [done|]. intros i v vsd c csd Hiv Hivsd Hic Hicsd.
  destruct (Hrows i v vsd c csd Hiv Hivsd Hic Hicsd) as (Hx & Hxs & Hy & Hys).
  exists (fn_x_cell v), (fn_x_sd_cell v vsd), (fn_y_cell v c),
    (fn_y_sd_cell c csd v vsd).
  unfold fn_x_cell, fn_x_sd_cell, fn_y_cell, fn_y_sd_cell.
  split_and!; [done..| | | |].
  - intros ->. rewrite !decide_True by (done || by left). done.
  - intros ->. rewrite !decide_True by by right. done.
  - intros Hv0. rewrite !decide_False by done. split; by eexists.
  - intros Hv0 Hc0. rewrite !decide_False by (intros [?|?]; done).
    split; by eexists.
Qed.

(** C5: in a row whose voltage and current are not zero the transform
    computes [fn_x = 1/voltage], [fn_x sd = (1/voltage) * sqrt(voltage sd)]
    (the root being the complex principal root when the deviation is
    negative), [fn_y = ln |current / voltage^2|] and
    [fn_y sd = sqrt((2/voltage * voltage sd)^2 + (1/current * current sd)^2)]. *)
Theorem fowler_nordheim_formulas (self : DataFrame R) (vn cn : string)
    (vs vsds cs csds : list R) :
  wf self →
  columns self !! vn = Some vs →
  columns self !! (vn +:+ " sd") = Some vsds →
  columns self !! cn = Some cs →
  columns self !! (cn +:+ " sd") = Some csds →
  ∃ out, fowler_nordheim_transform self vn cn = Ok out ∧
    ∀ i v vsd c csd,
      vs !! i = Some v → vsds !! i = Some vsd →
      cs !! i = Some c → csds !! i = Some csd →
      v ≠ 0 → c ≠ 0 →
      row_at out i "fn_x" = Ok (Some (Float (1 / v))) ∧
      (0 <= vsd →
       row_at out i "fn_x sd" = Ok (Some (Float (1 / v * sqrt vsd)))) ∧
      (vsd < 0 →
       row_at out i "fn_x sd"
       = Ok (Some (Complex (1 / v * 0) (1 / v * sqrt (- vsd))))) ∧
      row_at out i "fn_y" = Ok (Some (Float (ln (Rabs (c / v ^ 2))))) ∧
      row_at out i "fn_y sd"
      = Ok (Some (Float (sqrt ((2 / v * vsd) ^ 2 + (1 / c * csd) ^ 2)))).
Proof.
  intros Hwf Hv Hvsd Hc Hcsd.
  destruct (fowler_nordheim_rows self vn cn _ _ _ _ Hwf Hv Hvsd Hc Hcsd)
    as (out & Hout & Hrows).
  exists out. split; [done|]. intros i v vsd c csd Hiv Hivsd Hic Hicsd Hv0 Hc0.
  destruct (Hrows i v vsd c csd Hiv Hivsd Hic Hicsd) as (Hx & Hxs & Hy & Hys).
  rewrite Hx, Hxs, Hy, Hys.
  unfold fn_x_cell, fn_x_sd_cell, fn_y_cell, fn_y_sd_cell, pow_half.
  rewrite !(decide_False (P := v = 0)) by done.
  rewrite !decide_False by (intros [?|?]; done).
  split_and!; [done| | |done|done].
  - intros Hsd. destruct (Rle_dec 0 vsd); [done|lra].
  - intros Hsd. destruct (Rle_dec 0 vsd); [lra|done].
Qed.

Lemma fowler_nordheim_formulas_witness :
  wf fn_sample ∧
  ∃ out, fowler_nordheim_transform fn_sample "voltage" "current" = Ok out ∧
    row_at out 1 "fn_x" = Ok (Some (Float (1 / 2))) ∧
    row_at out 1 "fn_x sd" = Ok (Some (Float (1 / 2 * sqrt 4))) ∧
    row_at out 1 "fn_y" = Ok (Some (Float (ln (Rabs (5 / 2 ^ 2))))) ∧
    row_at out 1 "fn_y sd"
    = Ok (Some (Float (sqrt ((2 / 2 * 4) ^ 2 + (1 / 5 * 1) ^ 2)))).
Proof.
  split; [exact fn_sample_wf|].
  destruct (fowler_nordheim_formulas fn_sample "voltage" "current"
              [0; 2; 1] [1; 4; 1] [3; 5; 0] [1; 1; 1] fn_sample_wf
              eq_refl eq_refl eq_refl eq_refl) as (out & Hout & Hrows).
  exists out. split; [exact Hout|].
  destruct (Hrows 1%nat 2 4 5 1 eq_refl eq_refl eq_refl eq_refl
              ltac:(lra) ltac:(lra)) as (Hx & Hxs & _ & Hy & Hys).
  split_and!; [exact Hx | apply Hxs; lra | exact Hy | exact Hys].
Defined.

End FowlerNordheim.

(** *** On a table of numeric dtype *)

Section FowlerNordheimFloat64.
Import PrimFloat.

(** On a numeric table no cell of [fn_x] is None. *)
Lemma fn_x_float64 (self : DataFrame float) (vn : string) (vs : list float) :
  wf self → columns self !! vn = Some vs →
  Float64.fn_x self vn = Ok ((fun v => Some (1 / v)%float) <$> vs).
Proof.
  intros Hwf Hv. unfold Float64.fn_x.
  rewrite (apply_rows_Ok _ (fun i => Some (1 / default 0%float (vs !! i))%float)).
  - f_equal. apply list_eq. intros i.
    rewrite !list_lookup_fmap.
    destruct (decide (i < nrows self)%nat) as [Hi|Hi].
    + rewrite lookup_seq_lt by done. simpl.
      destruct (wf_lookup _ _ _ i Hwf Hv Hi) as [v ->]. done.
    + rewrite lookup_seq_ge by lia. rewrite lookup_ge_None_2; [done|].
      rewrite (Hwf _ _ Hv). lia.
  - intros i Hi. destruct (wf_lookup _ _ _ i Hwf Hv Hi) as [v Hi'].
    rewrite (row_at_Ok _ _ _ _ _ Hv Hi'). rewrite Hi'. reflexivity.
Qed.

(** C3, the failing input: on the numeric table of three rows whose first
    voltage is 0, the column [fn_x] of the transform holds [1 / 0 = inf] in
    the first row and not None: the division of numpy floats does not raise,
    and the [except ZeroDivisionError] branch of [x_transform] never runs. *)
Theorem fowler_nordheim_float64_zero_voltage :
  Float64.fn_x fn_sample_float64 "voltage"
  = Ok [Some infinity; Some 0.5%float; Some 1%float].
Proof. reflexivity. Qed.

End FowlerNordheimFloat64.

(** ** The Analysis store *)

Section AnalysisStore.
Import Analysis.

Lemma bind_run {St A B} (m : M St A) (f : A → M St B) (s : St) :
  (m ≫= f) s = match m s with
               | (Ok a, s') => f a s'
               | (Raise e, s') => (Raise e, s')
               end.
Proof. reflexivity. Qed.

Lemma bind_Ok {St A B} (m : M St A) (f : A → M St B) (s s' : St) (a : A) :
  m s = (Ok a, s') → (m ≫= f) s = f a s'.
Proof. intros Hm. by rewrite bind_run, Hm. Qed.

Lemma bind_Raise {St A B} (m : M St A) (f : A → M St B) (s s' : St) (e : exn) :
  m s = (Raise e, s') → (m ≫= f) s = (Raise e, s').
Proof. intros Hm. by rewrite bind_run, Hm. Qed.

Lemma insert_snoc {A} (h : list A) (x y : A) :
  <[length h := x]> (h ++ [y])%list = (h ++ [x])%list.
Proof. rewrite insert_app_r_alt by done. by rewrite Nat.sub_diag. Qed.

Lemma lookup_snoc {A} (h : list A) (x : A) : (h ++ [x])%list !! length h = Some x.
Proof. by rewrite lookup_app_r, Nat.sub_diag by done. Qed.

Lemma lookup_snoc_old {A} (h : list A) (x y : A) (l : nat) :
  h !! l = Some y → (h ++ [x])%list !! l = Some y.
Proof. intros Hl. by rewrite lookup_app_l by by eapply lookup_lt_Some. Qed.

Lemma load_run (l : nat) (h : list (DataFrame R)) (df : DataFrame R) :
  h !! l = Some df → load l h = (Ok df, h).
Proof. intros Hl. unfold load. by rewrite Hl. Qed.

Lemma copy_run (l : nat) (h : list (DataFrame R)) (df : DataFrame R) :
  h !! l = Some df → copy l h = (Ok (length h), (h ++ [df])%list).
Proof. intros Hl. unfold copy. by rewrite (bind_Ok _ _ _ _ _ (load_run _ _ _ Hl)). Qed.

Lemma column_run (l : nat) (name : string) (h : list (DataFrame R))
    (df : DataFrame R) :
  h !! l = Some df → column l name h = (getitem name df, h).
Proof. intros Hl. unfold column. by rewrite (bind_Ok _ _ _ _ _ (load_run _ _ _ Hl)). Qed.

Lemma set_column_run (l : nat) (name : string) (col : list R)
    (h : list (DataFrame R)) (df : DataFrame R) :
  h !! l = Some df →
  set_column l name col h = (Ok tt, <[l := setitem name col df]> h).
Proof.
  intros Hl. unfold set_column. by rewrite (bind_Ok _ _ _ _ _ (load_run _ _ _ Hl)).
Qed.

Lemma has_column_run (l : nat) (name : string) (h : list (DataFrame R))
    (df : DataFrame R) :
  h !! l = Some df → has_column l name h = (Ok (contains name df), h).
Proof.
  intros Hl. unfold has_column. by rewrite (bind_Ok _ _ _ _ _ (load_run _ _ _ Hl)).
Qed.

Lemma assign_all_run (self op : nat) (h : list (DataFrame R))
    (src dst : DataFrame R) :
  h !! op = Some src → h !! self = Some dst →
  assign_all self op h = (Ok tt, <[self := mkFrame (index dst) (columns src)]> h).
Proof.
  intros Hop Hself. unfold assign_all.
  rewrite (bind_Ok _ _ _ _ _ (load_run _ _ _ Hop)).
  by rewrite (bind_Ok _ _ _ _ _ (load_run _ _ _ Hself)).
Qed.

Lemma invert_current_run (self : nat) (primary secondary inplace : bool)
    (h : list (DataFrame R)) (df : DataFrame R) :
  h !! self = Some df →
  (primary = true → is_Some (columns df !! "current")) →
  invert_current self primary secondary inplace h
  = (Ok (length h),
     if inplace
     then <[self := mkFrame (index df) (columns (inverted primary secondary df))]>
            (h ++ [inverted primary secondary df])%list
     else (h ++ [inverted primary secondary df])%list).
Proof.
  intros Hself Hcur. unfold invert_current, inverted.
  set (d1 := if primary then _ else df).
  rewrite (bind_Ok _ _ _ _ _ (copy_run _ _ _ Hself)).
  assert (E1 : (if primary
                then cur ← column (length h) "current";
                     set_column (length h) "current" ((fun x => x * -1) <$> cur)
                else mret tt) (h ++ [df])%list = (Ok tt, (h ++ [d1])%list)).
  { unfold d1. destruct primary; [|done].
    destruct (Hcur eq_refl) as [cur Hc].
    rewrite (bind_Ok _ _ _ (h ++ [df])%list cur).
    2:{ rewrite (column_run _ _ _ df) by apply lookup_snoc.
        unfold getitem. by rewrite Hc. }
    rewrite (set_column_run _ _ _ _ df) by apply lookup_snoc.
    by rewrite insert_snoc, Hc. }
  rewrite (bind_Ok _ _ _ _ _ E1).
  rewrite (bind_Ok _ _ _ _ _ (has_column_run _ _ _ d1 (lookup_snoc _ _))).
  set (d2 := if contains "secondary current" d1 && secondary then _ else d1).
  assert (E2 : (if contains "secondary current" d1 && secondary
                then cur ← column (length h) "secondary current";
                     set_column (length h) "secondary current" ((fun x => x * -1) <$> cur)
                else mret tt) (h ++ [d1])%list = (Ok tt, (h ++ [d2])%list)).
  { unfold d2. destruct (contains "secondary current" d1) eqn:Hhas; [|done].
    destruct secondary; [|done]. simpl.
    apply bool_decide_eq_true in Hhas as [cur Hc].
    rewrite (bind_Ok _ _ _ (h ++ [d1])%list cur).
    2:{ rewrite (column_run _ _ _ d1) by apply lookup_snoc.
        unfold getitem. by rewrite Hc. }
    rewrite (set_column_run _ _ _ _ d1) by apply lookup_snoc.
    by rewrite insert_snoc, Hc. }
  rewrite (bind_Ok _ _ _ _ _ E2).
  destruct inplace; [|done].
  rewrite (bind_Ok _ _ _ _ _
             (assign_all_run _ _ _ d2 df (lookup_snoc _ _) (lookup_snoc_old _ _ _ _ Hself))).
  done.
Qed.

Lemma invert_current_KeyError (self : nat) (secondary inplace : bool)
    (h : list (DataFrame R)) (df : DataFrame R) :
  h !! self = Some df → columns df !! "current" = None →
  invert_current self true secondary inplace h = (Raise KeyError, (h ++ [df])%list).
Proof.
  intros Hself Hcur. unfold invert_current.
  rewrite (bind_Ok _ _ _ _ _ (copy_run _ _ _ Hself)).
  erewrite bind_Raise; [done|].
  erewrite bind_Raise; [done|].
  rewrite (column_run _ _ _ df) by apply lookup_snoc.
  unfold getitem. by rewrite Hcur.
Qed.

Lemma invert_current_dangling (self : nat) (primary secondary inplace : bool)
    (h : list (DataFrame R)) :
  h !! self = None →
  invert_current self primary secondary inplace h = (Raise KeyError, h).
Proof.
  intros Hself. unfold invert_current, copy.
  erewrite bind_Raise; [done|]. erewrite bind_Raise; [done|].
  unfold load. by rewrite Hself.
Qed.

(** *** What a computation leaves alone *)

Lemma preserves_bind {A B} (n : nat) (P : A → Prop)
    (m : M (list (DataFrame R)) A) (f : A → M (list (DataFrame R)) B) :
  preserves n m → returns n P m → (∀ a, P a → preserves n (f a)) →
  preserves n (m ≫= f).
Proof.
  intros Hm HP Hf h r h' Hn. rewrite bind_run.
  destruct (m h) as [[a|e] h1] eqn:Hmh; intros Hrun.
  - destruct (Hm _ _ _ Hn Hmh) as [Hn1 H1].
    destruct (Hf a (HP _ _ _ Hn Hmh) _ _ _ Hn1 Hrun) as [Hn2 H2].
    split; [done|]. intros l Hl. by rewrite H2, H1.
  - injection Hrun as <- <-. by apply (Hm _ _ _ Hn Hmh).
Qed.

Lemma preserves_bind' {A B} (n : nat)
    (m : M (list (DataFrame R)) A) (f : A → M (list (DataFrame R)) B) :
  preserves n m → (∀ a, preserves n (f a)) → preserves n (m ≫= f).
Proof.
  intros Hm Hf. apply (preserves_bind n (fun _ => True)); [done| |auto].
  by intros ????.
Qed.

Lemma preserves_pure {A} (n : nat) (r : result A) : preserves n (lift r).
Proof. intros h r' h' Hn [= <- <-]. done. Qed.

Lemma preserves_ret {A} (n : nat) (a : A) : preserves n (mret a).
Proof. intros h r' h' Hn [= <- <-]. done. Qed.

Lemma preserves_raise {A} (n : nat) (e : exn) : preserves n (raise (A := A) e).
Proof. intros h r' h' Hn [= <- <-]. done. Qed.

Lemma preserves_load (n l : nat) : preserves n (load l).
Proof.
  intros h r h' Hn. unfold load. destruct (h !! l); intros [= <- <-]; done.
Qed.

Lemma preserves_save (n l : nat) (df : DataFrame R) :
  (n ≤ l)%nat → preserves n (save l df).
Proof.
  intros Hl h r h' Hn [= <- <-]. rewrite length_insert. split; [done|].
  intros l' Hl'. apply list_lookup_insert_ne. lia.
Qed.

Lemma preserves_new (n : nat) (df : DataFrame R) : preserves n (new df).
Proof.
  intros h r h' Hn [= <- <-]. rewrite length_app. split; [lia|].
  intros l Hl. apply lookup_app_l. lia.
Qed.

Lemma returns_new (n : nat) (df : DataFrame R) :
  returns n (fun l => (n ≤ l)%nat) (new df).
Proof. intros h a h' Hn [= <- <-]. done. Qed.

Lemma returns_bind {A B} (n : nat) (P : B → Prop)
    (m : M (list (DataFrame R)) A) (f : A → M (list (DataFrame R)) B) :
  preserves n m → (∀ a, returns n P (f a)) → returns n P (m ≫= f).
Proof.
  intros Hm Hf h b h' Hn. rewrite bind_run.
  destruct (m h) as [[a|e] h1] eqn:Hmh; [|done]. intros Hrun.
  destruct (Hm _ _ _ Hn Hmh) as [Hn1 _]. by eapply Hf.
Qed.

Lemma preserves_copy (n l : nat) : preserves n (copy l).
Proof.
  apply preserves_bind'; [apply preserves_load|]. intros df. apply preserves_new.
Qed.

Lemma returns_copy (n l : nat) : returns n (fun l' => (n ≤ l')%nat) (copy l).
Proof.
  apply returns_bind; [apply preserves_load|]. intros df. apply returns_new.
Qed.

Lemma preserves_rows_where (n l : nat) (mask : list bool) :
  preserves n (rows_where l mask).
Proof.
  apply preserves_bind'; [apply preserves_load|]. intros df. apply preserves_new.
Qed.

Lemma returns_rows_where (n l : nat) (mask : list bool) :
  returns n (fun l' => (n ≤ l')%nat) (rows_where l mask).
Proof.
  apply returns_bind; [apply preserves_load|]. intros df. apply returns_new.
Qed.

Lemma preserves_column (n l : nat) (name : string) : preserves n (column l name).
Proof.
  apply preserves_bind'; [apply preserves_load|]. intros df. apply preserves_pure.
Qed.

Lemma preserves_at_cell (n l : nat) (label : R) (name : string) :
  preserves n (at_cell l label name).
Proof.
  apply preserves_bind'; [apply preserves_load|]. intros df. apply preserves_pure.
Qed.

Lemma preserves_find_zero (n c : nat) : (n ≤ c)%nat → preserves n (find_zero c).
Proof.
  intros Hc. unfold find_zero.
  apply preserves_bind'; [apply preserves_column|]. intros volt.
  apply preserves_bind'; [apply preserves_pure|]. intros min_pv.
  apply preserves_bind'; [apply preserves_pure|]. intros min_nv.
  apply preserves_bind'.
  { apply preserves_bind'; [apply preserves_load|]. intros df.
    apply preserves_bind'; [apply preserves_pure|]. intros df'.
    by apply preserves_save. }
  intros _.
  apply preserves_bind'; [apply preserves_at_cell|]. intros min_nc.
  apply preserves_bind'; [apply preserves_at_cell|]. intros min_pc.
  repeat case_decide; apply preserves_ret || apply preserves_raise.
Qed.

Lemma preserves_mapM {A B} (n : nat) (f : A → M (list (DataFrame R)) B)
    (l : list A) :
  (∀ x, preserves n (f x)) → preserves n (mapM f l).
Proof.
  intros Hf. induction l as [|x l IH]; simpl; [apply preserves_ret|].
  apply preserves_bind'; [done|]. intros y.
  apply preserves_bind'; [done|]. intros k. apply preserves_ret.
Qed.

(** The calibration works on copies only. *)
Lemma preserves_calibration (n self : nat) : preserves n (calibration self).
Proof.
  unfold calibration.
  apply preserves_bind'.
  { apply preserves_bind'; [apply preserves_load|]. intros df. apply preserves_ret. }
  intros [|].
  - apply preserves_bind'; [apply preserves_column|]. intros sec.
    apply preserves_bind'; [|intros; apply preserves_ret].
    apply preserves_mapM. intros sv.
    apply preserves_bind'; [apply preserves_column|]. intros sec'.
    eapply preserves_bind;
      [apply preserves_rows_where|apply returns_rows_where|]. intros op Hop.
    eapply preserves_bind; [apply preserves_copy|apply returns_copy|].
    intros op' Hop'. by apply preserves_find_zero.
  - eapply preserves_bind; [apply preserves_copy|apply returns_copy|].
    intros c Hc'. by apply preserves_find_zero.
Qed.

(** *** [zero], step by step *)

Lemma zero_run (self : nat) (inplace : bool) (h h1 : list (DataFrame R))
    (cal : R) (df : DataFrame R) (cur : list R) :
  calibration self h = (Ok cal, h1) →
  h1 !! self = Some df →
  columns df !! "current" = Some cur →
  let d := setitem "current" ((fun x => x - cal) <$> cur) df in
  zero self inplace h
  = (Ok (length h1),
     if inplace then <[self := mkFrame (index df) (columns d)]> (h1 ++ [d])%list
     else (h1 ++ [d])%list).
Proof.
  intros Hcal Hself Hcur d. unfold zero.
  rewrite (bind_Ok _ _ _ _ _ Hcal).
  rewrite (bind_Ok _ _ _ _ _ (copy_run _ _ _ Hself)).
  rewrite (bind_Ok _ _ _ (h1 ++ [df])%list cur).
  2:{ rewrite (column_run _ _ _ df) by apply lookup_snoc.
      unfold getitem. by rewrite Hcur. }
  rewrite (bind_Ok _ _ _ _ _ (set_column_run _ _ _ _ df (lookup_snoc _ _))).
  rewrite insert_snoc. fold d.
  destruct inplace; [|done].
  rewrite (bind_Ok _ _ _ _ _
             (assign_all_run _ _ _ d df (lookup_snoc _ _) (lookup_snoc_old _ _ _ _ Hself))).
  done.
Qed.

Lemma zero_no_calibration (self : nat) (inplace : bool)
    (h h1 : list (DataFrame R)) (e : exn) :
  calibration self h = (Raise e, h1) → zero self inplace h = (Raise e, h1).
Proof. intros Hcal. unfold zero. by rewrite (bind_Raise _ _ _ _ _ Hcal). Qed.

Lemma zero_no_current (self : nat) (inplace : bool) (h h1 : list (DataFrame R))
    (cal : R) (df : DataFrame R) :
  calibration self h = (Ok cal, h1) →
  h1 !! self = Some df →
  columns df !! "current" = None →
  zero self inplace h = (Raise KeyError, (h1 ++ [df])%list).
Proof.
  intros Hcal Hself Hcur. unfold zero.
  rewrite (bind_Ok _ _ _ _ _ Hcal).
  rewrite (bind_Ok _ _ _ _ _ (copy_run _ _ _ Hself)).
  erewrite bind_Raise; [done|].
  rewrite (column_run _ _ _ df) by apply lookup_snoc.
  unfold getitem. by rewrite Hcur.
Qed.

Lemma calibration_dangling (self : nat) (h : list (DataFrame R)) :
  h !! self = None → calibration self h = (Raise KeyError, h).
Proof.
  intros Hself. unfold calibration, has_column.
  erewrite bind_Raise; [done|]. erewrite bind_Raise; [done|].
  unfold load. by rewrite Hself.
Qed.

(** *** The calibration of a single sweep *)

Lemma min_abs_fold (xs : list R) (x : R) :
  let m := fold_left (fun m y => if decide (Rabs y < Rabs m) then y else m) xs x in
  (m = x ∨ m ∈ xs) ∧ Rabs m <= Rabs x ∧ ∀ y, y ∈ xs → Rabs m <= Rabs y.
Proof.
  revert x. induction xs as [|y xs IH]; intros x; simpl.
  { split_and!; [by left|lra|]. intros y Hy. by apply elem_of_nil in Hy. }
  destruct (IH (if decide (Rabs y < Rabs x) then y else x)) as (Hin & Hle & Hall).
  split_and!.
  - destruct Hin as [Hin|Hin]; [|right; by apply list_elem_of_further].
    rewrite Hin. case_decide; [right; apply list_elem_of_here|by left].
  - case_decide; lra.
  - intros z Hz. apply elem_of_cons in Hz as [->|Hz]; [|by apply Hall].
    case_decide; lra.
Qed.

Lemma min_abs_spec (xs : list R) :
  xs ≠ [] →
  ∃ m, min_abs xs = Ok m ∧ m ∈ xs ∧ ∀ y, y ∈ xs → Rabs m <= Rabs y.
Proof.
  destruct xs as [|x xs]; [done|]. intros _. eexists. split; [done|].
  destruct (min_abs_fold xs x) as (Hin & Hle & Hall). split.
  - destruct Hin as [->|Hin]; [apply list_elem_of_here|by apply list_elem_of_further].
  - intros y Hy. apply elem_of_cons in Hy as [->|Hy]; [done|by apply Hall].
Qed.

Lemma filter_none {A} (P : A → Prop) `{∀ x, Decision (P x)} (l : list A) :
  (∀ x, x ∈ l → ¬ P x) → filter P l = [].
Proof.
  induction l as [|x l IH]; intros Hl; [done|].
  rewrite filter_cons_False by (apply Hl, list_elem_of_here).
  apply IH. intros y Hy. apply Hl. by apply list_elem_of_further.
Qed.

Lemma filter_seq_unique (P : nat → Prop) `{∀ i, Decision (P i)} (n k : nat) :
  (k < n)%nat → P k → (∀ i, (i < n)%nat → P i → i = k) →
  filter P (seq 0 n) = [k].
Proof.
  induction n as [|n IH]; intros Hk HP Huniq; [lia|].
  rewrite seq_S, filter_app. simpl.
  destruct (decide (k = n)) as [->|Hne].
  - rewrite filter_cons_True, filter_nil by done.
    rewrite filter_none; [done|].
    intros i Hi HPi. apply elem_of_seq in Hi.
    assert (i = n) by (apply Huniq; [lia|done]). lia.
  - rewrite filter_cons_False, filter_nil.
    + rewrite IH; [done|lia|done|]. intros i Hi. apply Huniq. lia.
    + intros HPn. apply Hne. symmetry. by apply Huniq; [lia|].
Qed.

Lemma positions_unique (name : option string) (vs : list R) (k : nat) (v : R) :
  NoDup vs → vs !! k = Some v → positions v (LabelIndex name vs) = [k].
Proof.
  intros Hnd Hk. unfold positions. simpl.
  apply filter_seq_unique; [by eapply lookup_lt_Some|done|].
  intros i _ Hi. by eapply NoDup_lookup.
Qed.

Lemma find_zero_run (c : nat) (h : list (DataFrame R)) (df : DataFrame R)
    (vs cs : list R) :
  h !! c = Some df → wf df →
  columns df !! "voltage" = Some vs →
  columns df !! "current" = Some cs →
  NoDup vs →
  (∃ v, v ∈ vs ∧ v <= 0) →
  ∃ k v0 offset,
    vs !! k = Some v0 ∧ v0 <= 0 ∧
    (∀ v, v ∈ vs → v <= 0 → Rabs v0 <= Rabs v) ∧
    cs !! k = Some offset ∧
    find_zero c h
    = (Ok offset,
       <[c := mkFrame (LabelIndex (Some "voltage") vs)
                (delete "voltage" (columns df))]> h).
Proof.
  intros Hc Hwf Hv Hcur Hnd (v & Hvin & Hvle).
  destruct (min_abs_spec (filter (fun v => v <= 0) vs)) as (m & Hmin & Hm & Hleast).
  { intros Hnil. eapply (filter_nil_not_elem_of _ _ v); done. }
  apply list_elem_of_filter in Hm as [Hm0 Hm].
  apply list_elem_of_lookup in Hm as [k Hk].
  assert (Hlen : length cs = length vs) by (by rewrite (Hwf _ _ Hv), (Hwf _ _ Hcur)).
  destruct (lookup_lt_is_Some_2 cs k) as [offset Hoff].
  { rewrite Hlen. by eapply lookup_lt_Some. }
  exists k, m, offset. split_and!; [done|done| |done|].
  { intros y Hy Hy0. apply Hleast. by apply list_elem_of_filter. }
  set (df1 := mkFrame (LabelIndex (Some "voltage") vs) (delete "voltage" (columns df))).
  assert (Hat : at_cell c m "current" (<[c := df1]> h) = (Ok offset, <[c := df1]> h)).
  { unfold at_cell. erewrite bind_Ok.
    2:{ apply load_run. apply list_lookup_insert_eq. by eapply lookup_lt_Some. }
    unfold lift, at_. simpl. rewrite (positions_unique _ _ k) by done.
    erewrite row_at_Ok; [done| |done]. simpl. by rewrite lookup_delete_ne. }
  unfold find_zero.
  rewrite (bind_Ok _ _ _ h vs).
  2:{ rewrite (column_run _ _ _ df) by done. unfold getitem. by rewrite Hv. }
  rewrite (bind_Ok _ _ _ h m) by (unfold lift; by rewrite Hmin).
  rewrite (bind_Ok _ _ _ h m) by (unfold lift; by rewrite Hmin).
  rewrite (bind_Ok _ _ _ (<[c := df1]> h) tt).
  2:{ unfold set_index_inplace. rewrite (bind_Ok _ _ _ _ _ (load_run _ _ _ Hc)).
      rewrite (bind_Ok _ _ _ h df1); [done|]. unfold lift, set_index. by rewrite Hv. }
  rewrite (bind_Ok _ _ _ _ _ Hat). rewrite (bind_Ok _ _ _ _ _ Hat).
  rewrite decide_False by (unfold Rgt; lra).
  rewrite decide_False by lra.
  rewrite decide_True by done.
  replace ((offset + offset) / 2) with offset by lra. done.
Qed.

Lemma calibration_single (self : nat) (h : list (DataFrame R)) (df : DataFrame R)
    (vs cs : list R) :
  h !! self = Some df → wf df →
  columns df !! "secondary voltage" = None →
  columns df !! "voltage" = Some vs →
  columns df !! "current" = Some cs →
  NoDup vs →
  (∃ v, v ∈ vs ∧ v <= 0) →
  ∃ k v0 offset,
    vs !! k = Some v0 ∧ v0 <= 0 ∧
    (∀ v, v ∈ vs → v <= 0 → Rabs v0 <= Rabs v) ∧
    cs !! k = Some offset ∧
    calibration self h
    = (Ok offset,
       (h ++ [mkFrame (LabelIndex (Some "voltage") vs)
                (delete "voltage" (columns df))])%list).
Proof.
  intros Hself Hwf Hsec Hv Hcur Hnd Hneg.
  destruct (find_zero_run (length h) (h ++ [df])%list df vs cs
              (lookup_snoc _ _) Hwf Hv Hcur Hnd Hneg)
    as (k & v0 & offset & Hk & Hv0 & Hleast & Hoff & Hrun).
  exists k, v0, offset. split_and!; [done..|].
  unfold calibration.
  rewrite (bind_Ok _ _ _ _ _ (has_column_run _ _ _ _ Hself)).
  unfold contains. rewrite Hsec.
  rewrite bool_decide_eq_false_2 by (by intros [? ?]).
  rewrite (bind_Ok _ _ _ _ _ (copy_run _ _ _ Hself)).
  rewrite Hrun. by rewrite insert_snoc.
Qed.

Lemma two_rows_wf : wf two_rows.
Proof. apply wf_list_to_map. repeat constructor. Qed.

(** C2: on a single-sweep table (no [secondary voltage] column, voltages
    distinct) with a voltage that is not positive, [zero] returns a table;
    both searches of [find_zero] scan the non-positive voltages and end on
    the one closest to zero, at row [k], so the two magnitudes are equal and
    the offset is the mean of the current of row [k] with itself, that is
    that current; the returned table is the original with the offset
    subtracted from every cell of [current]. *)
Theorem zero_single_sweep (self : nat) (inplace : bool)
    (h : list (DataFrame R)) (df : DataFrame R) (vs cs : list R) :
  h !! self = Some df → wf df →
  columns df !! "secondary voltage" = None →
  columns df !! "voltage" = Some vs →
  columns df !! "current" = Some cs →
  NoDup vs →
  (∃ v, v ∈ vs ∧ v <= 0) →
  ∃ k v0 offset op h' out,
    vs !! k = Some v0 ∧ v0 <= 0 ∧
    (∀ v, v ∈ vs → v <= 0 → Rabs v0 <= Rabs v) ∧
    cs !! k = Some offset ∧
    Analysis.zero self inplace h = (Ok op, h') ∧
    h' !! op = Some out ∧
    index out = index df ∧
    columns out = <["current" := (fun x => x - offset) <$> cs]> (columns df).
Proof.
  intros Hself Hwf Hsec Hv Hcur Hnd Hneg.
  destruct (calibration_single self h df vs cs Hself Hwf Hsec Hv Hcur Hnd Hneg)
    as (k & v0 & offset & Hk & Hv0 & Hleast & Hoff & Hcal).
  pose proof (zero_run self inplace h _ offset df cs Hcal
                (lookup_snoc_old _ _ _ _ Hself) Hcur) as Hrun.
  simpl in Hrun.
  exists k, v0, offset.
  eexists _, _, (setitem "current" ((fun x => x - offset) <$> cs) df).
  split_and!; [done| done | done | done | exact Hrun | | reflexivity | reflexivity].
  destruct inplace.
  - rewrite list_lookup_insert_ne.
    + apply lookup_snoc.
    + apply lookup_lt_Some in Hself. rewrite length_app. simpl. lia.
  - apply lookup_snoc.
Qed.

Lemma zero_single_sweep_witness :
  ∃ op h' out,
    Analysis.zero 0 false [two_rows] = (Ok op, h') ∧
    h' !! op = Some out ∧
    columns out !! "voltage" = Some [-1; 2] ∧
    columns out !! "current" = Some [-5 - -5; 8 - -5].
Proof.
  destruct (zero_single_sweep 0 false [two_rows] two_rows [-1; 2] [-5; 8]
              eq_refl two_rows_wf eq_refl eq_refl eq_refl)
    as (k & v0 & offset & op & h' & out & Hk & Hv0 & _ & Hoff & Hrun & Hout & _ & Hcols).
  - apply NoDup_cons. split.
    + intros Hin. apply list_elem_of_singleton in Hin. lra.
    + apply NoDup_singleton.
  - exists (-1). split; [apply list_elem_of_here|lra].
  - exists op, h', out. split_and!; [exact Hrun|exact Hout| |].
    + rewrite Hcols. reflexivity.
    + rewrite Hcols, lookup_insert_eq.
      destruct k as [|[|k]]; simpl in Hk, Hoff.
      * injection Hoff as <-. reflexivity.
      * injection Hk as <-. lra.
      * discriminate Hk.
Defined.

Lemma negate_twice (l : list R) :
  (fun x => x * -1) <$> ((fun x => x * -1) <$> l) = l.
Proof.
  rewrite <- list_fmap_compose. rewrite <- (list_fmap_id l) at 2.
  apply list_fmap_ext. intros _ x _. simpl. lra.
Qed.

Lemma inverted_columns (secondary : bool) (df : DataFrame R) (cur : list R) :
  columns df !! "current" = Some cur →
  index (inverted true secondary df) = index df ∧
  columns (inverted true secondary df)
  = match (if secondary then columns df !! "secondary current" else None) with
    | Some sc =>
        <["secondary current" := (fun x => x * -1) <$> sc]>
          (<["current" := (fun x => x * -1) <$> cur]> (columns df))
    | None => <["current" := (fun x => x * -1) <$> cur]> (columns df)
    end.
Proof.
  intros Hcur. unfold inverted, contains. rewrite Hcur. simpl.
  rewrite lookup_insert_ne by done.
  destruct (columns df !! "secondary current") as [sc|] eqn:Hsc.
  - rewrite bool_decide_eq_true_2 by by eexists. by destruct secondary.
  - rewrite bool_decide_eq_false_2 by (by intros [? ?]). by destruct secondary.
Qed.

Lemma inverted_involutive (secondary : bool) (df : DataFrame R) (cur : list R) :
  columns df !! "current" = Some cur →
  inverted true secondary (inverted true secondary df) = df.
Proof.
  intros Hcur.
  destruct (inverted_columns secondary df cur Hcur) as [Hix Hcols].
  set (d := inverted true secondary df) in *.
  assert (Hd : columns d !! "current" = Some ((fun x => x * -1) <$> cur)).
  { rewrite Hcols. destruct secondary, (columns df !! "secondary current");
      rewrite ?(lookup_insert_ne _ "secondary current") by done;
      apply lookup_insert_eq. }
  destruct (inverted_columns secondary d _ Hd) as [Hix2 Hcols2].
  destruct df as [ix cols]. simpl in *.
  destruct (inverted true secondary d) as [ix2 cols2]. simpl in *.
  f_equal; [congruence|]. rewrite Hcols2, Hcols. rewrite negate_twice.
  apply map_eq. intros name.
  destruct secondary; simpl.
  - destruct (cols !! "secondary current") as [sc|] eqn:Hsc.
    + rewrite lookup_insert_eq. simpl. rewrite negate_twice.
      destruct (decide (name = "secondary current")) as [->|Hn1];
        [by rewrite lookup_insert_eq|rewrite lookup_insert_ne by done].
      destruct (decide (name = "current")) as [->|Hn2];
        [by rewrite lookup_insert_eq|rewrite lookup_insert_ne by done].
      by rewrite !lookup_insert_ne by done.
    + rewrite lookup_insert_ne by done. rewrite Hsc.
      destruct (decide (name = "current")) as [->|Hn2];
        [by rewrite lookup_insert_eq|by rewrite !lookup_insert_ne by done].
  - destruct (decide (name = "current")) as [->|Hn2];
      [by rewrite lookup_insert_eq|by rewrite !lookup_insert_ne by done].
Qed.

Lemma init_run (r : ref) (h : list (DataFrame R)) (df : DataFrame R) :
  h !! ref_loc r = Some df →
  init r h = (Ok (AnalysisRef (length h)), (h ++ [df])%list).
Proof.
  intros Hr. unfold init.
  rewrite (bind_Ok _ _ _ _ _ (load_run _ _ _ Hr)). done.
Qed.

Lemma call_invert_current_run (self : nat) (primary secondary inplace : bool)
    (h : list (DataFrame R)) (r : result nat) (h' : list (DataFrame R)) :
  invert_current self primary secondary inplace h = (r, h') →
  call_invert_current (AnalysisRef self) primary secondary inplace h
  = (match r with Ok op => Ok (DataFrameRef op) | Raise e => Raise e end, h').
Proof.
  intros Hrun. unfold call_invert_current. rewrite bind_run, Hrun. by destruct r.
Qed.

Lemma call_zero_run (self : nat) (inplace : bool)
    (h : list (DataFrame R)) (r : result nat) (h' : list (DataFrame R)) :
  zero self inplace h = (r, h') →
  call_zero (AnalysisRef self) inplace h
  = (match r with Ok op => Ok (DataFrameRef op) | Raise e => Raise e end, h').
Proof.
  intros Hrun. unfold call_zero. rewrite bind_run, Hrun. by destruct r.
Qed.

(** C8: with [primary] true, on an Analysis table with a [current] column,
    [invert_current] returns a table whose [current] is the original times
    -1, whose [secondary current] is the original times -1 when [secondary]
    is true and the column exists and is the original otherwise, and whose
    other columns and row labels are the original ones.  The returned table
    is a plain DataFrame: the same call on it raises AttributeError.  Wrapped
    in [Analysis] again, the same call on it returns a table equal to the
    original; and the call made twice in place on the receiver leaves the
    receiver, and the table returned last, equal to the original. *)
Theorem invert_current_involution (self : nat) (secondary inplace : bool)
    (h : list (DataFrame R)) (df : DataFrame R) (cur : list R) :
  h !! self = Some df →
  columns df !! "current" = Some cur →
  ∃ out h' df',
    call_invert_current (AnalysisRef self) true secondary inplace h
    = (Ok (DataFrameRef out), h') ∧
    h' !! out = Some df' ∧
    index df' = index df ∧
    columns df' !! "current" = Some ((fun x => x * -1) <$> cur) ∧
    columns df' !! "secondary current"
    = (if secondary
       then fmap (fun x => x * -1) <$> columns df !! "secondary current"
       else columns df !! "secondary current") ∧
    (∀ name, name ≠ "current" → name ≠ "secondary current" →
             columns df' !! name = columns df !! name) ∧
    call_invert_current (DataFrameRef out) true secondary inplace h'
    = (Raise AttributeError, h') ∧
    (∃ again h1 out2 h2,
       init (DataFrameRef out) h' = (Ok (AnalysisRef again), h1) ∧
       call_invert_current (AnalysisRef again) true secondary inplace h1
       = (Ok (DataFrameRef out2), h2) ∧
       h2 !! out2 = Some df) ∧
    (∃ out1 h1 out2 h2,
       call_invert_current (AnalysisRef self) true secondary true h
       = (Ok (DataFrameRef out1), h1) ∧
       call_invert_current (AnalysisRef self) true secondary true h1
       = (Ok (DataFrameRef out2), h2) ∧
       h2 !! self = Some df ∧
       h2 !! out2 = Some df).
Proof.
  intros Hself Hcur.
  pose proof (lookup_lt_Some _ _ _ Hself) as Hlt.
  destruct (inverted_columns secondary df cur Hcur) as [Hix Hcols].
  set (d := inverted true secondary df) in *.
  assert (Hd : columns d !! "current" = Some ((fun x => x * -1) <$> cur)).
  { rewrite Hcols. destruct secondary, (columns df !! "secondary current");
      rewrite ?(lookup_insert_ne _ "secondary current") by done;
      apply lookup_insert_eq. }
  pose proof (inverted_involutive secondary df cur Hcur) as Hinv. fold d in Hinv.
  pose proof (invert_current_run self true secondary inplace h df Hself
                (fun _ => mk_is_Some _ _ Hcur)) as Hrun.
  fold d in Hrun.
  set (h' := if inplace then _ else _) in Hrun.
  assert (Hlen' : length h' = S (length h)).
  { unfold h'. destruct inplace; rewrite ?length_insert, length_app; simpl; lia. }
  assert (Hout : h' !! length h = Some d).
  { unfold h'. destruct inplace; [|apply lookup_snoc].
    rewrite list_lookup_insert_ne; [apply lookup_snoc|lia]. }
  exists (length h), h', d. split_and!; [by apply (call_invert_current_run _ _ _ _ _ (Ok _))|done|done|done| | |done| |].
  - rewrite Hcols. destruct secondary; simpl; [|by rewrite lookup_insert_ne].
    destruct (columns df !! "secondary current") as [sc|] eqn:Hsc.
    + by rewrite lookup_insert_eq.
    + rewrite lookup_insert_ne by done. by rewrite Hsc.
  - intros name Hn1 Hn2. rewrite Hcols.
    destruct secondary, (columns df !! "secondary current");
      by rewrite ?(lookup_insert_ne _ "secondary current"),
                 ?(lookup_insert_ne _ "current") by done.
  - pose proof (invert_current_run (length h') true secondary inplace (h' ++ [d])%list d
                  (lookup_snoc _ _) (fun _ => mk_is_Some _ _ Hd)) as Hrun2.
    rewrite Hinv in Hrun2.
    eexists _, _, _, _. split; [by apply init_run|].
    split; [by apply (call_invert_current_run _ _ _ _ _ (Ok _))|].
    destruct inplace; [|apply lookup_snoc].
    rewrite list_lookup_insert_ne; [apply lookup_snoc|]. rewrite length_app. simpl. lia.
  - pose proof (invert_current_run self true secondary true h df Hself
                  (fun _ => mk_is_Some _ _ Hcur)) as Hrun1.
    fold d in Hrun1.
    assert (Hd' : mkFrame (index df) (columns d) = d).
    { rewrite <- Hix. by destruct d. }
    rewrite Hd' in Hrun1.
    set (h1 := <[self := _]> _) in Hrun1.
    assert (Hself1 : h1 !! self = Some d).
    { unfold h1. apply list_lookup_insert_eq. rewrite length_app. lia. }
    pose proof (invert_current_run self true secondary true h1 d Hself1
                  (fun _ => mk_is_Some _ _ Hd)) as Hrun2.
    rewrite Hinv in Hrun2.
    assert (Hdf : mkFrame (index d) (columns df) = df).
    { rewrite Hix. by destruct df. }
    rewrite Hdf in Hrun2.
    eexists _, _, _, _. split; [by apply (call_invert_current_run _ _ _ _ _ (Ok _))|].
    split; [by apply (call_invert_current_run _ _ _ _ _ (Ok _))|].
    assert (Hlen1 : length h1 = S (length h)).
    { unfold h1. rewrite length_insert, length_app. simpl. lia. }
    split.
    + apply list_lookup_insert_eq. rewrite length_app. lia.
    + rewrite list_lookup_insert_ne by lia. apply lookup_snoc.
Qed.

(** C8, the second call made on what the first returns: on [{current: 3}]
    the call returns the table [{current: 3 * -1}], a plain DataFrame, and
    the same call on the returned table raises AttributeError. *)
Lemma invert_current_chained_raises :
  ∃ out h',
    Analysis.call_invert_current (Analysis.AnalysisRef 0) true false false
      [current_three]
    = (Ok (Analysis.DataFrameRef out), h') ∧
    h' !! out = Some (setitem "current" [3 * -1] current_three) ∧
    Analysis.call_invert_current (Analysis.DataFrameRef out) true false false h'
    = (Raise AttributeError, h').
Proof. eexists _, _. split_and!; reflexivity. Qed.

Lemma invert_current_involution_witness :
  ∃ out h' df',
    Analysis.call_invert_current (Analysis.AnalysisRef 0) true false false
      [current_three]
    = (Ok (Analysis.DataFrameRef out), h') ∧
    h' !! out = Some df' ∧
    columns df' !! "current" = Some [-3] ∧
    (∃ again h1 out2 h2,
       Analysis.init (Analysis.DataFrameRef out) h'
       = (Ok (Analysis.AnalysisRef again), h1) ∧
       Analysis.call_invert_current (Analysis.AnalysisRef again) true false false h1
       = (Ok (Analysis.DataFrameRef out2), h2) ∧
       h2 !! out2 = Some current_three) ∧
    (∃ out1 h1 out2 h2,
       Analysis.call_invert_current (Analysis.AnalysisRef 0) true false true
         [current_three]
       = (Ok (Analysis.DataFrameRef out1), h1) ∧
       Analysis.call_invert_current (Analysis.AnalysisRef 0) true false true h1
       = (Ok (Analysis.DataFrameRef out2), h2) ∧
       h2 !! 0%nat = Some current_three ∧
       h2 !! out2 = Some current_three).
Proof.
  destruct (invert_current_involution 0 false false [current_three] current_three [3]
              eq_refl eq_refl)
    as (out & h' & df' & Hrun & Hout & _ & Hcur & _ & _ & _ & Hagain & Hplace).
  exists out, h', df'.
  split_and!; [exact Hrun|exact Hout| |exact Hagain|exact Hplace].
  rewrite Hcur. simpl. do 2 f_equal. lra.
Defined.

Lemma inverted_lookup (primary secondary : bool) (df : DataFrame R) :
  (primary = true → is_Some (columns df !! "current")) →
  index (inverted primary secondary df) = index df ∧
  ∀ name,
    columns (inverted primary secondary df) !! name
    = if bool_decide (name = "current") && primary
         || bool_decide (name = "secondary current") && secondary
      then fmap (fun x => x * -1) <$> columns df !! name
      else columns df !! name.
Proof.
  intros Hcur. unfold inverted.
  set (d1 := if primary then _ else df).
  assert (H1 : index d1 = index df ∧ ∀ name,
            columns d1 !! name
            = if bool_decide (name = "current") && primary
              then fmap (fun x => x * -1) <$> columns df !! name
              else columns df !! name).
  { unfold d1. destruct primary.
    - destruct (Hcur eq_refl) as [cur Hc]. split; [done|]. intros name. simpl.
      rewrite Hc. simpl. case_bool_decide as Hn; simpl.
      + subst name. by rewrite lookup_insert_eq, Hc.
      + by rewrite lookup_insert_ne.
    - split; [done|]. intros name. by rewrite andb_false_r. }
  destruct H1 as [Hix1 Hc1]. unfold contains.
  assert (Hgoal : ∀ d2, index d2 = index df →
            (∀ name, columns d2 !! name
                     = if bool_decide (name = "secondary current") && secondary
                       then fmap (fun x => x * -1) <$> columns d1 !! name
                       else columns d1 !! name) →
            index d2 = index df ∧ ∀ name,
              columns d2 !! name
              = if bool_decide (name = "current") && primary
                   || bool_decide (name = "secondary current") && secondary
                then fmap (fun x => x * -1) <$> columns df !! name
                else columns df !! name).
  { intros d2 Hix2 Hc2. split; [done|]. intros name. rewrite Hc2, Hc1.
    destruct (decide (name = "secondary current")) as [->|Hn].
    - rewrite (bool_decide_eq_false_2 ("secondary current" = "current")) by done.
      rewrite bool_decide_eq_true_2 by done. by destruct primary, secondary.
    - rewrite (bool_decide_eq_false_2 (name = "secondary current")) by done.
      simpl. by rewrite orb_false_r. }
  apply Hgoal.
  - destruct (bool_decide _ && secondary); [simpl|]; congruence.
  - intros name.
    destruct (columns d1 !! "secondary current") as [sc|] eqn:Hsc.
    + rewrite bool_decide_eq_true_2 by by eexists. simpl.
      destruct secondary; simpl; [|by rewrite andb_false_r].
      rewrite andb_true_r. case_bool_decide as Hn.
      * subst name. by rewrite lookup_insert_eq, Hsc.
      * by rewrite lookup_insert_ne.
    + rewrite bool_decide_eq_false_2 by (by intros [? ?]). simpl.
      destruct secondary; [|by rewrite andb_false_r].
      rewrite andb_true_r. case_bool_decide as Hn; [|done].
      subst name. by rewrite Hsc.
Qed.

Lemma calibration_keeps (self : nat) (h h1 : list (DataFrame R)) (r : result R) :
  calibration self h = (r, h1) →
  (length h ≤ length h1)%nat ∧ ∀ l x, h !! l = Some x → h1 !! l = Some x.
Proof.
  intros Hcal.
  destruct (preserves_calibration (length h) self h r h1 (le_n _) Hcal) as [Hlen Hold].
  split; [done|]. intros l x Hl. rewrite Hold; [done|]. by eapply lookup_lt_Some.
Qed.

Lemma lookup_fresh {A} (h h1 : list A) (x : A) :
  (length h ≤ length h1)%nat → h !! length h1 = None.
Proof. intros Hlen. by apply lookup_ge_None. Qed.

(** C9: without the inplace flag, [zero] and [invert_current] leave every
    table of the store, the receiver among them, as it was, whether they
    return or raise.  Where the calibration of [zero] gives [cal] and the
    table has a [current] column, [zero] returns, in a new object, the
    receiver's table with [cal] subtracted from every current; where
    [invert_current] has the [current] column it needs, it returns, in a new
    object, the receiver's table with the chosen current columns times -1.
    With the flag, the same table is returned and the receiver now holds it
    too. *)
Theorem inplace_flag_decides_receiver (self : nat) (h : list (DataFrame R))
    (df : DataFrame R) :
  h !! self = Some df →
  (∀ r h', zero self false h = (r, h') →
     ∀ l x, h !! l = Some x → h' !! l = Some x) ∧
  (∀ primary secondary r h',
     invert_current self primary secondary false h = (r, h') →
     ∀ l x, h !! l = Some x → h' !! l = Some x) ∧
  (∀ cal h1 cur,
     calibration self h = (Ok cal, h1) →
     columns df !! "current" = Some cur →
     let transformed := setitem "current" ((fun x => x - cal) <$> cur) df in
     (∃ op h', zero self false h = (Ok op, h') ∧
        h !! op = None ∧ h' !! op = Some transformed ∧ h' !! self = Some df) ∧
     (∃ op h', zero self true h = (Ok op, h') ∧
        h !! op = None ∧ h' !! op = Some transformed ∧
        h' !! self = Some transformed)) ∧
  (∀ primary secondary,
     (primary = true → is_Some (columns df !! "current")) →
     ∃ transformed,
       index transformed = index df ∧
       (∀ name,
          columns transformed !! name
          = if bool_decide (name = "current") && primary
               || bool_decide (name = "secondary current") && secondary
            then fmap (fun x => x * -1) <$> columns df !! name
            else columns df !! name) ∧
       (∃ op h', invert_current self primary secondary false h = (Ok op, h') ∧
          h !! op = None ∧ h' !! op = Some transformed ∧ h' !! self = Some df) ∧
       (∃ op h', invert_current self primary secondary true h = (Ok op, h') ∧
          h !! op = None ∧ h' !! op = Some transformed ∧
          h' !! self = Some transformed)).
Proof.
  intros Hself. pose proof (lookup_lt_Some _ _ _ Hself) as Hlt. split_and!.
  - intros r h' Hrun.
    destruct (calibration self h) as [[cal|e] h1] eqn:Hcal.
    2:{ rewrite (zero_no_calibration _ _ _ _ _ Hcal) in Hrun.
        injection Hrun as <- <-. by eapply calibration_keeps. }
    destruct (calibration_keeps _ _ _ _ Hcal) as [Hlen Hold].
    destruct (columns df !! "current") as [cur|] eqn:Hcur.
    + rewrite (zero_run _ _ _ _ _ _ _ Hcal (Hold _ _ Hself) Hcur) in Hrun.
      injection Hrun as <- <-. intros l x Hl. by apply lookup_snoc_old, Hold.
    + rewrite (zero_no_current _ _ _ _ _ _ Hcal (Hold _ _ Hself) Hcur) in Hrun.
      injection Hrun as <- <-. intros l x Hl. by apply lookup_snoc_old, Hold.
  - intros primary secondary r h' Hrun.
    destruct (decide (primary = true ∧ columns df !! "current" = None))
      as [[-> Hcur]|Hok].
    { rewrite (invert_current_KeyError _ _ _ _ _ Hself Hcur) in Hrun.
      injection Hrun as <- <-. intros l x Hl. by apply lookup_snoc_old. }
    assert (Hcur : primary = true → is_Some (columns df !! "current")).
    { intros ->. destruct (columns df !! "current") eqn:E; [by eexists|].
      destruct Hok. done. }
    rewrite (invert_current_run _ _ _ _ _ _ Hself Hcur) in Hrun.
    injection Hrun as <- <-. intros l x Hl. by apply lookup_snoc_old.
  - intros cal h1 cur Hcal Hcur transformed.
    destruct (calibration_keeps _ _ _ _ Hcal) as [Hlen Hold].
    assert (Hix : mkFrame (index df) (columns transformed) = transformed) by done.
    split.
    + eexists _, _.
      split; [exact (zero_run _ false _ _ _ _ _ Hcal (Hold _ _ Hself) Hcur)|].
      split_and!; [by apply lookup_fresh|apply lookup_snoc|by apply lookup_snoc_old, Hold].
    + eexists _, _.
      split; [exact (zero_run _ true _ _ _ _ _ Hcal (Hold _ _ Hself) Hcur)|].
      split_and!; [by apply lookup_fresh| |].
      * rewrite list_lookup_insert_ne by lia. apply lookup_snoc.
      * rewrite list_lookup_insert_eq; [done|]. rewrite length_app. lia.
  - intros primary secondary Hcur.
    destruct (inverted_lookup primary secondary df Hcur) as [Hix Hcols].
    set (d := inverted primary secondary df) in *.
    assert (Hd : mkFrame (index df) (columns d) = d).
    { rewrite <- Hix. by destruct d. }
    exists d. split_and!; [done|done| |].
    + eexists _, _.
      split; [exact (invert_current_run _ _ _ false _ _ Hself Hcur)|].
      split_and!; [by apply lookup_fresh|apply lookup_snoc|by apply lookup_snoc_old].
    + eexists _, _.
      split; [exact (invert_current_run _ _ _ true _ _ Hself Hcur)|].
      fold d. rewrite Hd.
      split_and!; [by apply lookup_fresh| |].
      * rewrite list_lookup_insert_ne by lia. apply lookup_snoc.
      * rewrite list_lookup_insert_eq; [done|]. rewrite length_app. lia.
Qed.

(** C10: [zero(inplace=True)] and [invert_current(..., inplace=True)]
    return the transformed table, in an object other than the receiver: the
    receiver's table with the calibration offset subtracted from every
    current, or with the chosen current columns times -1.  The receiver holds
    that table too, and the call without the flag on the original store
    returns a table equal to it.  Where the call without the flag raises, the
    call with the flag raises the same exception. *)
Theorem inplace_returns_transformed (self : nat) (h : list (DataFrame R))
    (df : DataFrame R) :
  h !! self = Some df →
  (∀ cal h1 cur,
     calibration self h = (Ok cal, h1) →
     columns df !! "current" = Some cur →
     let transformed := setitem "current" ((fun x => x - cal) <$> cur) df in
     ∃ op h' op2 h2,
       zero self true h = (Ok op, h') ∧
       op ≠ self ∧
       h' !! op = Some transformed ∧
       h' !! self = Some transformed ∧
       zero self false h = (Ok op2, h2) ∧
       h2 !! op2 = Some transformed) ∧
  (∀ primary secondary,
     (primary = true → is_Some (columns df !! "current")) →
     ∃ transformed op h' op2 h2,
       index transformed = index df ∧
       (∀ name,
          columns transformed !! name
          = if bool_decide (name = "current") && primary
               || bool_decide (name = "secondary current") && secondary
            then fmap (fun x => x * -1) <$> columns df !! name
            else columns df !! name) ∧
       invert_current self primary secondary true h = (Ok op, h') ∧
       op ≠ self ∧
       h' !! op = Some transformed ∧
       h' !! self = Some transformed ∧
       invert_current self primary secondary false h = (Ok op2, h2) ∧
       h2 !! op2 = Some transformed) ∧
  (∀ e h2, zero self false h = (Raise e, h2) →
     zero self true h = (Raise e, h2)) ∧
  (∀ primary secondary e h2,
     invert_current self primary secondary false h = (Raise e, h2) →
     invert_current self primary secondary true h = (Raise e, h2)).
Proof.
  intros Hself. pose proof (lookup_lt_Some _ _ _ Hself) as Hlt. split_and!.
  - intros cal h1 cur Hcal Hcur transformed.
    destruct (calibration_keeps _ _ _ _ Hcal) as [Hlen Hold].
    eexists _, _, _, _.
    split; [exact (zero_run _ true _ _ _ _ _ Hcal (Hold _ _ Hself) Hcur)|].
    split_and!; [lia| | | |].
    + rewrite list_lookup_insert_ne by lia. apply lookup_snoc.
    + rewrite list_lookup_insert_eq; [done|]. rewrite length_app. lia.
    + exact (zero_run _ false _ _ _ _ _ Hcal (Hold _ _ Hself) Hcur).
    + apply lookup_snoc.
  - intros primary secondary Hcur.
    destruct (inverted_lookup primary secondary df Hcur) as [Hix Hcols].
    set (d := inverted primary secondary df) in *.
    assert (Hd : mkFrame (index df) (columns d) = d).
    { rewrite <- Hix. by destruct d. }
    exists d. eexists _, _, _, _. split_and!; [done|done| | | | | |].
    + exact (invert_current_run _ _ _ true _ _ Hself Hcur).
    + lia.
    + fold d. rewrite list_lookup_insert_ne by lia. apply lookup_snoc.
    + fold d. rewrite Hd. rewrite list_lookup_insert_eq; [done|]. rewrite length_app. lia.
    + exact (invert_current_run _ _ _ false _ _ Hself Hcur).
    + apply lookup_snoc.
  - intros e h2 Hrun.
    destruct (calibration self h) as [[cal|e'] h1] eqn:Hcal.
    2:{ rewrite (zero_no_calibration _ _ _ _ _ Hcal) in Hrun.
        injection Hrun as <- <-. by apply zero_no_calibration. }
    destruct (calibration_keeps _ _ _ _ Hcal) as [Hlen Hold].
    destruct (columns df !! "current") as [cur|] eqn:Hcur.
    + by rewrite (zero_run _ _ _ _ _ _ _ Hcal (Hold _ _ Hself) Hcur) in Hrun.
    + rewrite (zero_no_current _ _ _ _ _ _ Hcal (Hold _ _ Hself) Hcur) in Hrun.
      injection Hrun as <- <-.
      exact (zero_no_current _ _ _ _ _ _ Hcal (Hold _ _ Hself) Hcur).
  - intros primary secondary e h2 Hrun.
    destruct (decide (primary = true ∧ columns df !! "current" = None))
      as [[-> Hcur]|Hok].
    { rewrite (invert_current_KeyError _ _ _ _ _ Hself Hcur) in Hrun.
      injection Hrun as <- <-. by apply invert_current_KeyError. }
    assert (Hcur : primary = true → is_Some (columns df !! "current")).
    { intros ->. destruct (columns df !! "current") eqn:E; [by eexists|].
      destruct Hok. done. }
    by rewrite (invert_current_run _ _ _ _ _ _ Hself Hcur) in Hrun.
Qed.

End AnalysisStore.

Lemma two_rows_distinct : NoDup [-1; 2].
Proof.
  apply NoDup_cons. split; [|apply NoDup_singleton].
  intros Hin. apply list_elem_of_singleton in Hin. lra.
Qed.

Lemma two_rows_negative : ∃ v : R, v ∈ [-1; 2] ∧ v <= 0.
Proof. exists (-1). split; [apply list_elem_of_here|lra]. Qed.

Lemma two_rows_calibration :
  Analysis.calibration 0 [two_rows]
  = (Ok (-5),
     [two_rows;
      mkFrame (LabelIndex (Some "voltage") [-1; 2])
        (delete "voltage" (columns two_rows))]).
Proof.
  destruct (calibration_single 0 [two_rows] two_rows [-1; 2] [-5; 8]
              eq_refl two_rows_wf eq_refl eq_refl eq_refl
              two_rows_distinct two_rows_negative)
    as (k & v0 & offset & Hk & Hv0 & _ & Hoff & Hcal).
  destruct k as [|[|k]]; simpl in Hk, Hoff.
  - injection Hoff as <-. exact Hcal.
  - injection Hk as <-. lra.
  - discriminate Hk.
Qed.

Lemma inplace_flag_decides_receiver_witness :
  let zeroed := setitem "current" [-5 - -5; 8 - -5] two_rows in
  (∃ op h', Analysis.zero 0 false [two_rows] = (Ok op, h') ∧
     h' !! op = Some zeroed ∧ h' !! 0%nat = Some two_rows) ∧
  (∃ op h', Analysis.zero 0 true [two_rows] = (Ok op, h') ∧
     h' !! op = Some zeroed ∧ h' !! 0%nat = Some zeroed) ∧
  (∃ negated,
     columns negated !! "current" = Some [-5 * -1; 8 * -1] ∧
     (∃ op h', Analysis.invert_current 0 true false false [two_rows] = (Ok op, h') ∧
        h' !! op = Some negated ∧ h' !! 0%nat = Some two_rows) ∧
     (∃ op h', Analysis.invert_current 0 true false true [two_rows] = (Ok op, h') ∧
        h' !! op = Some negated ∧ h' !! 0%nat = Some negated)).
Proof.
  intros zeroed.
  destruct (inplace_flag_decides_receiver 0 [two_rows] two_rows eq_refl)
    as (_ & _ & Hzero & Hinvert).
  destruct (Hzero (-5) _ [-5; 8] two_rows_calibration eq_refl) as [Hz Hzin].
  destruct (Hinvert true false (fun _ => mk_is_Some _ _ eq_refl))
    as (negated & _ & Hcols & Hi & Hiin).
  split_and!.
  - destruct Hz as (op & h' & Hrun & _ & Hop & Hself). by exists op, h'.
  - destruct Hzin as (op & h' & Hrun & _ & Hop & Hself). by exists op, h'.
  - exists negated. split_and!.
    + rewrite Hcols. reflexivity.
    + destruct Hi as (op & h' & Hrun & _ & Hop & Hself). by exists op, h'.
    + destruct Hiin as (op & h' & Hrun & _ & Hop & Hself). by exists op, h'.
Defined.

Lemma inplace_returns_transformed_witness :
  let zeroed := setitem "current" [-5 - -5; 8 - -5] two_rows in
  (∃ op h' op2 h2,
     Analysis.zero 0 true [two_rows] = (Ok op, h') ∧
     h' !! op = Some zeroed ∧
     Analysis.zero 0 false [two_rows] = (Ok op2, h2) ∧
     h2 !! op2 = Some zeroed) ∧
  (∃ negated op h' op2 h2,
     columns negated !! "current" = Some [-5 * -1; 8 * -1] ∧
     Analysis.invert_current 0 true false true [two_rows] = (Ok op, h') ∧
     h' !! op = Some negated ∧
     Analysis.invert_current 0 true false false [two_rows] = (Ok op2, h2) ∧
     h2 !! op2 = Some negated).
Proof.
  intros zeroed.
  destruct (inplace_returns_transformed 0 [two_rows] two_rows eq_refl)
    as (Hzero & Hinvert & _ & _).
  split.
  - destruct (Hzero (-5) _ [-5; 8] two_rows_calibration eq_refl)
      as (op & h' & op2 & h2 & Hrun & _ & Hop & _ & Hrun2 & Hop2).
    by exists op, h', op2, h2.
  - destruct (Hinvert true false (fun _ => mk_is_Some _ _ eq_refl))
      as (negated & op & h' & op2 & h2 & _ & Hcols & Hrun & _ & Hop & _ & Hrun2 & Hop2).
    exists negated, op, h', op2, h2. split_and!; [|done..].
    rewrite Hcols. reflexivity.
Defined.

(** ** Sweep points *)

Section SweepPointsFacts.
Context `{Numpy}.

(** The points of [linspace] for a count of at least two. *)
Lemma linspace_points (start stop : R) (count : Z) :
  (2 ≤ count)%Z →
  ∃ pts, linspace (VFloat start) (VFloat stop) (VInt count) = Ok pts ∧
    length pts = Z.to_nat count ∧
    ∀ k, (k < Z.to_nat count)%nat →
      pts !! k = Some (if decide (k = Z.to_nat count - 1)%nat then stop
                       else start + INR k * ((stop - start) / IZR (count - 1))).
Proof.
  intros Hcount. unfold linspace. simpl.
  rewrite decide_False by lia.
  set (n := Z.to_nat count).
  assert (Hn : (2 ≤ n)%nat) by (unfold n; lia).
  assert (Hdiv : INR (n - 1) = IZR (count - 1)).
  { rewrite INR_IZR_INZ. f_equal. unfold n. lia. }
  assert (Hdiv0 : IZR (count - 1) ≠ 0).
  { apply not_0_IZR. lia. }
  rewrite (decide_True (P := (1 < n)%nat)) by lia.
  rewrite (decide_True (P := (0 < n - 1)%nat)) by lia.
  rewrite Hdiv.
  set (y := if decide _ then _ else _).
  assert (Hy : y = map (fun k => start + INR k * ((stop - start) / IZR (count - 1)))
                     (seq 0 n)).
  { unfold y. case_decide; apply map_ext; intros k; field; done. }
  rewrite Hy. eexists. split; [done|]. split.
  - by rewrite length_insert, length_map, length_seq.
  - intros k Hk. case_decide as Hlast.
    + subst k. apply list_lookup_insert_eq. rewrite length_map, length_seq. lia.
    + rewrite list_lookup_insert_ne by done.
      rewrite list_lookup_fmap, lookup_seq_lt by done. done.
Qed.

Lemma new_linear (start end_ : R) (count : Z) (scale : string) (pts : list R) :
  scale = "linear" ∨ scale = "lin" →
  linspace (VFloat start) (VFloat end_) (VInt count) = Ok pts →
  SweepPoints.new (VFloat start) (VFloat end_) (VInt count) (VStr scale)
  = Ok (SweepPoints.mk pts scale).
Proof.
  intros Hscale Hpts. unfold SweepPoints.new.
  rewrite decide_True by done. by rewrite Hpts.
Qed.

(** In exact arithmetic, over the reals: with the linear policy and a count
    of at least two, the sweep points are [count] many, the first is
    [start], the last is [end], and any two neighbours differ by the same
    step. *)
Lemma linear_points_over_reals (start end_ : R) (count : Z) (scale : string) :
  scale = "linear" ∨ scale = "lin" →
  (2 ≤ count)%Z →
  ∃ pts,
    SweepPoints.new (VFloat start) (VFloat end_) (VInt count) (VStr scale) = Ok pts ∧
    length (SweepPoints.data pts) = Z.to_nat count ∧
    SweepPoints.data pts !! 0%nat = Some start ∧
    last (SweepPoints.data pts) = Some end_ ∧
    ∀ k a b,
      SweepPoints.data pts !! k = Some a →
      SweepPoints.data pts !! S k = Some b →
      b - a = (end_ - start) / IZR (count - 1).
Proof.
  intros Hscale Hcount.
  destruct (linspace_points start end_ count Hcount) as (pts & Hpts & Hlen & Hk).
  exists (SweepPoints.mk pts scale). simpl.
  assert (Hd0 : IZR (count - 1) ≠ 0) by (apply not_0_IZR; lia).
  split_and!; [by apply new_linear|done| | |].
  - rewrite Hk by lia. rewrite decide_False by lia. simpl. f_equal. lra.
  - rewrite last_lookup, Hlen. rewrite Hk by lia.
    by rewrite decide_True by lia.
  - intros k a b Ha Hb.
    assert (HSk : (S k < Z.to_nat count)%nat).
    { rewrite <- Hlen. by eapply lookup_lt_Some. }
    rewrite Hk in Ha by lia. rewrite Hk in Hb by lia.
    rewrite decide_False in Ha by lia.
    assert (Ea : a = start + INR k * ((end_ - start) / IZR (count - 1)))
      by congruence.
    case_decide as Hlast.
    + assert (Eb : b = end_) by congruence.
      assert (HD : INR (S k) = IZR (count - 1)).
      { rewrite Hlast, INR_IZR_INZ. f_equal. lia. }
      rewrite S_INR in HD. rewrite Ea, Eb.
      replace (INR k) with (IZR (count - 1) - 1) by lra.
      by field.
    + assert (Eb : b = start + INR (S k) * ((end_ - start) / IZR (count - 1)))
        by congruence.
      rewrite Ea, Eb, S_INR. by field.
Qed.

(** *** [regen] *)

Lemma regen_run (kwargs : dict value) (self new : SweepPoints.t)
    (first final : R) (start end_ points scale : value) :
  SweepPoints.data self !! 0%nat = Some first →
  last (SweepPoints.data self) = Some final →
  SweepPoints.regen_kwargs kwargs (VFloat first) (VFloat final)
    (VInt (Z.of_nat (length (SweepPoints.data self))))
    (VStr (SweepPoints.scale self))
  = Ok (start, end_, points, scale) →
  SweepPoints.new start end_ points scale = Ok new →
  ∀ r, r = assign_slice (SweepPoints.data self) (SweepPoints.data new) →
  SweepPoints.regen kwargs self
  = match r with
    | Ok data' => (Ok tt, SweepPoints.mk data' (SweepPoints.scale new))
    | Raise e => (Raise e, self)
    end.
Proof.
  intros Hfirst Hlast Hkw Hnew r ->. unfold SweepPoints.regen.
  rewrite bind_run. unfold get at 1.
  rewrite bind_run. unfold lift at 1, SweepPoints.item at 1. rewrite Hfirst.
  rewrite bind_run. unfold lift at 1, SweepPoints.item at 1.
  rewrite last_lookup in Hlast. rewrite <- Nat.sub_1_r in Hlast. rewrite Hlast.
  rewrite bind_run. unfold lift at 1. rewrite Hkw.
  rewrite bind_run. unfold lift at 1. rewrite Hnew.
  rewrite bind_run. unfold lift at 1.
  by destruct (assign_slice _ _).
Qed.

Lemma new_linear_shape (start end_ : R) (count : Z) :
  (2 ≤ count)%Z →
  ∃ pts,
    SweepPoints.new (VFloat start) (VFloat end_) (VInt count) (VStr "linear")
    = Ok (SweepPoints.mk pts "linear") ∧
    length pts = Z.to_nat count ∧
    pts !! 0%nat = Some start ∧
    last pts = Some end_.
Proof.
  intros Hcount.
  destruct (linspace_points start end_ count Hcount) as (pts & Hpts & Hlen & Hk).
  exists pts. split_and!; [apply new_linear; auto|done| |].
  - rewrite Hk by lia. rewrite decide_False by lia. simpl. f_equal. lra.
  - rewrite last_lookup, Hlen. rewrite Hk by lia. by rewrite decide_True by lia.
Qed.

(** C7, the failing input: [regen(points=3)] on the points of
    [SweepPoints(0, 10, 5, 'linear')] builds the three new points and then
    raises ValueError at [self[:] = new[:]], three values not fitting five
    places; the sequence keeps its five points. *)
Theorem regen_points_change_raises :
  ∃ self,
    SweepPoints.new (VFloat 0) (VFloat 10) (VInt 5) (VStr "linear") = Ok self ∧
    length (SweepPoints.data self) = 5%nat ∧
    SweepPoints.regen [("points", VInt 3)] self = (Raise ValueError, self).
Proof.
  destruct (new_linear_shape 0 10 5 ltac:(lia))
    as (pts & Hnew & Hlen & Hfirst & Hlast).
  destruct (new_linear_shape 0 10 3 ltac:(lia))
    as (pts3 & Hnew3 & Hlen3 & _ & _).
  exists (SweepPoints.mk pts "linear"). split_and!; [done|done|].
  rewrite (regen_run [("points", VInt 3)] (SweepPoints.mk pts "linear")
             (SweepPoints.mk pts3 "linear")
             0 10 (VFloat 0) (VFloat 10) (VInt 3) (VStr "linear")
             Hfirst Hlast eq_refl Hnew3 _ eq_refl).
  simpl. unfold assign_slice. rewrite decide_False by (rewrite Hlen, Hlen3; lia).
  destruct pts3 as [|x [|y pts3]]; [done|discriminate Hlen3|done].
Qed.

(** [regen(end=20)] on the points of [SweepPoints(0, 10, 5, 'linear')]: the
    same five places now run from 0 to 20, and the scale is kept. *)
Lemma regen_end_20 :
  ∃ self self',
    SweepPoints.new (VFloat 0) (VFloat 10) (VInt 5) (VStr "linear") = Ok self ∧
    SweepPoints.regen [("end", VInt 20)] self = (Ok tt, self') ∧
    length (SweepPoints.data self') = 5%nat ∧
    SweepPoints.data self' !! 0%nat = Some 0 ∧
    last (SweepPoints.data self') = Some 20 ∧
    SweepPoints.scale self' = "linear".
Proof.
  destruct (new_linear_shape 0 10 5 ltac:(lia))
    as (pts & Hnew & Hlen & Hfirst & Hlast).
  destruct (linspace_points 0 20 5 ltac:(lia)) as (pts' & Hpts' & Hlen' & Hk').
  assert (Hnew' : SweepPoints.new (VFloat 0) (VInt 20) (VInt 5) (VStr "linear")
                  = Ok (SweepPoints.mk pts' "linear")).
  { unfold SweepPoints.new. rewrite decide_True by auto.
    change (linspace (VFloat 0) (VInt 20) (VInt 5))
      with (linspace (VFloat 0) (VFloat 20) (VInt 5)).
    by rewrite Hpts'. }
  exists (SweepPoints.mk pts "linear"), (SweepPoints.mk pts' "linear").
  split; [done|]. split.
  - assert (Hkw : SweepPoints.regen_kwargs [("end", VInt 20)] (VFloat 0) (VFloat 10)
                     (VInt (Z.of_nat (length pts))) (VStr "linear")
                   = Ok (VFloat 0, VInt 20, VInt 5, VStr "linear")).
    { simpl. by rewrite Hlen. }
    rewrite (regen_run [("end", VInt 20)] (SweepPoints.mk pts "linear")
               (SweepPoints.mk pts' "linear")
               0 10 (VFloat 0) (VInt 20) (VInt 5) (VStr "linear")
               Hfirst Hlast Hkw Hnew' _ eq_refl).
    simpl. unfold assign_slice. by rewrite decide_True by (by rewrite Hlen, Hlen').
  - simpl. split_and!; [done| | |done].
    + rewrite Hk' by lia. rewrite decide_False by lia. simpl. f_equal. lra.
    + rewrite last_lookup, Hlen'. rewrite Hk' by lia. by rewrite decide_True by lia.
Qed.

(** A keyword that is none of [start], [end], [points], [scale] makes
    [regen] raise ValueError and leaves the sequence as it was. *)
Lemma regen_unknown_key (key : string) (item : value) (kwargs : dict value)
    (self : SweepPoints.t) (first final : R) :
  SweepPoints.data self !! 0%nat = Some first →
  last (SweepPoints.data self) = Some final →
  key ≠ "start" → key ≠ "end" → key ≠ "points" → key ≠ "scale" →
  SweepPoints.regen ((key, item) :: kwargs) self = (Raise ValueError, self).
Proof.
  intros Hfirst Hlast H1 H2 H3 H4. unfold SweepPoints.regen.
  rewrite bind_run. unfold get at 1.
  rewrite bind_run. unfold lift at 1, SweepPoints.item at 1. rewrite Hfirst.
  rewrite bind_run. unfold lift at 1, SweepPoints.item at 1.
  rewrite last_lookup in Hlast. rewrite <- Nat.sub_1_r in Hlast. rewrite Hlast.
  rewrite bind_run. unfold lift at 1. simpl.
  by rewrite !decide_False by done.
Qed.

End SweepPointsFacts.

(** *** The points in doubles *)

Section LinearPointsFloat64.
Import PrimFloat SpecFloat FloatOps FloatAxioms.
Local Open Scope float_scope.






End LinearPointsFloat64.

Section LinearPointsFloat64Examples.
Import PrimFloat.
Local Open Scope float_scope.



End LinearPointsFloat64Examples.

(** ** The instruments and the sweeps *)

Section Sweeps.
Context `{Numpy}.

Lemma init_2400_run (address : string) (max_current : R) (measurements : Z)
    (soak nplc : R) (azero : bool) (w : list event) :
  Keithley2400.init address max_current measurements soak nplc azero w
  = (Ok (Keithley2400.mk address),
     (init_2400 address max_current measurements soak nplc azero ++ w)%list).
Proof. reflexivity. Qed.

Lemma init_6485_run (address : string) (measurements : Z) (soak nplc : R)
    (azero : bool) (w : list event) :
  Keithley6485.init address measurements soak nplc azero w
  = (Ok (Keithley6485.mk address soak),
     (init_6485 address measurements nplc azero ++ w)%list).
Proof. reflexivity. Qed.

Lemma source_delay_init_2400 (a address : string) (max_current : R)
    (measurements : Z) (soak nplc : R) (azero : bool) (w : list event) :
  source_delay a (init_2400 address max_current measurements soak nplc azero ++ w)
  = if decide (address = a) then Some soak else source_delay a w.
Proof. reflexivity. Qed.

Lemma source_delay_init_6485 (a address : string) (measurements : Z)
    (nplc : R) (azero : bool) (w : list event) :
  source_delay a (init_6485 address measurements nplc azero ++ w)
  = source_delay a w.
Proof. reflexivity. Qed.

Lemma Sweep_init_run (address : string) (start end_ : R) (measurements : Z)
    (max_current : R) (samples : Z) (nplc soak : R) (azero : bool)
    (scale : string) (w : list event) (sw : Sweep.t) (w' : list event) :
  Sweep.init address start end_ measurements max_current samples nplc soak azero
    scale w = (Ok sw, w') →
  ∃ voltages,
    SweepPoints.new (VFloat start) (VFloat end_) (VInt measurements) (VStr scale)
    = Ok voltages ∧
    sw = Sweep.mk (soak_table soak (negb azero)) (Keithley2400.mk address) voltages
           (empty_frame (Z.to_nat measurements) record_columns) None ∧
    w' = (init_2400 address max_current samples (soak_table soak azero) nplc azero
            ++ w)%list.
Proof.
  unfold Sweep.init. rewrite bind_run, init_2400_run. rewrite bind_run.
  unfold lift at 1.
  destruct (SweepPoints.new _ _ _ _) as [voltages|e]; [|done].
  intros [= <- <-]. by exists voltages.
Qed.

Lemma DualSweep_init_run (primary_address secondary_address : string)
    (primary_start primary_end : R) (primary_measurements : Z)
    (secondary_start secondary_end : R) (secondary_measurements : Z)
    (primary_max_current secondary_max_current : R) (samples : Z)
    (nplc soak : R) (azero : bool) (primary_scale secondary_scale : string)
    (w : list event) (ds : DualSweep.t) (w' : list event) :
  DualSweep.init primary_address secondary_address primary_start primary_end
    primary_measurements secondary_start secondary_end secondary_measurements
    primary_max_current secondary_max_current samples nplc soak azero
    primary_scale secondary_scale w = (Ok ds, w') →
  ∃ pv sv,
    SweepPoints.new (VFloat primary_start) (VFloat primary_end)
      (VInt primary_measurements) (VStr primary_scale) = Ok pv ∧
    SweepPoints.new (VFloat secondary_start) (VFloat secondary_end)
      (VInt secondary_measurements) (VStr secondary_scale) = Ok sv ∧
    ds = DualSweep.mk (soak_table soak (negb azero))
           (Keithley2400.mk primary_address) (Keithley2400.mk secondary_address)
           pv sv
           (empty_frame (Z.to_nat (primary_measurements * secondary_measurements))
              record_columns)
           (empty_frame (Z.to_nat (primary_measurements * secondary_measurements))
              record_columns)
           None ∧
    w' = (init_2400 secondary_address secondary_max_current samples
            (soak_table soak azero) nplc azero
          ++ init_2400 primary_address primary_max_current samples
               (soak_table soak azero) nplc azero ++ w)%list.
Proof.
  unfold DualSweep.init. rewrite bind_run, init_2400_run.
  rewrite bind_run, init_2400_run. rewrite bind_run. unfold lift at 1.
  destruct (SweepPoints.new _ _ _ _) as [pv|e]; [|done].
  rewrite bind_run. unfold lift at 1.
  destruct (SweepPoints.new _ _ _ _) as [sv|e]; [|done].
  intros [= <- <-]. by exists pv, sv.
Qed.

Lemma Sweep_init_linear (address : string) (start end_ : R) (measurements : Z)
    (max_current : R) (samples : Z) (nplc soak : R) (azero : bool)
    (w : list event) :
  (2 ≤ measurements)%Z →
  ∃ pts,
    Sweep.init address start end_ measurements max_current samples nplc soak azero
      "linear" w
    = (Ok (Sweep.mk (soak_table soak (negb azero)) (Keithley2400.mk address)
             (SweepPoints.mk pts "linear")
             (empty_frame (Z.to_nat measurements) record_columns) None),
       (init_2400 address max_current samples (soak_table soak azero) nplc azero
          ++ w)%list) ∧
    length pts = Z.to_nat measurements.
Proof.
  intros Hm.
  destruct (new_linear_shape start end_ measurements Hm) as (pts & Hnew & Hlen & _).
  exists pts. split; [|done].
  unfold Sweep.init. rewrite bind_run, init_2400_run, bind_run.
  unfold lift at 1. rewrite Hnew. reflexivity.
Qed.

Lemma DualSweep_init_linear (pa sa : string) (ps pe : R) (pm : Z) (ss se : R)
    (sm : Z) (pmax smax : R) (samples : Z) (nplc soak : R) (azero : bool)
    (w : list event) :
  (2 ≤ pm)%Z → (2 ≤ sm)%Z →
  ∃ pv sv w',
    DualSweep.init pa sa ps pe pm ss se sm pmax smax samples nplc soak azero
      "linear" "linear" w
    = (Ok (DualSweep.mk (soak_table soak (negb azero))
             (Keithley2400.mk pa) (Keithley2400.mk sa)
             (SweepPoints.mk pv "linear") (SweepPoints.mk sv "linear")
             (empty_frame (Z.to_nat (pm * sm)) record_columns)
             (empty_frame (Z.to_nat (pm * sm)) record_columns) None), w') ∧
    length pv = Z.to_nat pm ∧ pv !! 0%nat = Some ps ∧ last pv = Some pe ∧
    length sv = Z.to_nat sm ∧ sv !! 0%nat = Some ss ∧ last sv = Some se.
Proof.
  intros Hpm Hsm.
  destruct (new_linear_shape ps pe pm Hpm) as (pv & Hpv & Hlp & Hfp & Hep).
  destruct (new_linear_shape ss se sm Hsm) as (sv & Hsv & Hls & Hfs & Hes).
  exists pv, sv. eexists. split; [|done].
  unfold DualSweep.init. rewrite bind_run, init_2400_run.
  rewrite bind_run, init_2400_run. rewrite bind_run. unfold lift at 1.
  rewrite Hpv. rewrite bind_run. unfold lift at 1. rewrite Hsv. reflexivity.
Qed.

End Sweeps.

(** ** The tables of a dual sweep *)

Section ResultTables.
Context {A : Type}.
Implicit Types df : DataFrame (option A).

Lemma sized_nrows N df : sized N df → nrows df = N.
Proof.
  intros (Hix & _). unfold nrows. rewrite Hix. simpl.
  by rewrite length_map, length_seq.
Qed.

Lemma sized_empty_frame (N : nat) : sized N (empty_frame (A := A) N record_columns).
Proof.
  split_and!; [done| |].
  - intros name Hname. exists (replicate N None).
    split; [|by rewrite length_replicate].
    unfold record_columns in Hname.
    repeat (apply elem_of_cons in Hname as [->|Hname]; [reflexivity|]).
    by apply elem_of_nil in Hname.
  - intros name col Hcol. unfold empty_frame in Hcol. cbn [columns] in Hcol.
    apply elem_of_list_to_map_2 in Hcol.
    apply list_elem_of_fmap in Hcol as (c & [= -> _] & Hc). done.
Qed.

Lemma iloc_set_sized (N row : nat) (record : dict A) df :
  sized N df → (row < N)%nat →
  ∃ df', iloc_set row record df = Ok df' ∧ sized N df' ∧
    (∀ name, name ∈ record_columns →
             row_at df' row name = Ok (dict_get name record)) ∧
    (∀ r name, r ≠ row → row_at df' r name = row_at df r name).
Proof.
  intros Hsized Hrow. pose proof (sized_nrows _ _ Hsized) as Hn.
  destruct Hsized as (Hix & Hcols & Hnames).
  unfold iloc_set. rewrite decide_True by lia. eexists. split; [done|].
  split_and!.
  - split_and!; [done| |].
    + intros name Hname. destruct (Hcols name Hname) as (col & Hcol & Hlen).
      eexists. simpl. rewrite map_lookup_imap, Hcol. simpl.
      split; [done|]. by rewrite length_insert.
    + intros name col. simpl. rewrite map_lookup_imap.
      destruct (columns df !! name) as [col0|] eqn:Hcol; [|done].
      intros _. by eapply Hnames.
  - intros name Hname. destruct (Hcols name Hname) as (col & Hcol & Hlen).
    unfold row_at. simpl. rewrite map_lookup_imap, Hcol. simpl.
    by rewrite list_lookup_insert_eq by lia.
  - intros r name Hr. unfold row_at. simpl. rewrite map_lookup_imap.
    destruct (columns df !! name) as [col|]; [|done]. simpl.
    by rewrite list_lookup_insert_ne by done.
Qed.

Lemma positions_labels (ix : Index) (k : nat) (v : R) :
  NoDup (labels ix) → labels ix !! k = Some v → positions v ix = [k].
Proof.
  intros Hnd Hk. unfold positions.
  apply filter_seq_unique; [by eapply lookup_lt_Some|done|].
  intros i _ Hi. by eapply NoDup_lookup.
Qed.

Lemma range_labels_NoDup (N : nat) : NoDup (labels (RangeIndex N)).
Proof.
  assert (Hinj : Inj (=) (=) INR) by (intros x y; apply INR_eq).
  simpl. apply (NoDup_fmap_2 INR), NoDup_seq.
Qed.

Lemma range_labels_lookup (N r : nat) :
  (r < N)%nat → labels (RangeIndex N) !! r = Some (INR r).
Proof. intros Hr. simpl. rewrite list_lookup_fmap, lookup_seq_lt by done. done. Qed.

(** On tables with the same default row labels, the alignment of [join] on
    the row labels keeps every column of the right table as it is. *)
Lemma aligned_column (N : nat) (col : list (option A)) :
  length col = N →
  map (fun label =>
         match positions label (RangeIndex N) with
         | i :: _ => mjoin (col !! i)
         | [] => None
         end) (labels (RangeIndex N)) = col.
Proof.
  intros Hlen. apply list_eq. intros r.
  destruct (decide (r < N)%nat) as [Hr|Hr].
  - rewrite list_lookup_fmap, (range_labels_lookup N r Hr). simpl.
    rewrite (positions_labels (RangeIndex N) r (INR r) (range_labels_NoDup N)
               (range_labels_lookup N r Hr)).
    destruct (lookup_lt_is_Some_2 col r ltac:(lia)) as [c Hc]. by rewrite Hc.
  - rewrite !lookup_ge_None_2; [done|lia|].
    rewrite length_map. simpl. rewrite length_map, length_seq. lia.
Qed.

Lemma not_prefixed (name c : string) :
  c ∈ record_columns → c ≠ "secondary " +:+ name.
Proof.
  unfold record_columns. intros Hc.
  repeat (apply elem_of_cons in Hc as [->|Hc]; [discriminate|]).
  by apply elem_of_nil in Hc.
Qed.

Lemma join_sized (N : nat) (p s : DataFrame (option A)) :
  sized N p → sized N s →
  ∃ out, join p (add_prefix "secondary " s) = Ok out ∧
    (∀ r name, name ∈ record_columns →
       row_at out r name = row_at p r name ∧
       row_at out r ("secondary " +:+ name) = row_at s r name) ∧
    (∀ name, is_Some (columns out !! name) ↔
       name ∈ record_columns ∨
       ∃ c, c ∈ record_columns ∧ name = "secondary " +:+ c).
Proof.
  intros (Hpix & Hpcols & Hpnames) (Hsix & Hscols & Hsnames).
  unfold join, add_prefix. cbn [columns index]. rewrite Hpix, Hsix.
  assert (Hdisj : columns p ##ₘ kmap (String.append "secondary ") (columns s)).
  { apply map_disjoint_spec. intros name x y Hx Hy.
    apply lookup_kmap_Some in Hy as (c & -> & Hc); [|apply _].
    exact (not_prefixed c _ (Hpnames _ _ Hx) eq_refl). }
  rewrite decide_True by done. eexists. split; [done|].
  set (right := _ <$> kmap _ _).
  assert (Hright : ∀ c, right !! ("secondary " +:+ c) = columns s !! c).
  { intros c. unfold right. rewrite lookup_fmap, lookup_kmap by apply _.
    destruct (columns s !! c) as [col|] eqn:Hc; [|done]. simpl.
    f_equal. apply aligned_column.
    destruct (Hscols c (Hsnames _ _ Hc)) as (col' & Hc' & Hlen). congruence. }
  assert (Hleft : ∀ c, c ∈ record_columns → right !! c = None).
  { intros c Hc. unfold right. rewrite lookup_fmap.
    destruct (kmap _ _ !! c) as [col|] eqn:Hk; [|done].
    apply lookup_kmap_Some in Hk as (c' & -> & _); [|apply _].
    destruct (not_prefixed c' _ Hc eq_refl). }
  split.
  - intros r name Hname. unfold row_at. cbn [columns]. split.
    + destruct (Hpcols name Hname) as (col & Hcol & _).
      by rewrite (lookup_union_Some_l _ _ _ _ Hcol), Hcol.
    + rewrite lookup_union_r, Hright; [done|].
      destruct (columns p !! _) as [col|] eqn:Hcol; [|done].
      destruct (not_prefixed name _ (Hpnames _ _ Hcol) eq_refl).
  - intros name. cbn [columns]. rewrite lookup_union_is_Some. split.
    + intros [[col Hcol]|[col Hcol]]; [left; by eapply Hpnames|right].
      unfold right in Hcol. rewrite lookup_fmap in Hcol.
      destruct (kmap _ _ !! name) as [col'|] eqn:Hk; [|done].
      apply lookup_kmap_Some in Hk as (c & -> & Hc); [|apply _].
      exists c. split; [by eapply Hsnames|done].
    + intros [Hname|(c & Hc & ->)].
      * left. destruct (Hpcols name Hname) as (col & Hcol & _). by eexists.
      * right. rewrite Hright. destruct (Hscols c Hc) as (col & Hcol & _).
        by eexists.
Qed.

End ResultTables.

(** ** A dual sweep, step by step *)

Lemma replicate_shift {A} (n : nat) (x : A) (l : list A) :
  (replicate n x ++ x :: l)%list = x :: (replicate n x ++ l)%list.
Proof. induction n as [|n IH]; simpl; [done|]. by rewrite IH. Qed.

Section DualSweepRun.
Context `{Instruments}.

Lemma measure_2400_run (k : Keithley2400.t) (w : list event) :
  ∃ f, Keithley2400.measure k w
       = (Ok f, (measure_events (Keithley2400.meter k) ++ w)%list).
Proof.
  unfold Keithley2400.measure. simpl.
  unfold mbind, M_bind, bind, Keithley2400.write, emit, Keithley2400.query. simpl.
  destruct (calc3_data_2400 _ _) as [vm cm]. simpl.
  destruct (calc3_data_2400 _ _) as [vs cs]. simpl.
  eexists. reflexivity.
Qed.

Lemma source_level_measure (a b : string) (w : list event) :
  source_level a (measure_events b ++ w) = source_level a w.
Proof. reflexivity. Qed.

Lemma initiated_measure (a b : string) (w : list event) :
  initiated a (measure_events b ++ w)
  = if decide (b = a) then S (initiated a w) else initiated a w.
Proof. reflexivity. Qed.

Lemma io_run {O A} (m : M (list event) A) (o : O) (w : list event) :
  io m (o, w) = let '(r, w') := m w in (r, (o, w')).
Proof. reflexivity. Qed.

Lemma sleep_run (d : R) (w : list event) :
  0 <= d → sleep d w = (Ok tt, Slept d :: w).
Proof. intros Hd. unfold sleep. rewrite decide_False by lra. done. Qed.

(** *** A single sweep *)

Lemma sweep_measure_step (sw : Sweep.t) (df : DataFrame (option R))
    (w : list event) (i N : nat) :
  let sm := Sweep.sourcemeter sw in
  Sweep.ammeter sw = None → sized N df → (i < N)%nat →
  ∃ f df',
    Keithley2400.measure sm w
    = (Ok f, (measure_events (Keithley2400.meter sm) ++ w)%list) ∧
    sized N df' ∧
    (∀ name, name ∈ record_columns → row_at df' i name = Ok (dict_get name f)) ∧
    (∀ r name, r ≠ i → row_at df' r name = row_at df r name) ∧
    Sweep.self_measure i (with_df sw df, w)
    = (Ok tt, (with_df sw df', (measure_events (Keithley2400.meter sm) ++ w)%list)).
Proof.
  intros sm Ham Hdf Hi.
  destruct (measure_2400_run sm w) as [f Hf].
  destruct (iloc_set_sized N i f df Hdf Hi) as (df' & Hset & Hdf' & Hrow & Hrest).
  exists f, df'. split_and!; [done..|].
  unfold Sweep.self_measure. rewrite bind_run. unfold this at 1.
  cbn [fst Sweep.ammeter with_df]. rewrite Ham.
  unfold Sweep.measure. rewrite bind_run. unfold this at 1. cbn [fst].
  rewrite bind_run, io_run.
  change (Sweep.sourcemeter (with_df sw df)) with sm. rewrite Hf.
  rewrite bind_run. unfold lift at 1.
  change (Sweep.df (with_df sw df)) with df. rewrite Hset. reflexivity.
Qed.

(** The loop of [Sweep.execute], from index [i0] on: it sleeps the sweep's
    [soak] once per step, and the measurement taken at a step, after that
    sleep and with the instrument set to the step's voltage, is in the row
    of the step. *)
Lemma sweep_loop (sw : Sweep.t) (N : nat) :
  let sm := Sweep.sourcemeter sw in
  Sweep.ammeter sw = None →
  0 <= Sweep.soak sw →
  ∀ rest i0 df w,
    (i0 + length rest ≤ N)%nat → sized N df →
    ∃ df' w',
      for_enumerate (fun i voltage =>
          _ ← io (Keithley2400.set_target_voltage sm voltage);
          _ ← io (sleep (Sweep.soak sw));
          Sweep.self_measure i)
        i0 rest (with_df sw df, w)
      = (Ok tt, (with_df sw df', w')) ∧
      sized N df' ∧
      sleeps w' = (replicate (length rest) (Sweep.soak sw) ++ sleeps w)%list ∧
      (∀ k v, rest !! k = Some v →
         ∃ past f hist1,
           let hist := Slept (Sweep.soak sw) :: past in
           source_level (Keithley2400.meter sm) hist = Some v ∧
           Keithley2400.measure sm hist = (Ok f, hist1) ∧
           ∀ name, name ∈ record_columns →
             row_at df' (i0 + k) name = Ok (dict_get name f)) ∧
      (∀ r name, (r < i0)%nat → row_at df' r name = row_at df r name).
Proof.
  intros sm Ham Hsoak rest.
  induction rest as [|v rest IH]; intros i0 df w Hi0 Hdf.
  { exists df, w. split_and!; [done..| |done].
    intros k v Hk. by rewrite lookup_nil in Hk. }
  simpl in Hi0.
  set (hist := Slept (Sweep.soak sw)
               :: Sent (Keithley2400.meter sm) (SourceVoltageLevel v) :: w).
  destruct (sweep_measure_step sw df hist i0 N Ham Hdf ltac:(lia))
    as (f & df1 & Hf & Hdf1 & Hrow & Hrest & Hstep).
  fold sm in Hf, Hstep.
  destruct (IH (S i0) df1 (measure_events (Keithley2400.meter sm) ++ hist)%list
              ltac:(lia) Hdf1)
    as (df' & w' & Hloop & Hdf' & Hsl & Hrec & Hframe).
  exists df', w'. split_and!; [|done| | |].
  - cbn [for_enumerate]. unfold Py.bind at 1.
    rewrite bind_run, io_run. cbn [Keithley2400.set_target_voltage
      Keithley2400.write emit].
    rewrite bind_run, io_run, sleep_run by done. fold hist.
    rewrite Hstep. exact Hloop.
  - rewrite Hsl. simpl. apply replicate_shift.
  - intros k v' Hk. destruct k as [|k]; simpl in Hk.
    + injection Hk as <-. rewrite Nat.add_0_r.
      exists (Sent (Keithley2400.meter sm) (SourceVoltageLevel v) :: w), f,
        (measure_events (Keithley2400.meter sm) ++ hist)%list.
      split_and!; [|exact Hf|].
      * simpl. by rewrite decide_True by done.
      * intros name Hname. rewrite Hframe by lia. by apply Hrow.
    + replace (i0 + S k)%nat with (S i0 + k)%nat by lia. by apply Hrec.
  - intros r name Hr. rewrite Hframe by lia. apply Hrest. lia.
Qed.

Lemma with_df_self (sw : Sweep.t) : with_df sw (Sweep.df sw) = sw.
Proof. by destruct sw. Qed.

(** [execute] on a [Sweep], in full. *)
Lemma sweep_execute_run (sw : Sweep.t) (w : list event) (N : nat) :
  let sm := Sweep.sourcemeter sw in
  let voltages := SweepPoints.data (Sweep.voltages sw) in
  Sweep.ammeter sw = None →
  0 <= Sweep.soak sw →
  sized N (Sweep.df sw) → (length voltages ≤ N)%nat →
  ∃ out sw' w',
    Sweep.execute (sw, w) = (Ok out, (sw', w')) ∧
    sleeps w' = (replicate (length voltages) (Sweep.soak sw) ++ sleeps w)%list ∧
    ∀ i v, voltages !! i = Some v →
      ∃ past f hist1,
        let hist := Slept (Sweep.soak sw) :: past in
        source_level (Keithley2400.meter sm) hist = Some v ∧
        Keithley2400.measure sm hist = (Ok f, hist1) ∧
        ∀ name, name ∈ record_columns → row_at out i name = Ok (dict_get name f).
Proof.
  intros sm voltages Ham Hsoak Hdf Hlen.
  set (wb := Sent (Keithley2400.meter sm) (Output true)
             :: Sent (Keithley2400.meter sm) (SystemBeeper 1000 1) :: w).
  destruct (sweep_loop sw N Ham Hsoak voltages 0%nat (Sweep.df sw) wb
              ltac:(simpl; lia) Hdf)
    as (df' & w' & Hloop & Hdf' & Hsl & Hrec & _).
  fold sm in Hloop. rewrite with_df_self in Hloop.
  exists df', (with_df sw df'),
    (Sent (Keithley2400.meter sm) (Output false)
     :: Sent (Keithley2400.meter sm) (SourceVoltageLevel 0) :: w').
  split_and!; [|cbn [sleeps]; rewrite Hsl; reflexivity|exact Hrec].
  unfold Sweep.execute. rewrite bind_run. unfold this at 1. cbn [fst].
  fold sm voltages.
  do 2 (rewrite bind_run, io_run;
        cbn [Keithley2400.beep Keithley2400.set_output_enabled
             Keithley2400.write emit]).
  fold wb. rewrite bind_run, Hloop.
  do 2 (rewrite bind_run, io_run;
        cbn [Keithley2400.set_target_voltage Keithley2400.set_output_enabled
             Keithley2400.write emit]).
  reflexivity.
Qed.

(** *** A dual sweep *)

Lemma measure_step (ds : DualSweep.t) (p s : DataFrame (option R))
    (w : list event) (i j N : nat) :
  let pm := DualSweep.primary_sourcemeter ds in
  let sm := DualSweep.secondary_sourcemeter ds in
  let row := (i * length (SweepPoints.data (DualSweep.secondary_voltages ds)) + j)%nat in
  DualSweep.ammeter ds = None →
  sized N p → sized N s → (row < N)%nat →
  ∃ f1 w1 f2 p' s',
    Keithley2400.measure pm w = (Ok f1, w1) ∧
    w1 = (measure_events (Keithley2400.meter pm) ++ w)%list ∧
    Keithley2400.measure sm w1
    = (Ok f2, (measure_events (Keithley2400.meter sm) ++ w1)%list) ∧
    sized N p' ∧ sized N s' ∧
    (∀ name, name ∈ record_columns →
       row_at p' row name = Ok (dict_get name f1) ∧
       row_at s' row name = Ok (dict_get name f2)) ∧
    (∀ r name, r ≠ row →
       row_at p' r name = row_at p r name ∧ row_at s' r name = row_at s r name) ∧
    DualSweep.self_measure i j (with_dfs ds p s, w)
    = (Ok tt, (with_dfs ds p' s',
               (measure_events (Keithley2400.meter sm) ++ w1)%list)).
Proof.
  intros pm sm row Ham Hp Hs Hrow.
  destruct (measure_2400_run pm w) as [f1 Hf1].
  destruct (measure_2400_run sm (measure_events (Keithley2400.meter pm) ++ w)%list)
    as [f2 Hf2].
  destruct (iloc_set_sized N row f1 p Hp Hrow) as (p' & Hp' & Hsp' & Hrowp & Hrestp).
  destruct (iloc_set_sized N row f2 s Hs Hrow) as (s' & Hs' & Hss' & Hrows & Hrests).
  exists f1, (measure_events (Keithley2400.meter pm) ++ w)%list, f2, p', s'.
  split_and!; [done..| | |].
  - intros name Hname. split; [by apply Hrowp|by apply Hrows].
  - intros r name Hr. split; [by apply Hrestp|by apply Hrests].
  - unfold DualSweep.self_measure. rewrite bind_run. unfold this at 1.
    cbn [fst DualSweep.ammeter with_dfs]. rewrite Ham.
    unfold DualSweep.measure. rewrite bind_run. unfold this at 1. cbn [fst].
    rewrite bind_run, io_run.
    change (DualSweep.primary_sourcemeter (with_dfs ds p s)) with pm.
    rewrite Hf1. rewrite bind_run, io_run.
    change (DualSweep.secondary_sourcemeter (with_dfs ds p s)) with sm.
    rewrite Hf2. rewrite bind_run. unfold lift at 1.
    change (DualSweep.primary_df (with_dfs ds p s)) with p.
    change (DualSweep.secondary_voltages (with_dfs ds p s))
      with (DualSweep.secondary_voltages ds).
    fold row. rewrite Hp'. rewrite bind_run. unfold update at 1.
    cbn [fst snd]. rewrite bind_run. unfold lift at 1.
    change (DualSweep.secondary_df (with_dfs ds p s)) with s.
    rewrite Hs'. reflexivity.
Qed.

Lemma recorded_stable (ds : DualSweep.t) (w0 : list event) (i j : nat)
    (pv sv : R) (p s p' s' : DataFrame (option R)) :
  (∀ name,
     row_at p' (i * length (SweepPoints.data (DualSweep.secondary_voltages ds)) + j)
       name
     = row_at p (i * length (SweepPoints.data (DualSweep.secondary_voltages ds)) + j)
         name ∧
     row_at s' (i * length (SweepPoints.data (DualSweep.secondary_voltages ds)) + j)
       name
     = row_at s (i * length (SweepPoints.data (DualSweep.secondary_voltages ds)) + j)
         name) →
  recorded ds w0 i j pv sv p s → recorded ds w0 i j pv sv p' s'.
Proof.
  intros Hsame (past & f1 & hist1 & f2 & hist2 & Hpv & Hsv & Hini & Hm1 & Hm2 & Hrow).
  exists past, f1, hist1, f2, hist2. split_and!; [done..|].
  intros name Hname. destruct (Hsame name) as [-> ->]. by apply Hrow.
Qed.

(** The inner loop of [execute], from secondary index [j0] on. *)
Lemma inner_loop (ds : DualSweep.t) (w0 : list event) (i N : nat) (pv : R) :
  let pm := DualSweep.primary_sourcemeter ds in
  let sm := DualSweep.secondary_sourcemeter ds in
  let n := length (SweepPoints.data (DualSweep.secondary_voltages ds)) in
  DualSweep.ammeter ds = None →
  0 <= DualSweep.soak ds →
  Keithley2400.meter pm ≠ Keithley2400.meter sm →
  (i * n + n ≤ N)%nat →
  ∀ rest j0 p s w,
    (j0 + length rest = n)%nat →
    sized N p → sized N s →
    source_level (Keithley2400.meter pm) w = Some pv →
    initiated (Keithley2400.meter pm) w
    = (initiated (Keithley2400.meter pm) w0 + (i * n + j0))%nat →
    ∃ p' s' w',
      for_enumerate (fun j sv =>
          _ ← io (Keithley2400.set_target_voltage sm sv);
          _ ← io (sleep (DualSweep.soak ds));
          DualSweep.self_measure i j)
        j0 rest (with_dfs ds p s, w)
      = (Ok tt, (with_dfs ds p' s', w')) ∧
      sized N p' ∧ sized N s' ∧
      source_level (Keithley2400.meter pm) w' = Some pv ∧
      initiated (Keithley2400.meter pm) w'
      = (initiated (Keithley2400.meter pm) w0 + (i * n + n))%nat ∧
      sleeps w' = (replicate (length rest) (DualSweep.soak ds) ++ sleeps w)%list ∧
      (∀ k sv, rest !! k = Some sv → recorded ds w0 i (j0 + k) pv sv p' s') ∧
      (∀ r name, (r < i * n + j0 ∨ i * n + n ≤ r)%nat →
         row_at p' r name = row_at p r name ∧ row_at s' r name = row_at s r name).
Proof.
  intros pm sm n Ham Hsoak Hneq HN rest.
  induction rest as [|sv rest IH]; intros j0 p s w Hj0 Hp Hs Hlevel Hini.
  { simpl in Hj0. exists p, s, w. split_and!; [done|done|done|done| |done| |done].
    - rewrite Hini. f_equal. lia.
    - intros k sv' Hk. by rewrite lookup_nil in Hk. }
  simpl in Hj0.
  set (hist := Slept (DualSweep.soak ds)
               :: Sent (Keithley2400.meter sm) (SourceVoltageLevel sv) :: w).
  destruct (measure_step ds p s hist i j0 N Ham Hp Hs ltac:(fold n; lia))
    as (f1 & w1 & f2 & p1 & s1 & Hm1 & Hw1 & Hm2 & Hp1 & Hs1 & Hrow & Hrest & Hstep).
  fold n pm sm in Hm1, Hw1, Hm2, Hrow, Hrest, Hstep.
  set (w2 := (measure_events (Keithley2400.meter sm) ++ w1)%list) in *.
  assert (Hlevel_hist : source_level (Keithley2400.meter pm) hist = Some pv).
  { unfold hist. simpl. by rewrite decide_False by done. }
  assert (Hini_hist : initiated (Keithley2400.meter pm) hist
                      = initiated (Keithley2400.meter pm) w) by done.
  assert (Hlevel2 : source_level (Keithley2400.meter pm) w2 = Some pv).
  { unfold w2. rewrite source_level_measure, Hw1, source_level_measure. done. }
  assert (Hini2 : initiated (Keithley2400.meter pm) w2
                  = (initiated (Keithley2400.meter pm) w0 + (i * n + S j0))%nat).
  { unfold w2. rewrite initiated_measure, Hw1, initiated_measure.
    rewrite decide_False by done. rewrite decide_True by done.
    rewrite Hini_hist, Hini. lia. }
  destruct (IH (S j0) p1 s1 w2 ltac:(lia) Hp1 Hs1 Hlevel2 Hini2)
    as (p' & s' & w' & Hloop & Hp' & Hs' & Hlevel' & Hini' & Hsl & Hrec & Hframe).
  exists p', s', w'. split_and!; [|done..| | |].
  - cbn [for_enumerate]. unfold Py.bind at 1.
    rewrite bind_run, io_run. cbn [Keithley2400.set_target_voltage
      Keithley2400.write emit].
    rewrite bind_run, io_run, sleep_run by done. fold hist.
    rewrite Hstep. exact Hloop.
  - rewrite Hsl. unfold w2. rewrite Hw1. simpl. apply replicate_shift.
  - intros k sv' Hk. destruct k as [|k]; simpl in Hk.
    + injection Hk as <-. rewrite Nat.add_0_r.
      apply (recorded_stable ds w0 i j0 pv sv p1 s1).
      { intros name. fold n. apply Hframe. lia. }
      exists (Sent (Keithley2400.meter sm) (SourceVoltageLevel sv) :: w),
        f1, w1, f2, w2.
      fold n pm sm hist. split_and!; [done| |by rewrite Hini_hist|done|done|done].
      unfold hist. simpl. by rewrite decide_True by done.
    + replace (j0 + S k)%nat with (S j0 + k)%nat by lia. by apply Hrec.
  - intros r name Hr.
    destruct (Hframe r name ltac:(lia)) as [-> ->]. apply Hrest. lia.
Qed.

(** The outer loop of [execute], from primary index [i0] on. *)
Lemma outer_loop (ds : DualSweep.t) (w0 : list event) (N : nat) :
  let pm := DualSweep.primary_sourcemeter ds in
  let sm := DualSweep.secondary_sourcemeter ds in
  let svs := SweepPoints.data (DualSweep.secondary_voltages ds) in
  let n := length svs in
  let m := length (SweepPoints.data (DualSweep.primary_voltages ds)) in
  DualSweep.ammeter ds = None →
  0 <= DualSweep.soak ds →
  Keithley2400.meter pm ≠ Keithley2400.meter sm →
  N = (m * n)%nat →
  ∀ rest i0 p s w,
    (i0 + length rest = m)%nat →
    sized N p → sized N s →
    initiated (Keithley2400.meter pm) w
    = (initiated (Keithley2400.meter pm) w0 + i0 * n)%nat →
    ∃ p' s' w',
      for_enumerate (fun i pv =>
          _ ← io (Keithley2400.set_target_voltage pm pv);
          for_enumerate (fun j sv =>
              _ ← io (Keithley2400.set_target_voltage sm sv);
              _ ← io (sleep (DualSweep.soak ds));
              DualSweep.self_measure i j)
            0 svs)
        i0 rest (with_dfs ds p s, w)
      = (Ok tt, (with_dfs ds p' s', w')) ∧
      sized N p' ∧ sized N s' ∧
      sleeps w' = (replicate (length rest * n) (DualSweep.soak ds) ++ sleeps w)%list ∧
      (∀ k pv j sv, rest !! k = Some pv → svs !! j = Some sv →
         recorded ds w0 (i0 + k) j pv sv p' s') ∧
      (∀ r name, (r < i0 * n)%nat →
         row_at p' r name = row_at p r name ∧ row_at s' r name = row_at s r name).
Proof.
  intros pm sm svs n m Ham Hsoak Hneq HN rest.
  induction rest as [|pv rest IH]; intros i0 p s w Hi0 Hp Hs Hini.
  { exists p, s, w. split_and!; [done..| |done].
    intros k pv j sv Hk. by rewrite lookup_nil in Hk. }
  simpl in Hi0.
  set (wa := Sent (Keithley2400.meter pm) (SourceVoltageLevel pv) :: w).
  assert (Hlevel : source_level (Keithley2400.meter pm) wa = Some pv).
  { unfold wa. simpl. by rewrite decide_True by done. }
  assert (Hinia : initiated (Keithley2400.meter pm) wa
                  = (initiated (Keithley2400.meter pm) w0 + (i0 * n + 0))%nat).
  { unfold wa. simpl. rewrite Hini. lia. }
  assert (HiN : (i0 * n + n ≤ N)%nat).
  { rewrite HN. replace (i0 * n + n)%nat with (S i0 * n)%nat by lia.
    apply Nat.mul_le_mono_r. lia. }
  destruct (inner_loop ds w0 i0 N pv Ham Hsoak Hneq HiN
              svs 0%nat p s wa ltac:(done) Hp Hs Hlevel Hinia)
    as (p1 & s1 & w1 & Hinner & Hp1 & Hs1 & _ & Hini1 & Hsl1 & Hrec1 & Hframe1).
  fold n pm sm svs in Hinner, Hini1, Hsl1, Hrec1, Hframe1.
  destruct (IH (S i0) p1 s1 w1 ltac:(lia) Hp1 Hs1
              ltac:(rewrite Hini1; lia))
    as (p' & s' & w' & Hloop & Hp' & Hs' & Hsl & Hrec & Hframe).
  exists p', s', w'. split_and!; [|done|done| | |].
  - cbn [for_enumerate]. unfold Py.bind at 1.
    rewrite bind_run, io_run. cbn [Keithley2400.set_target_voltage
      Keithley2400.write emit]. fold wa.
    rewrite Hinner. exact Hloop.
  - rewrite Hsl, Hsl1. unfold wa. cbn [sleeps length].
    rewrite (assoc_L (++)), <- replicate_add. f_equal. f_equal. lia.
  - intros k pv' j sv Hk Hj. destruct k as [|k]; simpl in Hk.
    + injection Hk as <-. rewrite Nat.add_0_r.
      apply (recorded_stable ds w0 i0 j pv sv p1 s1).
      { intros name. fold svs n. apply Hframe.
        apply lookup_lt_Some in Hj. fold n in Hj. lia. }
      by apply (Hrec1 j sv).
    + replace (i0 + S k)%nat with (S i0 + k)%nat by lia. by eapply Hrec.
  - intros r name Hr.
    destruct (Hframe r name ltac:(lia)) as [-> ->]. apply Hframe1. lia.
Qed.

Lemma with_dfs_self (ds : DualSweep.t) :
  with_dfs ds (DualSweep.primary_df ds) (DualSweep.secondary_df ds) = ds.
Proof. by destruct ds. Qed.

(** [execute] on a [DualSweep], in full: what it returns, what it sleeps,
    and where every measurement goes. *)
Lemma dual_execute_run (ds : DualSweep.t) (w : list event) :
  let pm := DualSweep.primary_sourcemeter ds in
  let sm := DualSweep.secondary_sourcemeter ds in
  let pvs := SweepPoints.data (DualSweep.primary_voltages ds) in
  let svs := SweepPoints.data (DualSweep.secondary_voltages ds) in
  let n := length svs in
  DualSweep.ammeter ds = None →
  0 <= DualSweep.soak ds →
  Keithley2400.meter pm ≠ Keithley2400.meter sm →
  sized (length pvs * n) (DualSweep.primary_df ds) →
  sized (length pvs * n) (DualSweep.secondary_df ds) →
  ∃ out ds' w',
    DualSweep.execute (ds, w) = (Ok out, (ds', w')) ∧
    sleeps w' = (replicate (length pvs * n) (DualSweep.soak ds) ++ sleeps w)%list ∧
    (∀ name, is_Some (columns out !! name) ↔
       name ∈ record_columns ∨
       ∃ c, c ∈ record_columns ∧ name = "secondary " +:+ c) ∧
    ∀ i j pv sv, pvs !! i = Some pv → svs !! j = Some sv →
      ∃ past f1 hist1 f2 hist2,
        let hist := Slept (DualSweep.soak ds) :: past in
        source_level (Keithley2400.meter pm) hist = Some pv ∧
        source_level (Keithley2400.meter sm) hist = Some sv ∧
        initiated (Keithley2400.meter pm) hist
        = (initiated (Keithley2400.meter pm) w + (i * n + j))%nat ∧
        Keithley2400.measure pm hist = (Ok f1, hist1) ∧
        Keithley2400.measure sm hist1 = (Ok f2, hist2) ∧
        ∀ name, name ∈ record_columns →
          row_at out (i * n + j) name = Ok (dict_get name f1) ∧
          row_at out (i * n + j) ("secondary " +:+ name) = Ok (dict_get name f2).
Proof.
  intros pm sm pvs svs n Ham Hsoak Hneq Hp Hs.
  set (wb := Sent (Keithley2400.meter sm) (Output true)
             :: Sent (Keithley2400.meter pm) (Output true)
             :: Sent (Keithley2400.meter sm) (SystemBeeper 2000 2)
             :: Sent (Keithley2400.meter pm) (SystemBeeper 1000 1) :: w).
  destruct (outer_loop ds w (length pvs * n) Ham Hsoak Hneq eq_refl
              pvs 0%nat (DualSweep.primary_df ds) (DualSweep.secondary_df ds) wb
              ltac:(done) Hp Hs ltac:(simpl; lia))
    as (p' & s' & w' & Hloop & Hp' & Hs' & Hsl & Hrec & _).
  fold pm sm svs n in Hloop.
  rewrite with_dfs_self in Hloop.
  destruct (join_sized _ p' s' Hp' Hs') as (out & Hjoin & Hrows & Hnames).
  exists out, (with_dfs ds p' s'),
    (Sent (Keithley2400.meter sm) (Output false)
     :: Sent (Keithley2400.meter sm) (SourceVoltageLevel 0)
     :: Sent (Keithley2400.meter pm) (Output false)
     :: Sent (Keithley2400.meter pm) (SourceVoltageLevel 0) :: w').
  split_and!; [|cbn [sleeps]; rewrite Hsl; reflexivity|exact Hnames|].
  - unfold DualSweep.execute. rewrite bind_run. unfold this at 1. cbn [fst].
    fold pm sm svs pvs.
    do 4 (rewrite bind_run, io_run;
          cbn [Keithley2400.beep Keithley2400.set_output_enabled
               Keithley2400.write emit]).
    fold wb. rewrite bind_run, Hloop.
    do 4 (rewrite bind_run, io_run;
          cbn [Keithley2400.set_target_voltage Keithley2400.set_output_enabled
               Keithley2400.write emit]).
    rewrite bind_run. unfold this at 1. cbn [fst with_dfs DualSweep.primary_df
      DualSweep.secondary_df]. unfold lift. rewrite Hjoin. reflexivity.
  - intros i j pv sv Hi Hj.
    destruct (Hrec i pv j sv Hi Hj)
      as (past & f1 & hist1 & f2 & hist2 & Hpv & Hsv & Hini & Hm1 & Hm2 & Hrow).
    exists past, f1, hist1, f2, hist2.
    split_and!; [exact Hpv|exact Hsv|exact Hini|exact Hm1|exact Hm2|].
    intros name Hname.
    destruct (Hrows (i * n + j)%nat name Hname) as [-> ->].
    exact (Hrow name Hname).
Qed.

(** C4: [execute] on a [DualSweep] with [m] primary and [n] secondary
    voltages (soak time not negative, two distinct instruments, result tables
    of [m * n] rows as [__init__] makes them) returns the join of the two
    tables: its columns are the four record columns and the same four with
    the prefix [secondary ], and its row [i * n + j] holds, unprefixed, the
    primary measurement and, prefixed, the secondary measurement taken at
    primary index [i] and secondary index [j], that is after the soak sleep
    of that step, with the primary instrument set to the [i]-th primary
    voltage, the secondary one to the [j]-th secondary voltage, and
    [i * n + j] acquisitions started before on the primary instrument. *)
Theorem dual_sweep_rows (ds : DualSweep.t) (w : list event) :
  let pm := DualSweep.primary_sourcemeter ds in
  let sm := DualSweep.secondary_sourcemeter ds in
  let pvs := SweepPoints.data (DualSweep.primary_voltages ds) in
  let svs := SweepPoints.data (DualSweep.secondary_voltages ds) in
  let n := length svs in
  DualSweep.ammeter ds = None →
  0 <= DualSweep.soak ds →
  Keithley2400.meter pm ≠ Keithley2400.meter sm →
  sized (length pvs * n) (DualSweep.primary_df ds) →
  sized (length pvs * n) (DualSweep.secondary_df ds) →
  ∃ out ds' w',
    DualSweep.execute (ds, w) = (Ok out, (ds', w')) ∧
    (∀ name, is_Some (columns out !! name) ↔
       name ∈ record_columns ∨
       ∃ c, c ∈ record_columns ∧ name = "secondary " +:+ c) ∧
    ∀ i j pv sv, pvs !! i = Some pv → svs !! j = Some sv →
      ∃ past f1 hist1 f2 hist2,
        let hist := Slept (DualSweep.soak ds) :: past in
        source_level (Keithley2400.meter pm) hist = Some pv ∧
        source_level (Keithley2400.meter sm) hist = Some sv ∧
        initiated (Keithley2400.meter pm) hist
        = (initiated (Keithley2400.meter pm) w + (i * n + j))%nat ∧
        Keithley2400.measure pm hist = (Ok f1, hist1) ∧
        Keithley2400.measure sm hist1 = (Ok f2, hist2) ∧
        ∀ name, name ∈ record_columns →
          row_at out (i * n + j) name = Ok (dict_get name f1) ∧
          row_at out (i * n + j) ("secondary " +:+ name) = Ok (dict_get name f2).
Proof.
  intros pm sm pvs svs n Ham Hsoak Hneq Hp Hs.
  destruct (dual_execute_run ds w Ham Hsoak Hneq Hp Hs)
    as (out & ds' & w' & Hrun & _ & Hnames & Hrows).
  by exists out, ds', w'.
Qed.

End DualSweepRun.

Lemma dual_sweep_rows_witness :
  ∃ ds w0 out ds' w',
    @DualSweep.init linear_only "GPIB0::24" "GPIB0::25" 0 1 2 0 1 2
      (1 / 10) (1 / 10) 5 1 2 false "linear" "linear" [] = (Ok ds, w0) ∧
    @DualSweep.execute echo (ds, w0) = (Ok out, (ds', w')) ∧
    row_at out 2 "voltage" = Ok (Some 1) ∧
    row_at out 2 "current" = Ok (Some (2 * 1)) ∧
    row_at out 2 "secondary voltage" = Ok (Some 0) ∧
    row_at out 2 "secondary current" = Ok (Some (2 * 0)).
Proof.
  destruct (@DualSweep_init_linear linear_only "GPIB0::24" "GPIB0::25" 0 1 2 0 1 2
              (1 / 10) (1 / 10) 5 1 2 false [] ltac:(lia) ltac:(lia))
    as (pv & sv & w0 & Hinit & Hlp & _ & Hep & Hls & Hfs & _).
  set (ds := DualSweep.mk _ _ _ _ _ _ _ _) in Hinit.
  assert (Hsized : sized (length pv * length sv)
                     (empty_frame (A := R) (Z.to_nat (2 * 2)) record_columns)).
  { rewrite Hlp, Hls. apply sized_empty_frame. }
  destruct (@dual_sweep_rows echo ds w0 eq_refl
              ltac:(simpl; lra) ltac:(discriminate) Hsized Hsized)
    as (out & ds' & w' & Hrun & _ & Hrows).
  exists ds, w0, out, ds', w'. split; [exact Hinit|]. split; [exact Hrun|].
  rewrite last_lookup, Hlp in Hep.
  destruct (Hrows 1%nat 0%nat 1 0 Hep Hfs)
    as (past & f1 & hist1 & f2 & hist2 & Hpv & Hsv & _ & Hm1 & Hm2 & Hrow).
  cbn [DualSweep.secondary_voltages DualSweep.primary_sourcemeter
       DualSweep.secondary_sourcemeter ds SweepPoints.data
       Keithley2400.meter] in Hpv, Hsv, Hm1, Hm2, Hrow.
  rewrite Hls in Hrow.
  assert (Hf1 : dict_get "voltage" f1 = Some 1 ∧ dict_get "current" f1 = Some (2 * 1)).
  { injection Hm1 as <- _. cbn [dict_get String.eqb Ascii.eqb Bool.eqb fst snd].
    change (source_level "GPIB0::24" _)
      with (source_level "GPIB0::24" (Slept (DualSweep.soak ds) :: past)).
    rewrite Hpv. done. }
  assert (Hf2 : dict_get "voltage" f2 = Some 0 ∧ dict_get "current" f2 = Some (2 * 0)).
  { injection Hm2 as <- _. cbn [dict_get String.eqb Ascii.eqb Bool.eqb fst snd].
    injection Hm1 as _ <-.
    change (source_level "GPIB0::25" _)
      with (source_level "GPIB0::25" (Slept (DualSweep.soak ds) :: past)).
    rewrite Hsv. done. }
  destruct Hf1 as [Hv1 Hc1]. destruct Hf2 as [Hv2 Hc2].
  split_and!.
  - rewrite <- Hv1. apply (Hrow "voltage"). unfold record_columns;
      repeat (apply list_elem_of_here || apply list_elem_of_further).
  - rewrite <- Hc1. apply (Hrow "current"). unfold record_columns;
      repeat (apply list_elem_of_here || apply list_elem_of_further).
  - rewrite <- Hv2. apply (Hrow "voltage"). unfold record_columns;
      repeat (apply list_elem_of_here || apply list_elem_of_further).
  - rewrite <- Hc2. apply (Hrow "current"). unfold record_columns;
      repeat (apply list_elem_of_here || apply list_elem_of_further).
Defined.

(** ** The soak policy *)

Section SoakPolicy.
Context `{Numpy} `{Instruments}.

(** C1, as the code has it: the soak time goes to exactly one of the two
    delays, the other way round.  With auto-zeroing enabled the sweep's own
    [soak] is 0 and the instruments' own delay (the [source:delay] written to
    every source-meter, and the ammeter driver's [soak]) is the soak time;
    with auto-zeroing disabled the sweep's [soak] is the soak time and the
    instruments' own delay is 0.  This holds for [Sweep], [DualSweep],
    [PicoSweep] and [PicoDualSweep].  The sweep's [soak] is the explicit
    delay of [execute]: on a [Sweep] and on a [DualSweep], [execute] sleeps
    it once per step and sleeps nothing else. *)
Theorem soak_goes_to_one_delay (soak : R) (azero : bool) :
  let explicit := if azero then 0 else soak in
  let delegated := if azero then soak else 0 in
  (∀ address start end_ measurements max_current samples nplc scale w sw w',
     Sweep.init address start end_ measurements max_current samples nplc soak
       azero scale w = (Ok sw, w') →
     Sweep.soak sw = explicit ∧ source_delay address w' = Some delegated) ∧
  (∀ pa sa ps pe pm ss se sm pmax smax samples nplc pscale sscale w ds w',
     DualSweep.init pa sa ps pe pm ss se sm pmax smax samples nplc soak azero
       pscale sscale w = (Ok ds, w') →
     DualSweep.soak ds = explicit ∧
     source_delay pa w' = Some delegated ∧
     source_delay sa w' = Some delegated) ∧
  (∀ va aa start end_ measurements samples nplc scale w sw w',
     PicoSweep.init va aa start end_ measurements samples nplc soak azero scale w
     = (Ok sw, w') →
     Sweep.soak sw = explicit ∧ source_delay va w' = Some delegated ∧
     ∃ am, Sweep.ammeter sw = Some am ∧ Keithley6485.soak am = delegated) ∧
  (∀ pa sa aa ps pe pm ss se sm smax samples nplc pscale sscale w ds w',
     PicoDualSweep.init pa sa aa ps pe pm ss se sm smax samples nplc soak azero
       pscale sscale w = (Ok ds, w') →
     DualSweep.soak ds = explicit ∧
     source_delay pa w' = Some delegated ∧
     source_delay sa w' = Some delegated ∧
     ∃ am, DualSweep.ammeter ds = Some am ∧ Keithley6485.soak am = delegated) ∧
  (∀ (sw : Sweep.t) (w : list event) (N : nat),
     Sweep.ammeter sw = None →
     0 <= Sweep.soak sw →
     sized N (Sweep.df sw) →
     (length (SweepPoints.data (Sweep.voltages sw)) ≤ N)%nat →
     ∃ out sw' w',
       Sweep.execute (sw, w) = (Ok out, (sw', w')) ∧
       sleeps w'
       = (replicate (length (SweepPoints.data (Sweep.voltages sw))) (Sweep.soak sw)
            ++ sleeps w)%list) ∧
  (∀ (ds : DualSweep.t) (w : list event),
     let m := length (SweepPoints.data (DualSweep.primary_voltages ds)) in
     let n := length (SweepPoints.data (DualSweep.secondary_voltages ds)) in
     DualSweep.ammeter ds = None →
     0 <= DualSweep.soak ds →
     Keithley2400.meter (DualSweep.primary_sourcemeter ds)
     ≠ Keithley2400.meter (DualSweep.secondary_sourcemeter ds) →
     sized (m * n) (DualSweep.primary_df ds) →
     sized (m * n) (DualSweep.secondary_df ds) →
     ∃ out ds' w',
       DualSweep.execute (ds, w) = (Ok out, (ds', w')) ∧
       sleeps w' = (replicate (m * n) (DualSweep.soak ds) ++ sleeps w)%list).
Proof.

  intros explicit delegated.
  assert (Hex : soak_table soak (negb azero) = explicit) by (by destruct azero).
  assert (Hde : soak_table soak azero = delegated) by (by destruct azero).
  split_and!.
  - intros address start end_ measurements max_current samples nplc scale w sw w' Hrun.
    apply Sweep_init_run in Hrun as (voltages & _ & -> & ->).
    split; [exact Hex|]. rewrite source_delay_init_2400, decide_True by done.
    by rewrite Hde.
  - intros pa sa ps pe pm ss se sm pmax smax samples nplc pscale sscale w ds w' Hrun.
    apply DualSweep_init_run in Hrun as (pv & sv & _ & _ & -> & ->).
    split; [exact Hex|]. rewrite !source_delay_init_2400, Hde.
    rewrite !(decide_True (P := pa = pa)), !(decide_True (P := sa = sa)) by done.
    split; [|done]. by case_decide.
  - intros va aa start end_ measurements samples nplc scale w sw w'.
    unfold PicoSweep.init. rewrite bind_run.
    destruct (Sweep.init _ _ _ _ _ _ _ _ _ _ _) as [[sw0|e] w0] eqn:Hrun; [|done].
    apply Sweep_init_run in Hrun as (voltages & _ & -> & ->).
    rewrite bind_run, init_6485_run. intros [= <- <-].
    split; [exact Hex|].
    split; [simpl; by rewrite decide_True, Hde by done|].
    eexists. split; [reflexivity|exact Hde].
  - intros pa sa aa ps pe pm ss se sm smax samples nplc pscale sscale w ds w'.
    unfold PicoDualSweep.init. rewrite bind_run.
    destruct (DualSweep.init _ _ _ _ _ _ _ _ _ _ _ _ _ _ _ _ _)
      as [[ds0|e] w0] eqn:Hrun; [|done].
    apply DualSweep_init_run in Hrun as (pv & sv & _ & _ & -> & ->).
    rewrite bind_run, init_6485_run. intros [= <- <-].
    split; [exact Hex|].
    simpl. rewrite Hde.
    rewrite !(decide_True (P := pa = pa)), !(decide_True (P := sa = sa)) by done.
    split_and!; [by case_decide|done|].
    eexists. split; [reflexivity|exact Hde].
  - intros sw w N Ham Hsoak Hdf Hlen.
    destruct (sweep_execute_run sw w N Ham Hsoak Hdf Hlen)
      as (out & sw' & w' & Hrun & Hsl & _).
    by exists out, sw', w'.
  - intros ds w m n Ham Hsoak Hneq Hp Hs.
    destruct (dual_execute_run ds w Ham Hsoak Hneq Hp Hs)
      as (out & ds' & w' & Hrun & Hsl & _).
    by exists out, ds', w'.
Qed.

End SoakPolicy.

(** C1, as stated, fails: with auto-zeroing enabled and a soak time of 2 s
    the sweep's own delay is not 2 s and the delay written to the instrument
    is not 0. *)
Lemma soak_with_azero_is_delegated :
  ∃ sw w',
    @Sweep.init linear_only "GPIB0::24" 0 1 3 (1 / 10) 5 1 2 true "linear" []
    = (Ok sw, w') ∧
    Sweep.soak sw ≠ 2 ∧
    source_delay "GPIB0::24" w' ≠ Some 0.
Proof.
  destruct (@Sweep_init_linear linear_only "GPIB0::24" 0 1 3 (1 / 10) 5 1 2 true []
              ltac:(lia)) as (pts & Hrun & _).
  eexists _, _. split; [exact Hrun|]. split.
  - simpl. lra.
  - simpl. intros [= Heq]. lra.
Qed.

Lemma soak_goes_to_one_delay_witness :
  ∃ sw w0 out sw' w',
    @Sweep.init linear_only "GPIB0::24" 0 1 3 (1 / 10) 5 1 2 true "linear" []
    = (Ok sw, w0) ∧
    Sweep.soak sw = 0 ∧
    source_delay "GPIB0::24" w0 = Some 2 ∧
    @Sweep.execute echo (sw, w0) = (Ok out, (sw', w')) ∧
    sleeps w' = [0; 0; 0].
Proof.
  destruct (@Sweep_init_linear linear_only "GPIB0::24" 0 1 3 (1 / 10) 5 1 2 true []
              ltac:(lia)) as (pts & Hrun & Hlen).
  set (sw := Sweep.mk _ _ _ _ _) in Hrun.
  set (w0 := (_ ++ [])%list) in Hrun.
  destruct (@soak_goes_to_one_delay linear_only echo 2 true)
    as (Hinit & _ & _ & _ & Hexec & _).
  destruct (Hinit _ _ _ _ _ _ _ _ _ _ _ Hrun) as [Hsoak Hdelay].
  destruct (Hexec sw w0 (Z.to_nat 3) eq_refl ltac:(simpl; lra)
              (sized_empty_frame _) ltac:(simpl; lia))
    as (out & sw' & w' & Hexe & Hsl).
  exists sw, w0, out, sw', w'.
  split_and!; [exact Hrun|exact Hsoak|exact Hdelay|exact Hexe|].
  rewrite Hsl. simpl. rewrite Hlen. reflexivity.
Defined.

(** * Further properties

    More of the code: the edges of the sweep points, what the sweeps do to
    the instruments, and more on the tables of the analysis. *)

(** ** Sweep points: small counts and [regen] *)

Section SweepPointsEdges.
Context `{Numpy}.

Lemma linspace_one (start stop : R) :
  linspace (VFloat start) (VFloat stop) (VInt 1) = Ok [start].
Proof.
  unfold linspace. simpl. do 2 f_equal. lra.
Qed.

Lemma linspace_zero (start stop : R) :
  linspace (VFloat start) (VFloat stop) (VInt 0) = Ok [].
Proof. unfold linspace. simpl. by repeat case_decide. Qed.

(** X1: the linear policy with a count below two.  No points for a count of
    0; for a count of 1 the single point is [start], and [end] is not
    reached; a negative count raises ValueError and a count that is a float
    raises TypeError. *)
Theorem linear_points_small_counts (start end_ : R) (scale : string) :
  scale = "linear" ∨ scale = "lin" →
  SweepPoints.new (VFloat start) (VFloat end_) (VInt 0) (VStr scale)
  = Ok (SweepPoints.mk [] scale) ∧
  SweepPoints.new (VFloat start) (VFloat end_) (VInt 1) (VStr scale)
  = Ok (SweepPoints.mk [start] scale) ∧
  (∀ count, (count < 0)%Z →
     SweepPoints.new (VFloat start) (VFloat end_) (VInt count) (VStr scale)
     = Raise ValueError) ∧
  (∀ count : R,
     SweepPoints.new (VFloat start) (VFloat end_) (VFloat count) (VStr scale)
     = Raise TypeError).
Proof.
  intros Hscale. split_and!.
  - apply new_linear; [done|]. apply linspace_zero.
  - apply new_linear; [done|]. apply linspace_one.
  - intros count Hcount. unfold SweepPoints.new. rewrite decide_True by done.
    unfold linspace. simpl. by rewrite decide_True by done.
  - intros count. unfold SweepPoints.new. by rewrite decide_True by done.
Qed.

End SweepPointsEdges.

Lemma linear_points_small_counts_witness :
  @SweepPoints.new linear_only (VFloat 2) (VFloat 7) (VInt 1) (VStr "lin")
  = Ok (SweepPoints.mk [2] "lin").
Proof.
  exact (proj1 (proj2 (@linear_points_small_counts linear_only 2 7 "lin"
                         (or_intror eq_refl)))).
Defined.

Section Regen.
Context `{Numpy}.

(** The points of [linspace] for a count of at least two: how many, and
    the two ends. *)
Lemma linspace_shape (start stop : R) (count : Z) :
  (2 ≤ count)%Z →
  ∃ pts, linspace (VFloat start) (VFloat stop) (VInt count) = Ok pts ∧
    length pts = Z.to_nat count ∧
    pts !! 0%nat = Some start ∧
    last pts = Some stop.
Proof.
  intros Hcount.
  destruct (linspace_points start stop count Hcount) as (pts & Hpts & Hlen & Hk).
  exists pts. split_and!; [done|done| |].
  - rewrite Hk by lia. rewrite decide_False by lia. simpl. f_equal. lra.
  - rewrite last_lookup, Hlen. rewrite Hk by lia. by rewrite decide_True by lia.
Qed.

Lemma regen_kwargs_bounds (s e : option R) (first final : R) (points scale : value) :
  SweepPoints.regen_kwargs (bounds_kwargs s e) (VFloat first) (VFloat final)
    points scale
  = Ok (VFloat (default first s), VFloat (default final e), points, scale).
Proof. by destruct s, e. Qed.

(** X2: [regen] with new bounds.  On a linear sequence of [n] points, two at
    least, [regen(start=s, end=e)], with either keyword left out or not,
    succeeds and changes the sequence in place: it keeps its [n] places and
    its scale, and now runs from the new start (the old first point when
    [start] is left out) to the new end (the old last point when [end] is
    left out). *)
Theorem regen_new_bounds (self : SweepPoints.t) (first final : R)
    (s e : option R) :
  let n := length (SweepPoints.data self) in
  let start := default first s in
  let end_ := default final e in
  SweepPoints.scale self = "linear" ∨ SweepPoints.scale self = "lin" →
  (2 ≤ n)%nat →
  SweepPoints.data self !! 0%nat = Some first →
  last (SweepPoints.data self) = Some final →
  ∃ pts,
    SweepPoints.regen (bounds_kwargs s e) self
    = (Ok tt, SweepPoints.mk pts (SweepPoints.scale self)) ∧
    length pts = n ∧
    pts !! 0%nat = Some start ∧
    last pts = Some end_.
Proof.
  intros n start end_ Hscale Hn Hfirst Hlast.
  destruct (linspace_shape start end_ (Z.of_nat n) ltac:(lia))
    as (pts & Hpts & Hlen & Hp0 & Hpl).
  rewrite Nat2Z.id in Hlen.
  exists pts. split_and!; [|done|done|done].
  rewrite (regen_run (bounds_kwargs s e) self
             (SweepPoints.mk pts (SweepPoints.scale self)) first final
             (VFloat start) (VFloat end_) (VInt (Z.of_nat n))
             (VStr (SweepPoints.scale self)) Hfirst Hlast
             (regen_kwargs_bounds s e first final _ _)
             (new_linear _ _ _ _ _ Hscale Hpts) _ eq_refl).
  simpl. unfold assign_slice. by rewrite decide_True by done.
Qed.

(** X3: [regen()] without keywords.  On the points that the linear policy
    made for a count of at least one it changes nothing; on a sequence
    without points it raises IndexError, whatever the keywords. *)
Theorem regen_without_keywords (start end_ : R) (count : Z) (scale : string)
    (self : SweepPoints.t) :
  scale = "linear" ∨ scale = "lin" →
  SweepPoints.new (VFloat start) (VFloat end_) (VInt count) (VStr scale) = Ok self →
  ((1 ≤ count)%Z → SweepPoints.regen [] self = (Ok tt, self)) ∧
  (count = 0%Z →
   ∀ kwargs, SweepPoints.regen kwargs self = (Raise IndexError, self)).
Proof.
  intros Hscale Hnew. split.
  - intros Hcount. destruct (decide (count = 1%Z)) as [->|Hne].
    + rewrite (new_linear _ _ _ _ _ Hscale (linspace_one start end_)) in Hnew.
      injection Hnew as <-.
      rewrite (regen_run [] (SweepPoints.mk [start] scale)
                 (SweepPoints.mk [start] scale) start start
                 (VFloat start) (VFloat start) (VInt 1) (VStr scale)
                 eq_refl eq_refl eq_refl
                 (new_linear _ _ _ _ _ Hscale (linspace_one start start))
                 _ eq_refl).
      done.
    + destruct (linspace_shape start end_ count ltac:(lia))
        as (pts & Hpts & Hlen & Hp0 & Hpl).
      rewrite (new_linear _ _ _ _ _ Hscale Hpts) in Hnew. injection Hnew as <-.
      assert (Hkw : SweepPoints.regen_kwargs [] (VFloat start) (VFloat end_)
                      (VInt (Z.of_nat (length pts))) (VStr scale)
                    = Ok (VFloat start, VFloat end_, VInt count, VStr scale)).
      { simpl. do 4 f_equal. lia. }
      rewrite (regen_run [] (SweepPoints.mk pts scale) (SweepPoints.mk pts scale)
                 start end_ (VFloat start) (VFloat end_) (VInt count) (VStr scale)
                 Hp0 Hpl Hkw (new_linear _ _ _ _ _ Hscale Hpts) _ eq_refl).
      simpl. unfold assign_slice. by rewrite decide_True by done.
  - intros -> kwargs.
    rewrite (new_linear _ _ _ _ [] Hscale (linspace_zero _ _)) in Hnew. by injection Hnew as <-.
Qed.

Lemma regen_kwargs_unknown (kwargs : dict value) (key : string) (item : value) :
  (key, item) ∈ kwargs →
  key ∉ ["start"; "end"; "points"; "scale"] →
  ∀ start end_ points scale,
    SweepPoints.regen_kwargs kwargs start end_ points scale = Raise ValueError.
Proof.
  intros Hin Hkey. induction kwargs as [|[key' item'] kwargs IH]; intros.
  - by apply elem_of_nil in Hin.
  - simpl. apply elem_of_cons in Hin as [[= <- <-]|Hin].
    + rewrite !decide_False; [done|..]; intros ->; apply Hkey;
        repeat (apply list_elem_of_here || apply list_elem_of_further).
    + repeat case_decide; by try apply IH.
Qed.

(** X4: a keyword that is none of [start], [end], [points], [scale],
    wherever it stands among the keywords, makes [regen] on a sequence with
    points raise ValueError, and the sequence stays as it was. *)
Theorem regen_rejects_unknown_keyword (kwargs : dict value) (key : string)
    (item : value) (self : SweepPoints.t) :
  SweepPoints.data self ≠ [] →
  (key, item) ∈ kwargs →
  key ∉ ["start"; "end"; "points"; "scale"] →
  SweepPoints.regen kwargs self = (Raise ValueError, self).
Proof.
  intros Hdata Hin Hkey.
  destruct (SweepPoints.data self !! 0%nat) as [first|] eqn:Hfirst;
    [|by apply lookup_ge_None_1 in Hfirst;
        destruct (SweepPoints.data self); [|simpl in Hfirst; lia]].
  destruct (last (SweepPoints.data self)) as [final|] eqn:Hlast;
    [|by apply last_None in Hlast].
  unfold SweepPoints.regen.
  rewrite bind_run. unfold get at 1.
  rewrite bind_run. unfold lift at 1, SweepPoints.item at 1. rewrite Hfirst.
  rewrite bind_run. unfold lift at 1, SweepPoints.item at 1.
  rewrite last_lookup in Hlast. rewrite <- Nat.sub_1_r in Hlast. rewrite Hlast.
  rewrite bind_run. unfold lift at 1.
  by rewrite (regen_kwargs_unknown kwargs key item Hin Hkey).
Qed.

(** X5: the keyword [points].  On a linear sequence of [n] points, two at
    least, [regen(points=k)] cannot change the number of points: for every
    [k] other than 1 and [n] it raises ValueError and leaves the sequence as
    it was, and for [k = 1] it succeeds and fills the [n] places with the
    first point. *)
Theorem regen_points (self : SweepPoints.t) (first final : R) (k : Z) :
  let n := length (SweepPoints.data self) in
  SweepPoints.scale self = "linear" ∨ SweepPoints.scale self = "lin" →
  (2 ≤ n)%nat →
  SweepPoints.data self !! 0%nat = Some first →
  last (SweepPoints.data self) = Some final →
  (k ≠ 1%Z → k ≠ Z.of_nat n →
   SweepPoints.regen [("points", VInt k)] self = (Raise ValueError, self)) ∧
  (k = 1%Z →
   SweepPoints.regen [("points", VInt k)] self
   = (Ok tt, SweepPoints.mk (replicate n first) (SweepPoints.scale self))).
Proof.
  intros n Hscale Hn Hfirst Hlast. split.
  - intros H1 Hk.
    destruct (decide (k < 0)%Z) as [Hneg|Hpos].
    + unfold SweepPoints.regen.
      rewrite bind_run. unfold get at 1.
      rewrite bind_run. unfold lift at 1, SweepPoints.item at 1. rewrite Hfirst.
      rewrite bind_run. unfold lift at 1, SweepPoints.item at 1.
      rewrite last_lookup in Hlast. rewrite <- Nat.sub_1_r in Hlast. rewrite Hlast.
      rewrite bind_run. unfold lift at 1. simpl.
      rewrite bind_run. unfold lift at 1.
      unfold SweepPoints.new. rewrite decide_True by done.
      unfold linspace. simpl. by rewrite decide_True by done.
    + destruct (decide (k = 0%Z)) as [->|H0].
      * rewrite (regen_run [("points", VInt 0)] self
                   (SweepPoints.mk [] (SweepPoints.scale self)) first final
                   (VFloat first) (VFloat final) (VInt 0)
                   (VStr (SweepPoints.scale self)) Hfirst Hlast eq_refl
                   (new_linear _ _ _ _ [] Hscale (linspace_zero _ _)) _ eq_refl).
        simpl. unfold assign_slice. by rewrite decide_False by (simpl; lia).
      * destruct (linspace_shape first final k ltac:(lia))
          as (pts & Hpts & Hlen & _).
        rewrite (regen_run [("points", VInt k)] self
                   (SweepPoints.mk pts (SweepPoints.scale self)) first final
                   (VFloat first) (VFloat final) (VInt k)
                   (VStr (SweepPoints.scale self)) Hfirst Hlast eq_refl
                   (new_linear _ _ _ _ _ Hscale Hpts) _ eq_refl).
        simpl. unfold assign_slice. rewrite decide_False by (fold n; lia).
        destruct pts as [|x [|y pts]]; [done|simpl in Hlen; lia|done].
  - intros ->.
    rewrite (regen_run [("points", VInt 1)] self
               (SweepPoints.mk [first] (SweepPoints.scale self)) first final
               (VFloat first) (VFloat final) (VInt 1)
               (VStr (SweepPoints.scale self)) Hfirst Hlast eq_refl
               (new_linear _ _ _ _ _ Hscale (linspace_one first final)) _ eq_refl).
    simpl. unfold assign_slice. by rewrite decide_False by (simpl; fold n; lia).
Qed.

End Regen.

Lemma regen_new_bounds_witness :
  ∃ pts,
    @SweepPoints.regen linear_only [("end", VFloat 20)]
      (SweepPoints.mk [0; 5; 10] "linear")
    = (Ok tt, SweepPoints.mk pts "linear") ∧
    length pts = 3%nat ∧ pts !! 0%nat = Some 0 ∧ last pts = Some 20.
Proof.
  destruct (@regen_new_bounds linear_only (SweepPoints.mk [0; 5; 10] "linear")
              0 10 None (Some 20) (or_introl eq_refl) ltac:(simpl; lia)
              eq_refl eq_refl)
    as (pts & Hrun & Hlen & Hfirst & Hlast).
  exists pts. split_and!; [exact Hrun|exact Hlen|exact Hfirst|exact Hlast].
Defined.

Lemma regen_without_keywords_witness :
  @SweepPoints.regen linear_only [] (SweepPoints.mk [3] "linear")
  = (Ok tt, SweepPoints.mk [3] "linear").
Proof.
  apply (@regen_without_keywords linear_only 3 8 1 "linear"
           (SweepPoints.mk [3] "linear") (or_introl eq_refl)).
  - apply (@new_linear linear_only); [by left|]. apply linspace_one.
  - lia.
Defined.

Lemma regen_rejects_unknown_keyword_witness :
  @SweepPoints.regen linear_only [("end", VFloat 1); ("step", VFloat 2)]
    (SweepPoints.mk [0; 1] "linear")
  = (Raise ValueError, SweepPoints.mk [0; 1] "linear").
Proof.
  apply (@regen_rejects_unknown_keyword linear_only _ "step" (VFloat 2)).
  - discriminate.
  - apply list_elem_of_further, list_elem_of_here.
  - intros Hin.
    repeat (apply elem_of_cons in Hin as [Hin|Hin]; [discriminate Hin|]).
    by apply elem_of_nil in Hin.
Defined.

Lemma regen_points_witness :
  @SweepPoints.regen linear_only [("points", VInt 2)]
    (SweepPoints.mk [0; 5; 10] "linear")
  = (Raise ValueError, SweepPoints.mk [0; 5; 10] "linear") ∧
  @SweepPoints.regen linear_only [("points", VInt 1)]
    (SweepPoints.mk [0; 5; 10] "linear")
  = (Ok tt, SweepPoints.mk [0; 0; 0] "linear").
Proof.
  split.
  - apply (@regen_points linear_only (SweepPoints.mk [0; 5; 10] "linear") 0 10 2
             (or_introl eq_refl) ltac:(simpl; lia) eq_refl eq_refl); simpl; lia.
  - apply (@regen_points linear_only (SweepPoints.mk [0; 5; 10] "linear") 0 10 1
             (or_introl eq_refl) ltac:(simpl; lia) eq_refl eq_refl). reflexivity.
Defined.

(** ** The constructors of the sweeps *)

Section Constructors.
Context `{Numpy}.

Lemma new_unknown_scale (start end_ points : value) (scale : string) :
  scale ∉ scales → SweepPoints.new start end_ points (VStr scale) = Raise ValueError.
Proof.
  intros Hscale. unfold SweepPoints.new.
  rewrite !decide_False; [done|..]; intros [->| ->]; apply Hscale; unfold scales;
    repeat (apply list_elem_of_here || apply list_elem_of_further).
Qed.

(** X7: a scale that [SweepPoints] does not know is found out late.  The
    constructors of [Sweep], [PicoSweep] and [DualSweep] raise ValueError for
    it only after every source-meter has been opened, reset and configured;
    the ammeter of a [PicoSweep] has not been opened by then. *)
Theorem unknown_scale_after_configuration (scale : string) (soak : R)
    (azero : bool) (w : list event) :
  scale ∉ scales →
  (∀ address start end_ measurements max_current samples nplc,
     Sweep.init address start end_ measurements max_current samples nplc soak
       azero scale w
     = (Raise ValueError,
        (init_2400 address max_current samples (soak_table soak azero) nplc azero
           ++ w)%list)) ∧
  (∀ va aa start end_ measurements samples nplc,
     PicoSweep.init va aa start end_ measurements samples nplc soak azero scale w
     = (Raise ValueError,
        (init_2400 va (1 / 1000000) samples (soak_table soak azero) nplc azero
           ++ w)%list)) ∧
  (∀ pa sa ps pe pm ss se sm pmax smax samples nplc sscale,
     DualSweep.init pa sa ps pe pm ss se sm pmax smax samples nplc soak azero
       scale sscale w
     = (Raise ValueError,
        (init_2400 sa smax samples (soak_table soak azero) nplc azero
           ++ init_2400 pa pmax samples (soak_table soak azero) nplc azero
           ++ w)%list)).
Proof.
  intros Hscale.
  assert (Hsweep : ∀ address start end_ measurements max_current samples nplc,
     Sweep.init address start end_ measurements max_current samples nplc soak
       azero scale w
     = (Raise ValueError,
        (init_2400 address max_current samples (soak_table soak azero) nplc azero
           ++ w)%list)).
  { intros. unfold Sweep.init. rewrite bind_run, init_2400_run.
    rewrite bind_run. unfold lift at 1. by rewrite new_unknown_scale. }
  split_and!.
  - exact Hsweep.
  - intros. unfold PicoSweep.init. by rewrite bind_run, Hsweep.
  - intros. unfold DualSweep.init. rewrite bind_run, init_2400_run.
    rewrite bind_run, init_2400_run.
    rewrite bind_run. unfold lift at 1. by rewrite new_unknown_scale.
Qed.

End Constructors.

Lemma unknown_scale_after_configuration_witness :
  @Sweep.init linear_only "GPIB0::24" 0 1 3 (1 / 10) 5 1 2 false "cubic" []
  = (Raise ValueError, init_2400 "GPIB0::24" (1 / 10) 5 0 1 false).
Proof.
  assert (Hscale : "cubic" ∉ scales).
  { intros Hin. unfold scales in Hin.
    repeat (apply elem_of_cons in Hin as [Hin|Hin]; [discriminate Hin|]).
    by apply elem_of_nil in Hin. }
  destruct (@unknown_scale_after_configuration linear_only "cubic" 2 false []
              Hscale) as [Hsweep _].
  rewrite Hsweep. simpl. reflexivity.
Defined.

(** ** The outputs at construction *)

Section ConstructorsOutputs.
Context `{Numpy}.

Lemma output_state_init_2400 (a address : string) (max_current : R)
    (measurements : Z) (soak nplc : R) (azero : bool) (w : list event) :
  output_state a (init_2400 address max_current measurements soak nplc azero ++ w)
  = if decide (address = a) then Some false else output_state a w.
Proof. reflexivity. Qed.

Lemma output_state_init_6485 (a address : string) (measurements : Z)
    (nplc : R) (azero : bool) (w : list event) :
  output_state a (init_6485 address measurements nplc azero ++ w)
  = output_state a w.
Proof. reflexivity. Qed.

(** X8: the constructors leave the outputs off.  When the constructor of
    any of the four sweeps returns, the last command to the output of every
    source-meter of the sweep is off, and the constructor has sent no source
    level. *)
Theorem constructors_leave_outputs_off (w : list event) :
  (∀ address start end_ measurements max_current samples nplc soak azero scale
     sw w',
     Sweep.init address start end_ measurements max_current samples nplc soak
       azero scale w = (Ok sw, w') →
     output_state address w' = Some false ∧
     ∀ a, source_level a w' = source_level a w) ∧
  (∀ va aa start end_ measurements samples nplc soak azero scale sw w',
     PicoSweep.init va aa start end_ measurements samples nplc soak azero scale w
     = (Ok sw, w') →
     output_state va w' = Some false ∧
     ∀ a, source_level a w' = source_level a w) ∧
  (∀ pa sa ps pe pm ss se sm pmax smax samples nplc soak azero pscale sscale
     ds w',
     DualSweep.init pa sa ps pe pm ss se sm pmax smax samples nplc soak azero
       pscale sscale w = (Ok ds, w') →
     output_state pa w' = Some false ∧ output_state sa w' = Some false ∧
     ∀ a, source_level a w' = source_level a w) ∧
  (∀ pa sa aa ps pe pm ss se sm smax samples nplc soak azero pscale sscale
     ds w',
     PicoDualSweep.init pa sa aa ps pe pm ss se sm smax samples nplc soak azero
       pscale sscale w = (Ok ds, w') →
     output_state pa w' = Some false ∧ output_state sa w' = Some false ∧
     ∀ a, source_level a w' = source_level a w).
Proof.
  split_and!.
  - intros address start end_ measurements max_current samples nplc soak azero
      scale sw w' Hrun.
    apply Sweep_init_run in Hrun as (voltages & _ & -> & ->).
    split; [|done]. by rewrite output_state_init_2400, decide_True.
  - intros va aa start end_ measurements samples nplc soak azero scale sw w'.
    unfold PicoSweep.init. rewrite bind_run.
    destruct (Sweep.init _ _ _ _ _ _ _ _ _ _ _) as [[sw0|e] w0] eqn:Hrun; [|done].
    apply Sweep_init_run in Hrun as (voltages & _ & -> & ->).
    rewrite bind_run, init_6485_run. intros [= <- <-].
    split; [|done]. simpl. by rewrite decide_True.
  - intros pa sa ps pe pm ss se sm pmax smax samples nplc soak azero pscale
      sscale ds w' Hrun.
    apply DualSweep_init_run in Hrun as (pv & sv & _ & _ & -> & ->).
    split_and!; [| |done].
    + rewrite !output_state_init_2400. rewrite (decide_True (P := pa = pa)) by done.
      by case_decide.
    + by rewrite output_state_init_2400, decide_True.
  - intros pa sa aa ps pe pm ss se sm smax samples nplc soak azero pscale sscale
      ds w'.
    unfold PicoDualSweep.init. rewrite bind_run.
    destruct (DualSweep.init _ _ _ _ _ _ _ _ _ _ _ _ _ _ _ _ _)
      as [[ds0|e] w0] eqn:Hrun; [|done].
    apply DualSweep_init_run in Hrun as (pv & sv & _ & _ & -> & ->).
    rewrite bind_run, init_6485_run. intros [= <- <-].
    split_and!; [| |done]; simpl; repeat case_decide; congruence.
Qed.

End ConstructorsOutputs.

Lemma constructors_leave_outputs_off_witness :
  ∃ sw w',
    @Sweep.init linear_only "GPIB0::24" 0 1 3 (1 / 10) 5 1 2 false "linear" []
    = (Ok sw, w') ∧
    output_state "GPIB0::24" w' = Some false ∧
    source_level "GPIB0::24" w' = None.
Proof.
  destruct (@Sweep_init_linear linear_only "GPIB0::24" 0 1 3 (1 / 10) 5 1 2 false []
              ltac:(lia)) as (pts & Hrun & _).
  destruct (proj1 (@constructors_leave_outputs_off linear_only []) _ _ _ _ _ _ _ _
              _ _ _ _ Hrun) as [Hout Hlevel].
  eexists _, _. split; [exact Hrun|]. split; [exact Hout|].
  rewrite Hlevel. reflexivity.
Defined.

(** ** What [execute] does to the instruments *)

Lemma keeps_bind {St A B} (P : St → Prop) (m : M St A) (f : A → M St B) :
  keeps P m → (∀ a, keeps P (f a)) → keeps P (m ≫= f).
Proof.
  intros Hm Hf s r s' HP. rewrite bind_run.
  destruct (m s) as [[a|e] s1] eqn:Hrun.
  - intros Hrun'. exact (Hf a s1 r s' (Hm _ _ _ HP Hrun) Hrun').
  - intros [= <- <-]. exact (Hm _ _ _ HP Hrun).
Qed.

Lemma keeps_ret {St A} (P : St → Prop) (a : A) : keeps P (mret a).
Proof. by intros s r s' HP [= <- <-]. Qed.

Lemma keeps_lift {St A} (P : St → Prop) (r : result A) : keeps P (lift r).
Proof. by intros s r' s' HP [= <- <-]. Qed.

Lemma keeps_this {O} (P : O * list event → Prop) : keeps P this.
Proof. by intros s r s' HP [= <- <-]. Qed.

Lemma keeps_io {O A} (P : O * list event → Prop) (m : M (list event) A) :
  (∀ o, keeps (fun w => P (o, w)) m) → keeps P (io m).
Proof.
  intros Hm [o w] r s' HP. rewrite io_run.
  destruct (m w) as [r' w'] eqn:Hrun. intros [= <- <-].
  exact (Hm o w r' w' HP Hrun).
Qed.

Lemma keeps_for_enumerate {St A} (P : St → Prop) (body : nat → A → M St unit)
    (xs : list A) :
  (∀ i x, keeps P (body i x)) → ∀ i, keeps P (for_enumerate body i xs).
Proof.
  intros Hbody. induction xs as [|x xs IH]; intros i; simpl.
  - by intros s r s' HP [= <- <-].
  - apply (keeps_bind P (body i x)); [apply Hbody|]. intros _. apply IH.
Qed.

Section Steps.
Context `{Instruments}.
Context (Q : list event → Prop).
Context (Hstable : ∀ e w, acquisition_event e → Q w → Q (e :: w)).

Lemma keeps_emit (e : event) : acquisition_event e → keeps Q (emit e).
Proof. intros He w r w' HQ [= <- <-]. by apply Hstable. Qed.

Lemma keeps_sleep (d : R) : keeps Q (sleep d).
Proof.
  unfold sleep. case_decide.
  - by intros w r w' HQ [= <- <-].
  - by apply keeps_emit.
Qed.

Lemma keeps_measure_2400 (k : Keithley2400.t) : keeps Q (Keithley2400.measure k).
Proof.
  intros w r w' HQ. destruct (measure_2400_run k w) as [f ->].
  intros [= <- <-]. unfold measure_events. simpl.
  repeat (apply Hstable; [exact I|]). exact HQ.
Qed.

Lemma measure_6485_run (am : Keithley6485.t) (w : list event) :
  0 <= Keithley6485.soak am →
  ∃ current_mean current_sd,
    Keithley6485.measure am w
    = (Ok [("current", current_mean); ("current sd", current_sd)],
       (measure_events (Keithley6485.meter am)
          ++ Slept (Keithley6485.soak am) :: w)%list).
Proof.
  intros Hsoak. unfold Keithley6485.measure.
  rewrite bind_run, sleep_run by done.
  unfold mbind, M_bind, bind, Keithley6485.write, emit, Keithley6485.query. simpl.
  eexists _, _. reflexivity.
Qed.

Lemma keeps_measure_6485 (am : Keithley6485.t) : keeps Q (Keithley6485.measure am).
Proof.
  intros w r w' HQ. destruct (decide (Keithley6485.soak am < 0)) as [Hneg|Hpos].
  - unfold Keithley6485.measure. rewrite bind_run. unfold sleep.
    rewrite decide_True by done. by intros [= <- <-].
  - destruct (measure_6485_run am w ltac:(lra)) as (cm & cs & ->).
    intros [= <- <-]. unfold measure_events. simpl.
    repeat (apply Hstable; [exact I|]). exact HQ.
Qed.

Lemma keeps_set_target_voltage (k : Keithley2400.t) (v : R) :
  keeps Q (Keithley2400.set_target_voltage k v).
Proof. by apply keeps_emit. Qed.

End Steps.

Section Execute.
Context `{Instruments}.

Lemma keeps_update {O} (Q : list event → Prop) (f : O → O) :
  keeps (fun s : O * list event => Q s.2) (update f).
Proof. by intros [o w] r s' HQ [= <- <-]. Qed.

Lemma keeps_world_io {O A} (Q : list event → Prop) (m : M (list event) A) :
  keeps Q m → keeps (fun s : O * list event => Q s.2) (io m).
Proof. intros Hm. apply (keeps_io (fun s => Q s.2)). intros o. exact Hm. Qed.

(** A step of a [Sweep] or [PicoSweep] keeps what acquisition events keep. *)
Lemma keeps_sweep_step (Q : list event → Prop) (sw : Sweep.t) (i : nat) (v : R) :
  (∀ e w, acquisition_event e → Q w → Q (e :: w)) →
  keeps (fun s : Sweep.t * list event => Q s.2)
    (_ ← io (Keithley2400.set_target_voltage (Sweep.sourcemeter sw) v);
     _ ← io (sleep (Sweep.soak sw));
     Sweep.self_measure i).
Proof.
  intros Hstable.
  apply keeps_bind; [by apply keeps_world_io, keeps_set_target_voltage|intros _].
  apply keeps_bind; [by apply keeps_world_io, keeps_sleep|intros _].
  unfold Sweep.self_measure.
  apply keeps_bind; [apply keeps_this|intros self].
  destruct (Sweep.ammeter self) as [am|].
  - unfold Sweep.pico_measure.
    apply keeps_bind; [apply keeps_this|intros self'].
    apply keeps_bind; [by apply keeps_world_io, keeps_measure_2400|intros f1r].
    apply keeps_bind; [by apply keeps_world_io, keeps_measure_6485|intros f2r].
    apply keeps_bind; [apply keeps_lift|intros f].
    apply keeps_bind; [apply keeps_lift|intros df'].
    apply keeps_update.
  - unfold Sweep.measure.
    apply keeps_bind; [apply keeps_this|intros self'].
    apply keeps_bind; [by apply keeps_world_io, keeps_measure_2400|intros f1r].
    apply keeps_bind; [apply keeps_lift|intros df'].
    apply keeps_update.
Qed.

(** [Sweep.execute] is its loop between the two commands that open it and
    the two that close it; when the loop raises, the closing commands are
    not sent. *)
Lemma sweep_execute_cases (sw : Sweep.t) (w : list event) :
  let sm := Sweep.sourcemeter sw in
  let a := Keithley2400.meter sm in
  Sweep.execute (sw, w)
  = match for_enumerate (fun i voltage =>
              _ ← io (Keithley2400.set_target_voltage sm voltage);
              _ ← io (sleep (Sweep.soak sw));
              Sweep.self_measure i)
            0 (SweepPoints.data (Sweep.voltages sw))
            (sw, Sent a (Output true) :: Sent a (SystemBeeper 1000 1) :: w) with
    | (Ok _, (sw1, w1)) =>
        (Ok (Sweep.df sw1),
         (sw1, Sent a (Output false) :: Sent a (SourceVoltageLevel 0) :: w1))
    | (Raise e, s1) => (Raise e, s1)
    end.
Proof.
  intros sm a. unfold Sweep.execute. rewrite bind_run. unfold this at 1. cbn [fst].
  fold sm.
  do 2 (rewrite bind_run, io_run;
        cbn [Keithley2400.beep Keithley2400.set_output_enabled
             Keithley2400.write emit]).
  fold a. rewrite bind_run.
  destruct (for_enumerate _ _ _ _) as [[[]|e] [sw1 w1]]; [|done].
  do 2 (rewrite bind_run, io_run;
        cbn [Keithley2400.set_target_voltage Keithley2400.set_output_enabled
             Keithley2400.write emit]).
  reflexivity.
Qed.

(** A step of a [DualSweep] or [PicoDualSweep] keeps what acquisition events
    keep. *)
Lemma keeps_dual_step (Q : list event → Prop) (ds : DualSweep.t) (i j : nat)
    (sv : R) :
  (∀ e w, acquisition_event e → Q w → Q (e :: w)) →
  keeps (fun s : DualSweep.t * list event => Q s.2)
    (_ ← io (Keithley2400.set_target_voltage (DualSweep.secondary_sourcemeter ds) sv);
     _ ← io (sleep (DualSweep.soak ds));
     DualSweep.self_measure i j).
Proof.
  intros Hstable.
  apply keeps_bind; [by apply keeps_world_io, keeps_set_target_voltage|intros _].
  apply keeps_bind; [by apply keeps_world_io, keeps_sleep|intros _].
  unfold DualSweep.self_measure.
  apply keeps_bind; [apply keeps_this|intros self].
  destruct (DualSweep.ammeter self) as [am|].
  - unfold DualSweep.pico_measure.
    apply keeps_bind; [apply keeps_this|intros self'].
    apply keeps_bind; [by apply keeps_world_io, keeps_measure_2400|intros f1r].
    apply keeps_bind; [by apply keeps_world_io, keeps_measure_6485|intros f2r].
    apply keeps_bind; [by apply keeps_world_io, keeps_measure_2400|intros f3r].
    apply keeps_bind; [apply keeps_lift|intros f].
    apply keeps_bind; [apply keeps_lift|intros df1].
    apply keeps_bind; [apply keeps_update|intros _].
    apply keeps_bind; [apply keeps_lift|intros df2].
    apply keeps_update.
  - unfold DualSweep.measure.
    apply keeps_bind; [apply keeps_this|intros self'].
    apply keeps_bind; [by apply keeps_world_io, keeps_measure_2400|intros f1].
    apply keeps_bind; [by apply keeps_world_io, keeps_measure_2400|intros f2].
    apply keeps_bind; [apply keeps_lift|intros df1].
    apply keeps_bind; [apply keeps_update|intros _].
    apply keeps_bind; [apply keeps_lift|intros df2].
    apply keeps_update.
Qed.

Lemma keeps_dual_loop (Q : list event → Prop) (ds : DualSweep.t) :
  (∀ e w, acquisition_event e → Q w → Q (e :: w)) →
  keeps (fun s : DualSweep.t * list event => Q s.2)
    (for_enumerate (fun i pv =>
         _ ← io (Keithley2400.set_target_voltage (DualSweep.primary_sourcemeter ds) pv);
         for_enumerate (fun j sv =>
           _ ← io (Keithley2400.set_target_voltage
                     (DualSweep.secondary_sourcemeter ds) sv);
           _ ← io (sleep (DualSweep.soak ds));
           DualSweep.self_measure i j)
         0 (SweepPoints.data (DualSweep.secondary_voltages ds)))
       0 (SweepPoints.data (DualSweep.primary_voltages ds))).
Proof.
  intros Hstable. apply keeps_for_enumerate. intros i pv.
  apply keeps_bind; [by apply keeps_world_io, keeps_set_target_voltage|intros _].
  apply keeps_for_enumerate. intros j sv. by apply keeps_dual_step.
Qed.

(** [DualSweep.execute] is its loops between the four commands that open it
    and the four that close it, and the join of the two tables; when the
    loops raise, the closing commands are not sent. *)
Lemma dual_execute_cases (ds : DualSweep.t) (w : list event) :
  let pm := DualSweep.primary_sourcemeter ds in
  let sm := DualSweep.secondary_sourcemeter ds in
  let pa := Keithley2400.meter pm in
  let sa := Keithley2400.meter sm in
  DualSweep.execute (ds, w)
  = match for_enumerate (fun i pv =>
              _ ← io (Keithley2400.set_target_voltage pm pv);
              for_enumerate (fun j sv =>
                _ ← io (Keithley2400.set_target_voltage sm sv);
                _ ← io (sleep (DualSweep.soak ds));
                DualSweep.self_measure i j)
              0 (SweepPoints.data (DualSweep.secondary_voltages ds)))
            0 (SweepPoints.data (DualSweep.primary_voltages ds))
            (ds, Sent sa (Output true) :: Sent pa (Output true)
                 :: Sent sa (SystemBeeper 2000 2) :: Sent pa (SystemBeeper 1000 1)
                 :: w) with
    | (Ok _, (ds1, w1)) =>
        (join (DualSweep.primary_df ds1)
           (add_prefix "secondary " (DualSweep.secondary_df ds1)),
         (ds1, Sent sa (Output false) :: Sent sa (SourceVoltageLevel 0)
               :: Sent pa (Output false) :: Sent pa (SourceVoltageLevel 0) :: w1))
    | (Raise e, s1) => (Raise e, s1)
    end.
Proof.
  intros pm sm pa sa. unfold DualSweep.execute. rewrite bind_run.
  unfold this at 1. cbn [fst]. fold pm sm.
  do 4 (rewrite bind_run, io_run;
        cbn [Keithley2400.beep Keithley2400.set_output_enabled
             Keithley2400.write emit]).
  fold pa sa. rewrite bind_run.
  destruct (for_enumerate _ _ _ _) as [[[]|e] [ds1 w1]]; [|done].
  do 4 (rewrite bind_run, io_run;
        cbn [Keithley2400.set_target_voltage Keithley2400.set_output_enabled
             Keithley2400.write emit]).
  reflexivity.
Qed.

End Execute.

Lemma source_delay_execute_events (a : string) (evs w : list event) :
  Forall execute_event evs → source_delay a (evs ++ w) = source_delay a w.
Proof.
  induction 1 as [|e evs He _ IH]; [done|].
  destruct e as [?|? []|? ?|?|?]; done.
Qed.

Lemma acquisition_is_execute_event (e : event) :
  acquisition_event e → execute_event e.
Proof. by destruct e as [?|? []|? ?|?|?]. Qed.

Section ExecuteFacts.
Context `{Instruments}.

(** X9: a run of [execute] that returns has shut the outputs down.  When
    [execute] of a [Sweep] or [PicoSweep] returns, the last level sent to the
    source-meter is 0 V and the last command to its output is off; the same
    holds for both source-meters of a [DualSweep] or [PicoDualSweep]. *)
Theorem execute_shuts_down :
  (∀ (sw : Sweep.t) w out sw' w',
     Sweep.execute (sw, w) = (Ok out, (sw', w')) →
     let a := Keithley2400.meter (Sweep.sourcemeter sw) in
     output_state a w' = Some false ∧ source_level a w' = Some 0) ∧
  (∀ (ds : DualSweep.t) w out ds' w',
     DualSweep.execute (ds, w) = (Ok out, (ds', w')) →
     let pa := Keithley2400.meter (DualSweep.primary_sourcemeter ds) in
     let sa := Keithley2400.meter (DualSweep.secondary_sourcemeter ds) in
     output_state pa w' = Some false ∧ source_level pa w' = Some 0 ∧
     output_state sa w' = Some false ∧ source_level sa w' = Some 0).
Proof.
  split.
  - intros sw w out sw' w'. rewrite sweep_execute_cases.
    destruct (for_enumerate _ _ _ _) as [[[]|e] [sw1 w1]]; [|done].
    intros [= <- <- <-]. simpl. by rewrite !decide_True by done.
  - intros ds w out ds' w'. rewrite dual_execute_cases.
    destruct (for_enumerate _ _ _ _) as [[[]|e] [ds1 w1]]; [|done].
    intros [= _ <- <-]. split_and!; simpl; repeat case_decide; congruence.
Qed.

(** X11: [execute] sends nothing but its own commands.  Whether it returns or
    raises, [execute] of any of the four sweeps adds to the history only
    beeps, commands to an output, source levels, sleeps and the commands,
    queries and waits of an acquisition; so the delay configured on an
    instrument is after the run what it was before. *)
Theorem execute_sends_only_its_commands :
  (∀ (sw : Sweep.t) w r sw' w',
     Sweep.execute (sw, w) = (r, (sw', w')) →
     (∃ evs, w' = (evs ++ w)%list ∧ Forall execute_event evs) ∧
     ∀ a, source_delay a w' = source_delay a w) ∧
  (∀ (ds : DualSweep.t) w r ds' w',
     DualSweep.execute (ds, w) = (r, (ds', w')) →
     (∃ evs, w' = (evs ++ w)%list ∧ Forall execute_event evs) ∧
     ∀ a, source_delay a w' = source_delay a w).
Proof.
  assert (Hdelay : ∀ w w' : list event,
            (∃ evs, w' = (evs ++ w)%list ∧ Forall execute_event evs) →
            (∃ evs, w' = (evs ++ w)%list ∧ Forall execute_event evs) ∧
            ∀ a, source_delay a w' = source_delay a w).
  { intros w w' Hevs. split; [done|]. destruct Hevs as (evs & -> & Hevs).
    intros a. by apply source_delay_execute_events. }
  assert (Hstable : ∀ w (e0 : event) (w0 : list event),
            acquisition_event e0 →
            (∃ evs, w0 = (evs ++ w)%list ∧ Forall execute_event evs) →
            ∃ evs, e0 :: w0 = (evs ++ w)%list ∧ Forall execute_event evs).
  { intros w e0 w0 He0 (evs & -> & Hevs). exists (e0 :: evs). split; [done|].
    constructor; [by apply acquisition_is_execute_event|done]. }
  split.
  - intros sw w r sw' w' Hrun. apply Hdelay. revert Hrun.
    rewrite sweep_execute_cases.
    set (a := Keithley2400.meter (Sweep.sourcemeter sw)).
    destruct (for_enumerate _ _ _ _) as [r1 [sw1 w1]] eqn:Hloop.
    assert (Hw1 : ∃ evs, w1 = (evs ++ w)%list ∧ Forall execute_event evs).
    { refine (keeps_for_enumerate
                (fun s : Sweep.t * list event =>
                   ∃ evs, s.2 = (evs ++ w)%list ∧ Forall execute_event evs)
                _ _ _ 0%nat _ _ _ _ Hloop).
      - intros i v.
        apply (keeps_sweep_step
                 (fun w0 => ∃ evs, w0 = (evs ++ w)%list ∧ Forall execute_event evs)).
        apply Hstable.
      - exists [Sent a (Output true); Sent a (SystemBeeper 1000 1)].
        split; [done|]. by repeat constructor. }
    destruct Hw1 as (evs & -> & Hevs).
    destruct r1 as [[]|e]; intros [= <- <- <-].
    + exists (Sent a (Output false) :: Sent a (SourceVoltageLevel 0) :: evs).
      split; [done|]. by repeat (constructor; [done|]).
    + by exists evs.
  - intros ds w r ds' w' Hrun. apply Hdelay. revert Hrun.
    rewrite dual_execute_cases.
    set (pa := Keithley2400.meter (DualSweep.primary_sourcemeter ds)).
    set (sa := Keithley2400.meter (DualSweep.secondary_sourcemeter ds)).
    destruct (for_enumerate _ _ _ _) as [r1 [ds1 w1]] eqn:Hloop.
    assert (Hw1 : ∃ evs, w1 = (evs ++ w)%list ∧ Forall execute_event evs).
    { refine (keeps_dual_loop
                (fun w0 => ∃ evs, w0 = (evs ++ w)%list ∧ Forall execute_event evs)
                ds _ _ _ _ _ Hloop).
      - apply Hstable.
      - exists [Sent sa (Output true); Sent pa (Output true);
                Sent sa (SystemBeeper 2000 2); Sent pa (SystemBeeper 1000 1)].
        split; [done|]. by repeat constructor. }
    destruct Hw1 as (evs & -> & Hevs).
    destruct r1 as [[]|e]; intros [= _ <- <-].
    + exists (Sent sa (Output false) :: Sent sa (SourceVoltageLevel 0)
              :: Sent pa (Output false) :: Sent pa (SourceVoltageLevel 0) :: evs).
      split; [done|]. by repeat (constructor; [done|]).
    + by exists evs.
Qed.

End ExecuteFacts.

(** A negative soak time makes the first step raise, at its sleep. *)
Lemma negative_soak_run `{Instruments} (sw : Sweep.t) (v : R) (rest : list R)
    (w : list event) :
  let a := Keithley2400.meter (Sweep.sourcemeter sw) in
  Sweep.soak sw < 0 →
  SweepPoints.data (Sweep.voltages sw) = v :: rest →
  Sweep.execute (sw, w)
  = (Raise ValueError,
     (sw, [Sent a (SourceVoltageLevel v); Sent a (Output true);
           Sent a (SystemBeeper 1000 1)] ++ w)%list).
Proof.
  intros a Hsoak Hdata. rewrite sweep_execute_cases, Hdata.
  cbn [for_enumerate]. unfold Py.bind at 1.
  rewrite bind_run, io_run.
  cbn [Keithley2400.set_target_voltage Keithley2400.write emit].
  rewrite bind_run, io_run. unfold sleep. rewrite decide_True by done.
  reflexivity.
Qed.

Lemma execute_shuts_down_witness :
  ∃ sw w0 out sw' w',
    @Sweep.init linear_only "GPIB0::24" 0 1 3 (1 / 10) 5 1 2 false "linear" []
    = (Ok sw, w0) ∧
    @Sweep.execute echo (sw, w0) = (Ok out, (sw', w')) ∧
    output_state "GPIB0::24" w' = Some false ∧
    source_level "GPIB0::24" w' = Some 0.
Proof.
  destruct (@Sweep_init_linear linear_only "GPIB0::24" 0 1 3 (1 / 10) 5 1 2 false []
              ltac:(lia)) as (pts & Hrun & Hlen).
  set (sw := Sweep.mk _ _ _ _ _) in Hrun.
  set (w0 := (_ ++ [])%list) in Hrun.
  destruct (@sweep_execute_run echo sw w0 (Z.to_nat 3) eq_refl ltac:(simpl; lra)
              (sized_empty_frame _) ltac:(simpl; lia))
    as (out & sw' & w' & Hexe & _).
  exists sw, w0, out, sw', w'. split; [exact Hrun|]. split; [exact Hexe|].
  exact (proj1 (@execute_shuts_down echo) sw w0 out sw' w' Hexe).
Defined.

Section ExecuteFails.
Context `{Instruments}.

(** X10: a negative soak time stops a sweep with its outputs on.  With a
    soak time below zero to sleep and at least one voltage to set, [execute]
    of a [Sweep] or [PicoSweep] beeps, switches the output on, sets the
    first voltage and then raises ValueError at its first sleep, the
    instrument having taken the three commands: no acquisition was started,
    and the last command to the output is on, nothing switches it off.
    [execute] of a [DualSweep] or [PicoDualSweep] with at least one voltage
    on either axis does the same with both source-meters. *)
Theorem negative_soak_leaves_outputs_on :
  (∀ (sw : Sweep.t) (v : R) (rest : list R) (w : list event),
     Sweep.soak sw < 0 →
     SweepPoints.data (Sweep.voltages sw) = v :: rest →
     let a := Keithley2400.meter (Sweep.sourcemeter sw) in
     let w' := ([Sent a (SourceVoltageLevel v); Sent a (Output true);
                 Sent a (SystemBeeper 1000 1)] ++ w)%list in
     Sweep.execute (sw, w) = (Raise ValueError, (sw, w')) ∧
     output_state a w' = Some true ∧
     initiated a w' = initiated a w) ∧
  (∀ (ds : DualSweep.t) (pv : R) (prest : list R) (sv : R) (srest : list R)
     (w : list event),
     DualSweep.soak ds < 0 →
     SweepPoints.data (DualSweep.primary_voltages ds) = pv :: prest →
     SweepPoints.data (DualSweep.secondary_voltages ds) = sv :: srest →
     let pa := Keithley2400.meter (DualSweep.primary_sourcemeter ds) in
     let sa := Keithley2400.meter (DualSweep.secondary_sourcemeter ds) in
     let w' := ([Sent sa (SourceVoltageLevel sv); Sent pa (SourceVoltageLevel pv);
                 Sent sa (Output true); Sent pa (Output true);
                 Sent sa (SystemBeeper 2000 2); Sent pa (SystemBeeper 1000 1)]
                ++ w)%list in
     DualSweep.execute (ds, w) = (Raise ValueError, (ds, w')) ∧
     output_state pa w' = Some true ∧
     output_state sa w' = Some true ∧
     initiated pa w' = initiated pa w ∧
     initiated sa w' = initiated sa w).
Proof.
  split.
  - intros sw v rest w Hsoak Hdata a w'. split; [exact (negative_soak_run sw v rest w Hsoak Hdata)|].
    unfold w'. simpl. by rewrite decide_True by done.
  - intros ds pv prest sv srest w Hsoak Hp Hs pa sa w'. split_and!.
    + rewrite dual_execute_cases, Hp. fold pa sa.
      cbn [for_enumerate]. unfold Py.bind at 1.
      rewrite bind_run, io_run.
      cbn [Keithley2400.set_target_voltage Keithley2400.write emit].
      rewrite Hs. cbn [for_enumerate]. unfold Py.bind at 1.
      rewrite bind_run, io_run.
      cbn [Keithley2400.set_target_voltage Keithley2400.write emit].
      rewrite bind_run, io_run. unfold sleep. rewrite decide_True by done.
      reflexivity.
    + unfold w'. simpl. repeat case_decide; congruence.
    + unfold w'. simpl. repeat case_decide; congruence.
    + done.
    + done.
Qed.

End ExecuteFails.

Lemma negative_soak_leaves_outputs_on_witness :
  let sw := Sweep.mk (-1) (Keithley2400.mk "GPIB0::24")
              (SweepPoints.mk [0; 1] "linear")
              (empty_frame 2 record_columns) None in
  let w' := [Sent "GPIB0::24" (SourceVoltageLevel 0); Sent "GPIB0::24" (Output true);
             Sent "GPIB0::24" (SystemBeeper 1000 1)] in
  @Sweep.execute echo (sw, []) = (Raise ValueError, (sw, w')) ∧
  output_state "GPIB0::24" w' = Some true.
Proof.
  intros sw w'.
  destruct (proj1 (@negative_soak_leaves_outputs_on echo) sw 0 [1] [])
    as (Hrun & Hout & _); [simpl; lra|reflexivity|].
  split; [exact Hrun|exact Hout].
Defined.

Lemma execute_sends_only_its_commands_witness :
  ∃ sw w0 out sw' w',
    @Sweep.init linear_only "GPIB0::24" 0 1 3 (1 / 10) 5 1 2 true "linear" []
    = (Ok sw, w0) ∧
    @Sweep.execute echo (sw, w0) = (Ok out, (sw', w')) ∧
    source_delay "GPIB0::24" w0 = Some 2 ∧
    source_delay "GPIB0::24" w' = Some 2.
Proof.
  destruct (@Sweep_init_linear linear_only "GPIB0::24" 0 1 3 (1 / 10) 5 1 2 true []
              ltac:(lia)) as (pts & Hrun & Hlen).
  set (sw := Sweep.mk _ _ _ _ _) in Hrun.
  set (w0 := (_ ++ [])%list) in Hrun.
  destruct (@sweep_execute_run echo sw w0 (Z.to_nat 3) eq_refl ltac:(simpl; lra)
              (sized_empty_frame _) ltac:(simpl; lia))
    as (out & sw' & w' & Hexe & _).
  exists sw, w0, out, sw', w'. split; [exact Hrun|]. split; [exact Hexe|].
  split; [reflexivity|].
  destruct (proj1 (@execute_sends_only_its_commands echo) sw w0 (Ok out) sw' w' Hexe)
    as [_ Hdelay].
  rewrite Hdelay. reflexivity.
Defined.

(** ** The rows of a single sweep *)

Section SweepRows.
Context `{Instruments}.

Lemma measure_2400_record (k : Keithley2400.t) (w w' : list event) (f : dict R) :
  Keithley2400.measure k w = (Ok f, w') →
  ∀ name, name ∈ record_columns → is_Some (dict_get name f).
Proof.
  unfold Keithley2400.measure. simpl.
  unfold mbind, M_bind, bind, Keithley2400.write, emit, Keithley2400.query. simpl.
  destruct (calc3_data_2400 _ _) as [vm cm]. simpl.
  destruct (calc3_data_2400 _ _) as [vs cs]. simpl.
  intros [= <- _] name Hname. unfold record_columns in Hname.
  repeat (apply elem_of_cons in Hname as [->|Hname]; [by eexists|]).
  by apply elem_of_nil in Hname.
Qed.

Lemma initiated_steps (a : string) (soak : R) (vs : list R) (w : list event) :
  initiated a (flat_map (step_events a soak) vs ++ w)
  = (length vs + initiated a w)%nat.
Proof.
  induction vs as [|v vs IH]; [done|].
  simpl. rewrite decide_True by done. simpl. by rewrite IH.
Qed.

(** The loop of [Sweep.execute] on a plain [Sweep], from index [i0] on: what
    it does to the world. *)
Lemma sweep_loop_events (sw : Sweep.t) (N : nat) :
  let sm := Sweep.sourcemeter sw in
  Sweep.ammeter sw = None →
  0 <= Sweep.soak sw →
  ∀ rest i0 df w,
    (i0 + length rest ≤ N)%nat → sized N df →
    ∃ df',
      for_enumerate (fun i voltage =>
          _ ← io (Keithley2400.set_target_voltage sm voltage);
          _ ← io (sleep (Sweep.soak sw));
          Sweep.self_measure i)
        i0 rest (with_df sw df, w)
      = (Ok tt,
         (with_df sw df',
          (flat_map (step_events (Keithley2400.meter sm) (Sweep.soak sw)) (rev rest)
             ++ w)%list)).
Proof.
  intros sm Ham Hsoak rest.
  induction rest as [|v rest IH]; intros i0 df w Hi0 Hdf.
  { by exists df. }
  simpl in Hi0.
  set (hist := Slept (Sweep.soak sw)
               :: Sent (Keithley2400.meter sm) (SourceVoltageLevel v) :: w).
  destruct (sweep_measure_step sw df hist i0 N Ham Hdf ltac:(lia))
    as (f & df1 & Hf & Hdf1 & Hrow & Hrest & Hstep).
  fold sm in Hf, Hstep.
  destruct (IH (S i0) df1 (measure_events (Keithley2400.meter sm) ++ hist)%list
              ltac:(lia) Hdf1) as (df' & Hloop).
  exists df'.
  cbn [for_enumerate]. unfold Py.bind at 1.
  rewrite bind_run, io_run. cbn [Keithley2400.set_target_voltage
    Keithley2400.write emit].
  rewrite bind_run, io_run, sleep_run by done. fold hist.
  rewrite Hstep, Hloop. do 2 f_equal.
  cbn [rev]. rewrite flat_map_app. cbn [flat_map]. rewrite app_nil_r.
  rewrite <- app_assoc. f_equal.
Qed.

(** X12: what [execute] of a plain [Sweep] does to the instrument, in full.
    With a soak time that is not negative and a result table as [__init__]
    sizes it, [execute] returns, and it has sent, in this order: the beep,
    output on, then for every voltage in turn the source level, the soak
    sleep and one acquisition, and at the end the level 0 and output off;
    nothing else.  So it starts one acquisition per voltage. *)
Theorem sweep_execute_events (sw : Sweep.t) (w : list event) (N : nat) :
  let a := Keithley2400.meter (Sweep.sourcemeter sw) in
  let voltages := SweepPoints.data (Sweep.voltages sw) in
  Sweep.ammeter sw = None →
  0 <= Sweep.soak sw →
  sized N (Sweep.df sw) → (length voltages ≤ N)%nat →
  ∃ out sw',
    Sweep.execute (sw, w)
    = (Ok out, (sw', (sweep_events a (Sweep.soak sw) voltages ++ w)%list)) ∧
    initiated a (sweep_events a (Sweep.soak sw) voltages ++ w)
    = (length voltages + initiated a w)%nat.
Proof.
  intros a voltages Ham Hsoak Hdf Hlen.
  destruct (sweep_loop_events sw N Ham Hsoak voltages 0%nat (Sweep.df sw)
              (Sent a (Output true) :: Sent a (SystemBeeper 1000 1) :: w)
              ltac:(simpl; lia) Hdf) as (df' & Hloop).
  rewrite with_df_self in Hloop.
  exists df', (with_df sw df'). split.
  - rewrite sweep_execute_cases. fold a voltages. rewrite Hloop.
    cbn [Sweep.df with_df]. do 2 f_equal. unfold sweep_events.
    by rewrite <- !app_assoc.
  - unfold sweep_events. cbn [app initiated]. rewrite <- app_assoc.
    rewrite initiated_steps, length_rev. done.
Qed.

(** X13: the rows of a plain [Sweep].  [execute] returns the result table,
    and its row [i] holds the measurement taken at the [i]-th voltage: the
    one the source-meter gives right after the soak sleep of the step, with
    its source level at that voltage; none of the four cells of the row is
    left empty. *)
Theorem sweep_rows (sw : Sweep.t) (w : list event) (N : nat) :
  let sm := Sweep.sourcemeter sw in
  let voltages := SweepPoints.data (Sweep.voltages sw) in
  Sweep.ammeter sw = None →
  0 <= Sweep.soak sw →
  sized N (Sweep.df sw) → (length voltages ≤ N)%nat →
  ∃ out sw' w',
    Sweep.execute (sw, w) = (Ok out, (sw', w')) ∧
    ∀ i v, voltages !! i = Some v →
      ∃ past f hist1,
        let hist := Slept (Sweep.soak sw) :: past in
        source_level (Keithley2400.meter sm) hist = Some v ∧
        Keithley2400.measure sm hist = (Ok f, hist1) ∧
        ∀ name, name ∈ record_columns →
          ∃ x, dict_get name f = Some x ∧ row_at out i name = Ok (Some x).
Proof.
  intros sm voltages Ham Hsoak Hdf Hlen.
  destruct (sweep_execute_run sw w N Ham Hsoak Hdf Hlen)
    as (out & sw' & w' & Hrun & _ & Hrows).
  exists out, sw', w'. split; [exact Hrun|].
  intros i v Hv. destruct (Hrows i v Hv) as (past & f & hist1 & Hlevel & Hf & Hrow).
  exists past, f, hist1. split_and!; [exact Hlevel|exact Hf|].
  intros name Hname.
  destruct (measure_2400_record _ _ _ _ Hf name Hname) as [x Hx].
  exists x. split; [exact Hx|]. rewrite <- Hx. by apply Hrow.
Qed.

End SweepRows.

Lemma sweep_execute_events_witness :
  ∃ sw w0 out sw' pts,
    @Sweep.init linear_only "GPIB0::24" 0 1 3 (1 / 10) 5 1 2 false "linear" []
    = (Ok sw, w0) ∧
    SweepPoints.data (Sweep.voltages sw) = pts ∧
    @Sweep.execute echo (sw, w0)
    = (Ok out, (sw', (sweep_events "GPIB0::24" 2 pts ++ w0)%list)) ∧
    initiated "GPIB0::24" (sweep_events "GPIB0::24" 2 pts ++ w0) = 3%nat.
Proof.
  destruct (@Sweep_init_linear linear_only "GPIB0::24" 0 1 3 (1 / 10) 5 1 2 false []
              ltac:(lia)) as (pts & Hrun & Hlen).
  set (sw := Sweep.mk _ _ _ _ _) in Hrun.
  set (w0 := (_ ++ [])%list) in Hrun.
  destruct (@sweep_execute_events echo sw w0 (Z.to_nat 3) eq_refl ltac:(simpl; lra)
              (sized_empty_frame _) ltac:(simpl; lia))
    as (out & sw' & Hexe & Hini).
  exists sw, w0, out, sw', pts. split; [exact Hrun|]. split; [reflexivity|].
  split; [exact Hexe|].
  etransitivity; [exact Hini|]. simpl. rewrite Hlen. reflexivity.
Defined.

Lemma sweep_rows_witness :
  ∃ sw w0 out sw' w' v0,
    @Sweep.init linear_only "GPIB0::24" 0 1 3 (1 / 10) 5 1 2 false "linear" []
    = (Ok sw, w0) ∧
    @Sweep.execute echo (sw, w0) = (Ok out, (sw', w')) ∧
    SweepPoints.data (Sweep.voltages sw) !! 0%nat = Some v0 ∧
    row_at out 0 "voltage" = Ok (Some v0) ∧
    row_at out 0 "current" = Ok (Some (2 * v0)).
Proof.
  destruct (@Sweep_init_linear linear_only "GPIB0::24" 0 1 3 (1 / 10) 5 1 2 false []
              ltac:(lia)) as (pts & Hrun & Hlen).
  set (sw := Sweep.mk _ _ _ _ _) in Hrun.
  set (w0 := (_ ++ [])%list) in Hrun.
  destruct (@sweep_rows echo sw w0 (Z.to_nat 3) eq_refl ltac:(simpl; lra)
              (sized_empty_frame _) ltac:(simpl; lia))
    as (out & sw' & w' & Hexe & Hrows).
  destruct pts as [|v0 pts]; [discriminate Hlen|].
  exists sw, w0, out, sw', w', v0.
  split; [exact Hrun|]. split; [exact Hexe|]. split; [reflexivity|].
  destruct (Hrows 0%nat v0 eq_refl) as (past & f & hist1 & Hlevel & Hf & Hrow).
  cbn [Sweep.sourcemeter sw Keithley2400.meter Sweep.soak] in Hlevel, Hf.
  assert (Hcells : dict_get "voltage" f = Some v0
                   ∧ dict_get "current" f = Some (2 * v0)).
  { injection Hf as <- _. cbn [dict_get String.eqb Ascii.eqb Bool.eqb fst snd].
    match type of Hlevel with
    | ?level = _ => change (source_level "GPIB0::24" _) with level
    end.
    rewrite Hlevel. done. }
  destruct Hcells as [Hv Hc]. split.
  - destruct (Hrow "voltage") as (x & Hx & Hcell).
    { unfold record_columns;
        repeat (apply list_elem_of_here || apply list_elem_of_further). }
    rewrite Hcell. rewrite Hv in Hx. by injection Hx as <-.
  - destruct (Hrow "current") as (x & Hx & Hcell).
    { unfold record_columns;
        repeat (apply list_elem_of_here || apply list_elem_of_further). }
    rewrite Hcell. rewrite Hc in Hx. by injection Hx as <-.
Defined.

(** ** The rows of a sweep with a picoammeter *)

Section PicoRows.
Context `{Instruments}.

Lemma measure_2400_shape (k : Keithley2400.t) (w : list event) :
  ∃ vm vs cm cs,
    Keithley2400.measure k w
    = (Ok [("voltage", vm); ("voltage sd", vs); ("current", cm); ("current sd", cs)],
       (measure_events (Keithley2400.meter k) ++ w)%list).
Proof.
  unfold Keithley2400.measure. simpl.
  unfold mbind, M_bind, bind, Keithley2400.write, emit, Keithley2400.query. simpl.
  destruct (calc3_data_2400 _ _) as [vm cm]. simpl.
  destruct (calc3_data_2400 _ _) as [vs cs]. simpl.
  by exists vm, vs, cm, cs.
Qed.

Lemma pair_shift {A B} (x y : A) (l : list B) (rest : list A) :
  (flat_map (fun _ => [x; y]) l ++ x :: y :: rest)%list
  = x :: y :: (flat_map (fun _ => [x; y]) l ++ rest)%list.
Proof. induction l as [|b l IH]; simpl; [done|]. by rewrite IH. Qed.

(** A step of [PicoSweep.measure]: the record that goes to row [i] has the
    voltage of the source-meter and the current of the picoammeter. *)
Lemma pico_measure_step (sw : Sweep.t) (am : Keithley6485.t)
    (df : DataFrame (option R)) (w : list event) (i N : nat) :
  let sm := Sweep.sourcemeter sw in
  Sweep.ammeter sw = Some am → 0 <= Keithley6485.soak am →
  sized N df → (i < N)%nat →
  ∃ f1 f2 df',
    let w1 := (measure_events (Keithley2400.meter sm) ++ w)%list in
    let w2 := (measure_events (Keithley6485.meter am)
                 ++ Slept (Keithley6485.soak am) :: w1)%list in
    Keithley2400.measure sm w = (Ok f1, w1) ∧
    Keithley6485.measure am w1 = (Ok f2, w2) ∧
    sized N df' ∧
    row_at df' i "voltage" = Ok (dict_get "voltage" f1) ∧
    row_at df' i "voltage sd" = Ok (dict_get "voltage sd" f1) ∧
    row_at df' i "current" = Ok (dict_get "current" f2) ∧
    row_at df' i "current sd" = Ok (dict_get "current sd" f2) ∧
    (∀ r name, r ≠ i → row_at df' r name = row_at df r name) ∧
    Sweep.self_measure i (with_df sw df, w) = (Ok tt, (with_df sw df', w2)).
Proof.
  intros sm Ham Hsoak Hdf Hi.
  destruct (measure_2400_shape sm w) as (vm & vs & cm & cs & Hf1).
  destruct (measure_6485_run am (measure_events (Keithley2400.meter sm) ++ w)%list
              Hsoak) as (cm' & cs' & Hf2).
  set (f := [("voltage", vm); ("voltage sd", vs); ("current", cm');
             ("current sd", cs')]).
  destruct (iloc_set_sized N i f df Hdf Hi) as (df' & Hset & Hdf' & Hrow & Hrest).
  eexists _, _, df'. cbn zeta.
  split; [exact Hf1|]. split; [exact Hf2|]. split; [exact Hdf'|].
  assert (Hin : ∀ name, name ∈ record_columns →
            row_at df' i name = Ok (dict_get name f)) by exact Hrow.
  split_and!.
  - apply Hin. unfold record_columns.
    repeat (apply list_elem_of_here || apply list_elem_of_further).
  - apply Hin. unfold record_columns.
    repeat (apply list_elem_of_here || apply list_elem_of_further).
  - apply Hin. unfold record_columns.
    repeat (apply list_elem_of_here || apply list_elem_of_further).
  - apply Hin. unfold record_columns.
    repeat (apply list_elem_of_here || apply list_elem_of_further).
  - exact Hrest.
  - unfold Sweep.self_measure. rewrite bind_run. unfold this at 1.
    cbn [fst Sweep.ammeter with_df]. rewrite Ham.
    unfold Sweep.pico_measure. rewrite bind_run. unfold this at 1. cbn [fst].
    rewrite bind_run, io_run.
    change (Sweep.sourcemeter (with_df sw df)) with sm. rewrite Hf1.
    rewrite bind_run, io_run, Hf2.
    rewrite bind_run. unfold lift at 1.
    change (take_current _ _) with (Ok f). cbv beta iota.
    rewrite bind_run. unfold lift at 1.
    change (Sweep.df (with_df sw df)) with df. rewrite Hset. reflexivity.
Qed.

(** The loop of [execute] on a [PicoSweep], from index [i0] on. *)
Lemma pico_loop (sw : Sweep.t) (am : Keithley6485.t) (N : nat) :
  let sm := Sweep.sourcemeter sw in
  Sweep.ammeter sw = Some am →
  0 <= Sweep.soak sw → 0 <= Keithley6485.soak am →
  ∀ rest i0 df w,
    (i0 + length rest ≤ N)%nat → sized N df →
    ∃ df' w',
      for_enumerate (fun i voltage =>
          _ ← io (Keithley2400.set_target_voltage sm voltage);
          _ ← io (sleep (Sweep.soak sw));
          Sweep.self_measure i)
        i0 rest (with_df sw df, w)
      = (Ok tt, (with_df sw df', w')) ∧
      sized N df' ∧
      sleeps w'
      = (flat_map (fun _ => [Keithley6485.soak am; Sweep.soak sw]) rest
           ++ sleeps w)%list ∧
      (∀ k v, rest !! k = Some v →
         ∃ past f1 hist1 f2 hist2,
           let hist := Slept (Sweep.soak sw) :: past in
           source_level (Keithley2400.meter sm) hist = Some v ∧
           Keithley2400.measure sm hist = (Ok f1, hist1) ∧
           Keithley6485.measure am hist1 = (Ok f2, hist2) ∧
           row_at df' (i0 + k) "voltage" = Ok (dict_get "voltage" f1) ∧
           row_at df' (i0 + k) "voltage sd" = Ok (dict_get "voltage sd" f1) ∧
           row_at df' (i0 + k) "current" = Ok (dict_get "current" f2) ∧
           row_at df' (i0 + k) "current sd" = Ok (dict_get "current sd" f2)) ∧
      (∀ r name, (r < i0)%nat → row_at df' r name = row_at df r name).
Proof.
  intros sm Ham Hsoak Hsoak' rest.
  induction rest as [|v rest IH]; intros i0 df w Hi0 Hdf.
  { exists df, w. split_and!; [done..| |done].
    intros k v Hk. by rewrite lookup_nil in Hk. }
  simpl in Hi0.
  set (hist := Slept (Sweep.soak sw)
               :: Sent (Keithley2400.meter sm) (SourceVoltageLevel v) :: w).
  destruct (pico_measure_step sw am df hist i0 N Ham Hsoak' Hdf ltac:(lia))
    as (f1 & f2 & df1 & Hf1 & Hf2 & Hdf1 & Hv & Hvs & Hc & Hcs & Hrest & Hstep).
  fold sm in Hf1, Hf2, Hstep.
  set (w2 := (measure_events (Keithley6485.meter am)
                ++ Slept (Keithley6485.soak am)
                   :: measure_events (Keithley2400.meter sm) ++ hist)%list)
    in Hf2, Hstep.
  destruct (IH (S i0) df1 w2 ltac:(lia) Hdf1)
    as (df' & w' & Hloop & Hdf' & Hsl & Hrec & Hframe).
  exists df', w'. split_and!; [|done| | |].
  - cbn [for_enumerate]. unfold Py.bind at 1.
    rewrite bind_run, io_run. cbn [Keithley2400.set_target_voltage
      Keithley2400.write emit].
    rewrite bind_run, io_run, sleep_run by done. fold hist.
    rewrite Hstep. exact Hloop.
  - rewrite Hsl. cbn [flat_map app]. apply pair_shift.
  - intros k v' Hk. destruct k as [|k]; simpl in Hk.
    + injection Hk as <-. rewrite Nat.add_0_r.
      exists (Sent (Keithley2400.meter sm) (SourceVoltageLevel v) :: w), f1,
        (measure_events (Keithley2400.meter sm) ++ hist)%list, f2, w2.
      split_and!; [|exact Hf1|exact Hf2|..].
      * simpl. by rewrite decide_True by done.
      * rewrite Hframe by lia. exact Hv.
      * rewrite Hframe by lia. exact Hvs.
      * rewrite Hframe by lia. exact Hc.
      * rewrite Hframe by lia. exact Hcs.
    + replace (i0 + S k)%nat with (S i0 + k)%nat by lia. by apply Hrec.
  - intros r name Hr. rewrite Hframe by lia. apply Hrest. lia.
Qed.

(** X14: the rows of a [PicoSweep].  With soak times that are not negative
    and a result table as [__init__] sizes it, [execute] returns the result
    table.  The two measurements of a step, which the code hands to a thread
    pool, are taken here in the order in which it submits them: that of the
    source-meter right after the soak sleep of the step, with its level at
    the step's voltage, then that of the picoammeter, which sleeps its own
    soak time first.  The row of the step holds the voltage and voltage
    deviation of the source-meter and the current and current deviation of
    the picoammeter.  The run sleeps, for every step, the sweep's soak time
    once and the picoammeter's once. *)
Theorem pico_sweep_rows (sw : Sweep.t) (am : Keithley6485.t) (w : list event)
    (N : nat) :
  let sm := Sweep.sourcemeter sw in
  let voltages := SweepPoints.data (Sweep.voltages sw) in
  Sweep.ammeter sw = Some am →
  0 <= Sweep.soak sw → 0 <= Keithley6485.soak am →
  sized N (Sweep.df sw) → (length voltages ≤ N)%nat →
  ∃ out sw' w',
    Sweep.execute (sw, w) = (Ok out, (sw', w')) ∧
    sleeps w'
    = (flat_map (fun _ => [Keithley6485.soak am; Sweep.soak sw]) voltages
         ++ sleeps w)%list ∧
    ∀ i v, voltages !! i = Some v →
      ∃ past f1 hist1 f2 hist2,
        let hist := Slept (Sweep.soak sw) :: past in
        source_level (Keithley2400.meter sm) hist = Some v ∧
        Keithley2400.measure sm hist = (Ok f1, hist1) ∧
        Keithley6485.measure am hist1 = (Ok f2, hist2) ∧
        row_at out i "voltage" = Ok (dict_get "voltage" f1) ∧
        row_at out i "voltage sd" = Ok (dict_get "voltage sd" f1) ∧
        row_at out i "current" = Ok (dict_get "current" f2) ∧
        row_at out i "current sd" = Ok (dict_get "current sd" f2).
Proof.
  intros sm voltages Ham Hsoak Hsoak' Hdf Hlen.
  set (a := Keithley2400.meter sm).
  destruct (pico_loop sw am N Ham Hsoak Hsoak' voltages 0%nat (Sweep.df sw)
              (Sent a (Output true) :: Sent a (SystemBeeper 1000 1) :: w)
              ltac:(simpl; lia) Hdf)
    as (df' & w' & Hloop & Hdf' & Hsl & Hrec & _).
  fold sm in Hloop. rewrite with_df_self in Hloop.
  exists df', (with_df sw df'),
    (Sent a (Output false) :: Sent a (SourceVoltageLevel 0) :: w').
  split_and!; [|cbn [sleeps]; rewrite Hsl; reflexivity|exact Hrec].
  rewrite sweep_execute_cases. fold sm a voltages. by rewrite Hloop.
Qed.

End PicoRows.

Lemma pico_sweep_rows_witness :
  ∃ sw w0 out sw' w',
    @PicoSweep.init linear_only "GPIB0::24" "GPIB0::22" 0 1 3 5 1 2 true "linear" []
    = (Ok sw, w0) ∧
    @Sweep.execute echo (sw, w0) = (Ok out, (sw', w')) ∧
    sleeps w' = [2; 0; 2; 0; 2; 0].
Proof.
  destruct (@Sweep_init_linear linear_only "GPIB0::24" 0 1 3 (1 / 1000000) 5 1 2
              true [] ltac:(lia)) as (pts & Hrun & Hlen).
  set (sw0 := Sweep.mk _ _ _ _ _) in Hrun.
  set (am := Keithley6485.mk "GPIB0::22" (soak_table 2 true)).
  set (sw := Sweep.set_ammeter am sw0).
  set (w0 := (init_6485 "GPIB0::22" 5 1 true
                ++ init_2400 "GPIB0::24" (1 / 1000000) 5 (soak_table 2 true) 1 true
                ++ [])%list).
  assert (Hinit : @PicoSweep.init linear_only "GPIB0::24" "GPIB0::22" 0 1 3 5 1 2
                    true "linear" [] = (Ok sw, w0)).
  { unfold PicoSweep.init. rewrite bind_run, Hrun.
    rewrite bind_run, init_6485_run. reflexivity. }
  destruct (@pico_sweep_rows echo sw am w0 (Z.to_nat 3) eq_refl
              ltac:(simpl; lra) ltac:(simpl; lra)
              (sized_empty_frame _) ltac:(simpl; lia))
    as (out & sw' & w' & Hexe & Hsl & Hrows).
  exists sw, w0, out, sw', w'.
  split; [exact Hinit|]. split; [exact Hexe|].
  rewrite Hsl. cbn [sw sw0 Sweep.set_ammeter Sweep.voltages SweepPoints.data].
  destruct pts as [|v0 [|v1 [|v2 [|v3 pts]]]]; try discriminate Hlen.
  reflexivity.
Defined.

Section PicoDualRows.
Context `{Instruments}.

(** X15: a step of a [PicoDualSweep].  [measure(i, j)] takes three
    measurements, from the primary source-meter, the picoammeter (after its
    own soak sleep) and the secondary source-meter, here in the order in
    which the code submits them to its thread pool, and stores them in row
    [i * n + j] of the two tables, [n] being the number of secondary
    voltages: the primary table gets the voltage and voltage deviation of the
    primary source-meter with the current and current deviation of the
    picoammeter, the secondary table the full record of the secondary
    source-meter; the other rows stay as they were. *)
Theorem pico_dual_measure_row (ds : DualSweep.t) (am : Keithley6485.t)
    (w : list event) (i j N : nat) :
  let pm := DualSweep.primary_sourcemeter ds in
  let sm := DualSweep.secondary_sourcemeter ds in
  let row := (i * length (SweepPoints.data (DualSweep.secondary_voltages ds)) + j)%nat in
  DualSweep.ammeter ds = Some am → 0 <= Keithley6485.soak am →
  sized N (DualSweep.primary_df ds) → sized N (DualSweep.secondary_df ds) →
  (row < N)%nat →
  ∃ f1 w1 f2 w2 f3 w3 ds',
    Keithley2400.measure pm w = (Ok f1, w1) ∧
    Keithley6485.measure am w1 = (Ok f2, w2) ∧
    Keithley2400.measure sm w2 = (Ok f3, w3) ∧
    DualSweep.self_measure i j (ds, w) = (Ok tt, (ds', w3)) ∧
    row_at (DualSweep.primary_df ds') row "voltage" = Ok (dict_get "voltage" f1) ∧
    row_at (DualSweep.primary_df ds') row "voltage sd"
    = Ok (dict_get "voltage sd" f1) ∧
    row_at (DualSweep.primary_df ds') row "current" = Ok (dict_get "current" f2) ∧
    row_at (DualSweep.primary_df ds') row "current sd"
    = Ok (dict_get "current sd" f2) ∧
    (∀ name, name ∈ record_columns →
       row_at (DualSweep.secondary_df ds') row name = Ok (dict_get name f3)) ∧
    (∀ r name, r ≠ row →
       row_at (DualSweep.primary_df ds') r name
       = row_at (DualSweep.primary_df ds) r name ∧
       row_at (DualSweep.secondary_df ds') r name
       = row_at (DualSweep.secondary_df ds) r name).
Proof.
  intros pm sm row Ham Hsoak HP HS Hrow.
  destruct (measure_2400_shape pm w) as (vm & vs & cm & cs & Hf1).
  set (w1 := (measure_events (Keithley2400.meter pm) ++ w)%list) in Hf1.
  destruct (measure_6485_run am w1 Hsoak) as (cm' & cs' & Hf2).
  set (w2 := (measure_events (Keithley6485.meter am)
                ++ Slept (Keithley6485.soak am) :: w1)%list) in Hf2.
  destruct (measure_2400_run sm w2) as [f3 Hf3].
  set (f := [("voltage", vm); ("voltage sd", vs); ("current", cm');
             ("current sd", cs')]).
  destruct (iloc_set_sized N row f _ HP Hrow) as (p' & Hsetp & _ & Hrowp & Hrestp).
  destruct (iloc_set_sized N row f3 _ HS Hrow) as (s' & Hsets & _ & Hrows & Hrests).
  eexists _, w1, _, w2, f3, _, (with_dfs ds p' s').
  split; [exact Hf1|]. split; [exact Hf2|]. split; [exact Hf3|].
  assert (Hin : ∀ name, name ∈ record_columns →
            row_at p' row name = Ok (dict_get name f)) by exact Hrowp.
  split_and!.
  - unfold DualSweep.self_measure. rewrite bind_run. unfold this at 1.
    cbn [fst]. rewrite Ham.
    unfold DualSweep.pico_measure. rewrite bind_run. unfold this at 1. cbn [fst].
    fold pm sm row.
    rewrite bind_run, io_run, Hf1. rewrite bind_run, io_run, Hf2.
    rewrite bind_run, io_run, Hf3.
    rewrite bind_run. unfold lift at 1.
    change (take_current _ _) with (Ok f). cbv beta iota.
    rewrite bind_run. unfold lift at 1. rewrite Hsetp.
    rewrite bind_run. unfold update at 1. cbn [fst snd].
    rewrite bind_run. unfold lift at 1.
    change (DualSweep.secondary_df (DualSweep.set_primary_df p' ds))
      with (DualSweep.secondary_df ds).
    rewrite Hsets. reflexivity.
  - apply Hin. unfold record_columns.
    repeat (apply list_elem_of_here || apply list_elem_of_further).
  - apply Hin. unfold record_columns.
    repeat (apply list_elem_of_here || apply list_elem_of_further).
  - apply Hin. unfold record_columns.
    repeat (apply list_elem_of_here || apply list_elem_of_further).
  - apply Hin. unfold record_columns.
    repeat (apply list_elem_of_here || apply list_elem_of_further).
  - exact Hrows.
  - intros r name Hr. split; [by apply Hrestp|by apply Hrests].
Qed.

End PicoDualRows.

Lemma pico_dual_measure_row_witness :
  let ds := DualSweep.mk 0 (Keithley2400.mk "GPIB0::24") (Keithley2400.mk "GPIB0::25")
              (SweepPoints.mk [0; 1] "linear") (SweepPoints.mk [0; 1] "linear")
              (empty_frame 4 record_columns) (empty_frame 4 record_columns)
              (Some (Keithley6485.mk "GPIB0::22" 2)) in
  ∃ ds' w' x,
    @DualSweep.self_measure echo 1 0 (ds, []) = (Ok tt, (ds', w')) ∧
    row_at (DualSweep.primary_df ds') 2 "current" = Ok (Some x).
Proof.
  intros ds.
  destruct (@pico_dual_measure_row echo ds (Keithley6485.mk "GPIB0::22" 2) [] 1 0 4
              eq_refl ltac:(simpl; lra) (sized_empty_frame 4) (sized_empty_frame 4)
              ltac:(simpl; lia))
    as (f1 & w1 & f2 & w2 & f3 & w3 & ds' & Hf1 & Hf2 & Hf3 & Hrun & _ & _ & Hc & _).
  destruct (@measure_6485_run echo (Keithley6485.mk "GPIB0::22" 2) w1
              ltac:(simpl; lra)) as (cm & cs & Hrun2).
  rewrite Hrun2 in Hf2. injection Hf2 as <- _.
  exists ds', w3, cm. split; [exact Hrun|exact Hc].
Defined.

(** ** More on [zero] *)

Section ZeroFacts.
Import Analysis.

(** [zero] without the inplace flag on a single sweep, with the store it
    leaves: the table indexed by the calibration, then the returned table. *)
Lemma zero_single_run (self : nat) (h : list (DataFrame R)) (df : DataFrame R)
    (vs cs : list R) :
  h !! self = Some df → wf df →
  columns df !! "secondary voltage" = None →
  columns df !! "voltage" = Some vs →
  columns df !! "current" = Some cs →
  NoDup vs →
  (∃ v, v ∈ vs ∧ v <= 0) →
  ∃ k v0 offset,
    vs !! k = Some v0 ∧ v0 <= 0 ∧
    (∀ v, v ∈ vs → v <= 0 → Rabs v0 <= Rabs v) ∧
    cs !! k = Some offset ∧
    zero self false h
    = (Ok (S (length h)),
       (h ++ [mkFrame (LabelIndex (Some "voltage") vs) (delete "voltage" (columns df));
              setitem "current" ((fun x => x - offset) <$> cs) df])%list).
Proof.
  intros Hself Hwf Hsec Hv Hcur Hnd Hneg.
  destruct (calibration_single self h df vs cs Hself Hwf Hsec Hv Hcur Hnd Hneg)
    as (k & v0 & offset & Hk & Hv0 & Hleast & Hoff & Hcal).
  exists k, v0, offset. split_and!; [done..|].
  rewrite (zero_run self false h _ offset df cs Hcal
             (lookup_snoc_old _ _ _ _ Hself) Hcur).
  rewrite length_app, Nat.add_1_r. by rewrite <- app_assoc.
Qed.

(** The row of the non-positive voltage closest to zero is one row. *)
Lemma reference_unique (vs : list R) (k k' : nat) (v0 v0' : R) :
  NoDup vs →
  vs !! k = Some v0 → v0 <= 0 → (∀ v, v ∈ vs → v <= 0 → Rabs v0 <= Rabs v) →
  vs !! k' = Some v0' → v0' <= 0 → (∀ v, v ∈ vs → v <= 0 → Rabs v0' <= Rabs v) →
  k = k'.
Proof.
  intros Hnd Hk Hv0 Hleast Hk' Hv0' Hleast'.
  assert (H1 : Rabs v0 <= Rabs v0').
  { apply Hleast; [by eapply list_elem_of_lookup_2|done]. }
  assert (H2 : Rabs v0' <= Rabs v0).
  { apply Hleast'; [by eapply list_elem_of_lookup_2|done]. }
  rewrite !Rabs_left1 in H1, H2 by done.
  assert (v0 = v0') as <- by lra.
  by eapply NoDup_lookup.
Qed.

Lemma wf_setitem (df : DataFrame R) (name : string) (col : list R) :
  wf df → length col = nrows df → wf (setitem name col df).
Proof.
  intros Hwf Hlen name' col' Hcol. unfold setitem in Hcol. simpl in Hcol.
  change (nrows (setitem name col df)) with (nrows df).
  destruct (decide (name' = name)) as [->|Hne].
  - rewrite lookup_insert_eq in Hcol. by injection Hcol as <-.
  - rewrite lookup_insert_ne in Hcol by done. by eapply Hwf.
Qed.

(** X16: what [zero] is for.  On a single-sweep table with distinct
    voltages, one of them not positive, the table that [zero] returns has
    current 0 in the row of the non-positive voltage closest to zero. *)
Theorem zero_reference_current (self : nat) (h : list (DataFrame R))
    (df : DataFrame R) (vs cs : list R) :
  h !! self = Some df → wf df →
  columns df !! "secondary voltage" = None →
  columns df !! "voltage" = Some vs →
  columns df !! "current" = Some cs →
  NoDup vs →
  (∃ v, v ∈ vs ∧ v <= 0) →
  ∃ k v0 op h' out,
    vs !! k = Some v0 ∧ v0 <= 0 ∧
    (∀ v, v ∈ vs → v <= 0 → Rabs v0 <= Rabs v) ∧
    zero self false h = (Ok op, h') ∧
    h' !! op = Some out ∧
    row_at out k "voltage" = Ok v0 ∧
    row_at out k "current" = Ok 0.
Proof.
  intros Hself Hwf Hsec Hv Hcur Hnd Hneg.
  destruct (zero_single_run self h df vs cs Hself Hwf Hsec Hv Hcur Hnd Hneg)
    as (k & v0 & offset & Hk & Hv0 & Hleast & Hoff & Hrun).
  exists k, v0. eexists _, _, _.
  split_and!; [done|done|done|exact Hrun| | |].
  - rewrite lookup_app_r by lia.
    replace (S (length h) - length h)%nat with 1%nat by lia. reflexivity.
  - eapply row_at_Ok; [|exact Hk]. simpl. by rewrite lookup_insert_ne.
  - eapply row_at_Ok; [simpl; apply lookup_insert_eq|].
    rewrite list_lookup_fmap, Hoff. simpl. f_equal. lra.
Qed.

(** X17: zeroing twice is zeroing once.  On a single-sweep Analysis table
    with distinct voltages, one of them not positive, [zero] returns a plain
    DataFrame, on which [zero] cannot be called (AttributeError).  Wrapped in
    [Analysis] again, [zero] on it returns a table equal to it; and [zero]
    called in place on the receiver a second time leaves the receiver as the
    first call left it. *)
Theorem zero_twice (self : nat) (h : list (DataFrame R))
    (df : DataFrame R) (vs cs : list R) :
  h !! self = Some df → wf df →
  columns df !! "secondary voltage" = None →
  columns df !! "voltage" = Some vs →
  columns df !! "current" = Some cs →
  NoDup vs →
  (∃ v, v ∈ vs ∧ v <= 0) →
  ∃ op h' out,
    call_zero (AnalysisRef self) false h = (Ok (DataFrameRef op), h') ∧
    h' !! op = Some out ∧
    call_zero (DataFrameRef op) false h' = (Raise AttributeError, h') ∧
    (∃ again h1 op2 h2,
       init (DataFrameRef op) h' = (Ok (AnalysisRef again), h1) ∧
       call_zero (AnalysisRef again) false h1 = (Ok (DataFrameRef op2), h2) ∧
       h2 !! op2 = Some out) ∧
    (∃ op1 h1 op2 h2,
       call_zero (AnalysisRef self) true h = (Ok (DataFrameRef op1), h1) ∧
       h1 !! self = Some out ∧
       call_zero (AnalysisRef self) true h1 = (Ok (DataFrameRef op2), h2) ∧
       h2 !! self = Some out).
Proof.
  intros Hself Hwf Hsec Hv Hcur Hnd Hneg.
  pose proof (lookup_lt_Some _ _ _ Hself) as Hlt.
  destruct (calibration_single self h df vs cs Hself Hwf Hsec Hv Hcur Hnd Hneg)
    as (k & v0 & offset & Hk & Hv0 & Hleast & Hoff & Hcal).
  set (cs' := (fun x => x - offset) <$> cs) in *.
  set (out := setitem "current" cs' df) in *.
  assert (Hlen : length cs' = nrows df).
  { unfold cs'. rewrite length_fmap. by eapply Hwf. }
  assert (Hwf' : wf out) by (by apply wf_setitem).
  assert (Hsec' : columns out !! "secondary voltage" = None).
  { simpl. by rewrite lookup_insert_ne. }
  assert (Hv' : columns out !! "voltage" = Some vs).
  { simpl. by rewrite lookup_insert_ne. }
  assert (Hcur' : columns out !! "current" = Some cs').
  { simpl. apply lookup_insert_eq. }
  assert (Hagain : ∀ (l : nat) (g : list (DataFrame R)) (inplace : bool),
            g !! l = Some out →
            ∃ g1, calibration l g = (Ok 0, g1) ∧
              zero l inplace g
              = (Ok (length g1),
                 if inplace then <[l := out]> (g1 ++ [out])%list
                 else (g1 ++ [out])%list) ∧
              (length g ≤ length g1)%nat).
  { intros l g inplace Hl.
    destruct (calibration_single l g out vs cs' Hl Hwf' Hsec' Hv' Hcur' Hnd Hneg)
      as (k' & v0' & offset' & Hk' & Hv0' & Hleast' & Hoff' & Hcal').
    assert (k' = k) as -> by (by eapply reference_unique).
    assert (offset' = 0) as ->.
    { unfold cs' in Hoff'. rewrite list_lookup_fmap, Hoff in Hoff'. simpl in Hoff'.
      injection Hoff' as <-. lra. }
    eexists. split; [exact Hcal'|].
    assert (Hsame : setitem "current" ((fun x => x - 0) <$> cs') out = out).
    { unfold out, setitem. simpl. rewrite insert_insert_eq. do 2 f_equal.
      rewrite <- (list_fmap_id cs') at 2. apply list_fmap_ext. intros i x _. simpl. lra. }
    split.
    - rewrite (zero_run l inplace g _ 0 out cs' Hcal'
                 (lookup_snoc_old _ _ _ _ Hl) Hcur').
      cbv zeta. rewrite Hsame. by destruct out.
    - rewrite length_app. lia. }
  pose proof (zero_run self false h _ offset df cs Hcal
                (lookup_snoc_old _ _ _ _ Hself) Hcur) as Hrun.
  cbv zeta in Hrun. fold cs' out in Hrun.
  set (h' := (_ ++ [out])%list) in Hrun.
  assert (Hop : h' !! length (h ++ [mkFrame (LabelIndex (Some "voltage") vs)
                                     (delete "voltage" (columns df))]) = Some out)
    by apply lookup_snoc.
  eexists _, h', out.
  split; [exact (call_zero_run _ _ _ (Ok _) _ Hrun)|].
  split; [exact Hop|]. split; [done|]. split.
  - destruct (Hagain (length h') (h' ++ [out])%list false (lookup_snoc _ _))
      as (g1 & _ & Hrun2 & _).
    eexists _, _, _, _. split; [exact (init_run (DataFrameRef _) _ _ Hop)|].
    split; [exact (call_zero_run _ _ _ (Ok _) _ Hrun2)|]. apply lookup_snoc.
  - pose proof (zero_run self true h _ offset df cs Hcal
                  (lookup_snoc_old _ _ _ _ Hself) Hcur) as Hrun1.
    cbv zeta in Hrun1. fold cs' out in Hrun1.
    change (mkFrame (index df) (columns out)) with out in Hrun1.
    set (h1 := <[self := out]> _) in Hrun1.
    assert (Hself1 : h1 !! self = Some out).
    { unfold h1. apply list_lookup_insert_eq. rewrite !length_app. simpl. lia. }
    destruct (Hagain self h1 true Hself1) as (g1 & _ & Hrun2 & Hlen1).
    eexists _, _, _, _. split; [exact (call_zero_run _ _ _ (Ok _) _ Hrun1)|].
    split; [exact Hself1|].
    split; [exact (call_zero_run _ _ _ (Ok _) _ Hrun2)|].
    apply list_lookup_insert_eq. rewrite length_app.
    assert (self < length h1)%nat by (by eapply lookup_lt_Some). lia.
Qed.

End ZeroFacts.

Lemma two_rows_voltages : NoDup [-1; 2] ∧ ∃ v : R, v ∈ [-1; 2] ∧ v <= 0.
Proof.
  split.
  - apply NoDup_cons. split; [|apply NoDup_singleton].
    intros Hin. apply list_elem_of_singleton in Hin. lra.
  - exists (-1). split; [apply list_elem_of_here|lra].
Qed.

Lemma zero_reference_current_witness :
  ∃ op h' out,
    Analysis.zero 0 false [two_rows] = (Ok op, h') ∧
    h' !! op = Some out ∧
    row_at out 0 "voltage" = Ok (-1) ∧
    row_at out 0 "current" = Ok 0.
Proof.
  destruct (zero_reference_current 0 [two_rows] two_rows [-1; 2] [-5; 8]
              eq_refl two_rows_wf eq_refl eq_refl eq_refl
              (proj1 two_rows_voltages) (proj2 two_rows_voltages))
    as (k & v0 & op & h' & out & Hk & Hv0 & _ & Hrun & Hout & Hv & Hc).
  exists op, h', out.
  destruct k as [|[|k]]; simpl in Hk.
  - injection Hk as <-. split_and!; [exact Hrun|exact Hout|exact Hv|exact Hc].
  - injection Hk as <-. lra.
  - discriminate Hk.
Defined.

Lemma zero_twice_witness :
  ∃ op h' out,
    Analysis.call_zero (Analysis.AnalysisRef 0) false [two_rows]
    = (Ok (Analysis.DataFrameRef op), h') ∧
    h' !! op = Some out ∧
    row_at out 0 "current" = Ok (-5 - -5) ∧
    (∃ again h1 op2 h2,
       Analysis.init (Analysis.DataFrameRef op) h'
       = (Ok (Analysis.AnalysisRef again), h1) ∧
       Analysis.call_zero (Analysis.AnalysisRef again) false h1
       = (Ok (Analysis.DataFrameRef op2), h2) ∧
       h2 !! op2 = Some out) ∧
    (∃ op1 h1 op2 h2,
       Analysis.call_zero (Analysis.AnalysisRef 0) true [two_rows]
       = (Ok (Analysis.DataFrameRef op1), h1) ∧
       h1 !! 0%nat = Some out ∧
       Analysis.call_zero (Analysis.AnalysisRef 0) true h1
       = (Ok (Analysis.DataFrameRef op2), h2) ∧
       h2 !! 0%nat = Some out).
Proof.
  destruct (zero_twice 0 [two_rows] two_rows [-1; 2] [-5; 8]
              eq_refl two_rows_wf eq_refl eq_refl eq_refl
              (proj1 two_rows_voltages) (proj2 two_rows_voltages))
    as (op & h' & out & Hrun & Hout & _ & Hagain & Hplace).
  exists op, h', out. split_and!; [exact Hrun|exact Hout| |exact Hagain|exact Hplace].
  unfold Analysis.call_zero in Hrun. rewrite bind_run in Hrun.
  pose proof (zero_run 0 false [two_rows] _ (-5) two_rows [-5; 8]
                two_rows_calibration eq_refl eq_refl) as Hzero.
  cbv zeta in Hzero. rewrite Hzero in Hrun. injection Hrun as <- <-.
  injection Hout as <-. reflexivity.
Defined.

Section ZeroErrors.
Import Analysis.

Lemma calibration_single_copy (self : nat) (h : list (DataFrame R))
    (df : DataFrame R) :
  h !! self = Some df →
  columns df !! "secondary voltage" = None →
  calibration self h = find_zero (length h) (h ++ [df])%list.
Proof.
  intros Hself Hsec. unfold calibration.
  rewrite (bind_Ok _ _ _ _ _ (has_column_run _ _ _ _ Hself)).
  unfold contains. rewrite Hsec.
  rewrite bool_decide_eq_false_2 by (by intros [? ?]).
  by rewrite (bind_Ok _ _ _ _ _ (copy_run _ _ _ Hself)).
Qed.

(** X18: [zero] needs a voltage that is not positive.  On a single-sweep
    table all of whose voltages are positive, and on one without rows, [zero]
    raises ValueError, with or without the inplace flag; the receiver stays
    as it was, and the store has gained only the copy that the calibration
    made. *)
Theorem zero_without_nonpositive_voltage (self : nat) (inplace : bool)
    (h : list (DataFrame R)) (df : DataFrame R) (vs : list R) :
  h !! self = Some df →
  columns df !! "secondary voltage" = None →
  columns df !! "voltage" = Some vs →
  (∀ v, v ∈ vs → 0 < v) →
  zero self inplace h = (Raise ValueError, (h ++ [df])%list).
Proof.
  intros Hself Hsec Hv Hpos. apply zero_no_calibration.
  rewrite (calibration_single_copy self h df Hself Hsec).
  unfold find_zero.
  rewrite (bind_Ok _ _ _ (h ++ [df])%list vs).
  2:{ rewrite (column_run _ _ _ df) by apply lookup_snoc.
      unfold getitem. by rewrite Hv. }
  rewrite filter_none; [done|]. intros v Hin Hle. specialize (Hpos v Hin). lra.
Qed.

(** X19: [zero] needs its two columns.  On a single-sweep table without a
    [voltage] column [zero] raises KeyError; on one with distinct voltages,
    one of them not positive, but without a [current] column it raises
    KeyError too; in both cases the receiver stays as it was, with or without
    the inplace flag. *)
Theorem zero_missing_column (self : nat) (inplace : bool)
    (h : list (DataFrame R)) (df : DataFrame R) :
  h !! self = Some df →
  columns df !! "secondary voltage" = None →
  (columns df !! "voltage" = None →
   zero self inplace h = (Raise KeyError, (h ++ [df])%list)) ∧
  (∀ vs, columns df !! "voltage" = Some vs →
     columns df !! "current" = None →
     NoDup vs → (∃ v, v ∈ vs ∧ v <= 0) →
     ∃ h', zero self inplace h = (Raise KeyError, h') ∧ h' !! self = Some df).
Proof.
  intros Hself Hsec. split.
  - intros Hv. apply zero_no_calibration.
    rewrite (calibration_single_copy self h df Hself Hsec).
    unfold find_zero. erewrite bind_Raise; [done|].
    rewrite (column_run _ _ _ df) by apply lookup_snoc.
    unfold getitem. by rewrite Hv.
  - intros vs Hv Hcur Hnd (v & Hvin & Hvle).
    destruct (min_abs_spec (filter (fun v => v <= 0) vs)) as (m & Hmin & Hm & _).
    { intros Hnil. eapply (filter_nil_not_elem_of _ _ v); done. }
    apply list_elem_of_filter in Hm as [_ Hm].
    apply list_elem_of_lookup in Hm as [k Hk].
    set (df1 := mkFrame (LabelIndex (Some "voltage") vs)
                  (delete "voltage" (columns df))).
    exists (h ++ [df1])%list. split; [|by apply lookup_snoc_old].
    apply zero_no_calibration.
    rewrite (calibration_single_copy self h df Hself Hsec).
    unfold find_zero.
    rewrite (bind_Ok _ _ _ (h ++ [df])%list vs).
    2:{ rewrite (column_run _ _ _ df) by apply lookup_snoc.
        unfold getitem. by rewrite Hv. }
    rewrite (bind_Ok _ _ _ (h ++ [df])%list m) by (unfold lift; by rewrite Hmin).
    rewrite (bind_Ok _ _ _ (h ++ [df])%list m) by (unfold lift; by rewrite Hmin).
    rewrite (bind_Ok _ _ _ (h ++ [df1])%list tt).
    2:{ unfold set_index_inplace.
        rewrite (bind_Ok _ _ _ _ _ (load_run _ _ _ (lookup_snoc h df))).
        rewrite (bind_Ok _ _ _ (h ++ [df])%list df1).
        - unfold save. by rewrite insert_snoc.
        - unfold lift, set_index. by rewrite Hv. }
    erewrite bind_Raise; [done|].
    unfold at_cell. rewrite (bind_Ok _ _ _ _ _ (load_run _ _ _ (lookup_snoc h df1))).
    unfold lift, at_. simpl. rewrite (positions_unique _ _ k) by done.
    unfold row_at. simpl. rewrite lookup_delete_ne by done. by rewrite Hcur.
Qed.

End ZeroErrors.

Lemma zero_without_nonpositive_voltage_witness :
  let df := mkFrame (RangeIndex 2)
              (list_to_map [("voltage", [1; 2]); ("current", [3; 4])]) in
  Analysis.zero 0 true [df] = (Raise ValueError, [df; df]).
Proof.
  intros df.
  apply (zero_without_nonpositive_voltage 0 true [df] df [1; 2]
           eq_refl eq_refl eq_refl).
  intros v Hin.
  apply elem_of_cons in Hin as [->|Hin]; [lra|].
  apply list_elem_of_singleton in Hin as ->. lra.
Defined.

Lemma zero_missing_column_witness :
  let df := mkFrame (RangeIndex 2) (list_to_map [("voltage", [-1; 2])]) in
  ∃ h', Analysis.zero 0 false [df] = (Raise KeyError, h') ∧ h' !! 0%nat = Some df.
Proof.
  intros df.
  apply (proj2 (zero_missing_column 0 false [df] df eq_refl eq_refl) [-1; 2]
           eq_refl eq_refl (proj1 two_rows_voltages) (proj2 two_rows_voltages)).
Defined.

(** ** [zero] and [invert_current] together *)

Section ZeroInvert.
Import Analysis.

Lemma inverted_primary (df : DataFrame R) (cur : list R) :
  columns df !! "current" = Some cur →
  inverted true false df = setitem "current" ((fun x => x * -1) <$> cur) df.
Proof.
  intros Hcur. unfold inverted. rewrite Hcur. simpl.
  by rewrite andb_false_r.
Qed.

(** X20: [zero] and [invert_current] commute.  On a single-sweep Analysis
    table with distinct voltages, one of them not positive, zeroing and then
    inverting the current gives a table equal to the one that inverting and
    then zeroing gives; the table that the first call returns, a plain
    DataFrame, is each time wrapped in [Analysis] again for the second
    call. *)
Theorem zero_invert_commute (self : nat) (h : list (DataFrame R))
    (df : DataFrame R) (vs cs : list R) :
  h !! self = Some df → wf df →
  columns df !! "secondary voltage" = None →
  columns df !! "voltage" = Some vs →
  columns df !! "current" = Some cs →
  NoDup vs →
  (∃ v, v ∈ vs ∧ v <= 0) →
  ∃ z h1 az h2 zi h3 i h4 ai h5 iz h6 out,
    call_zero (AnalysisRef self) false h = (Ok (DataFrameRef z), h1) ∧
    init (DataFrameRef z) h1 = (Ok (AnalysisRef az), h2) ∧
    call_invert_current (AnalysisRef az) true false false h2
    = (Ok (DataFrameRef zi), h3) ∧
    call_invert_current (AnalysisRef self) true false false h
    = (Ok (DataFrameRef i), h4) ∧
    init (DataFrameRef i) h4 = (Ok (AnalysisRef ai), h5) ∧
    call_zero (AnalysisRef ai) false h5 = (Ok (DataFrameRef iz), h6) ∧
    h3 !! zi = Some out ∧
    h6 !! iz = Some out.
Proof.
  intros Hself Hwf Hsec Hv Hcur Hnd Hneg.
  destruct (zero_single_run self h df vs cs Hself Hwf Hsec Hv Hcur Hnd Hneg)
    as (k & v0 & offset & Hk & Hv0 & Hleast & Hoff & Hz).
  set (zs := (fun x => x - offset) <$> cs) in *.
  set (Z := setitem "current" zs df) in *.
  set (h1 := (h ++ [_; Z])%list) in *.
  assert (HZ : h1 !! S (length h) = Some Z).
  { unfold h1. rewrite lookup_app_r by lia.
    replace (S (length h) - length h)%nat with 1%nat by lia. reflexivity. }
  pose proof (invert_current_run (length h1) true false false (h1 ++ [Z])%list Z
                (lookup_snoc _ _)
                (fun _ => mk_is_Some _ _ (lookup_insert_eq _ _ _))) as Hzi.
  rewrite (inverted_primary Z zs (lookup_insert_eq _ _ _)) in Hzi.
  pose proof (invert_current_run self true false false h df Hself
                (fun _ => mk_is_Some _ _ Hcur)) as Hi.
  rewrite (inverted_primary df cs Hcur) in Hi.
  set (ns := (fun x => x * -1) <$> cs) in *.
  set (I := setitem "current" ns df) in *.
  assert (Hlen : length ns = nrows df).
  { unfold ns. rewrite length_fmap. by eapply Hwf. }
  destruct (zero_single_run (length (h ++ [I])) ((h ++ [I]) ++ [I])%list I vs ns
              (lookup_snoc _ _) (wf_setitem df "current" ns Hwf Hlen))
    as (k' & v0' & offset' & Hk' & Hv0' & Hleast' & Hoff' & Hiz); [..|done|done|].
  { simpl. by rewrite lookup_insert_ne. }
  { simpl. by rewrite lookup_insert_ne. }
  { simpl. apply lookup_insert_eq. }
  assert (k' = k) as -> by (by eapply reference_unique).
  assert (offset' = offset * -1) as ->.
  { unfold ns in Hoff'. rewrite list_lookup_fmap, Hoff in Hoff'. simpl in Hoff'.
    by injection Hoff' as <-. }
  eexists _, _, _, _, _, _, _, _, _, _, _, _, _.
  split; [exact (call_zero_run _ _ _ (Ok _) _ Hz)|].
  split; [exact (init_run (DataFrameRef _) _ _ HZ)|].
  split; [exact (call_invert_current_run _ _ _ _ _ (Ok _) _ Hzi)|].
  split; [exact (call_invert_current_run _ _ _ _ _ (Ok _) _ Hi)|].
  split; [exact (init_run (DataFrameRef _) _ _ (lookup_snoc _ _))|].
  split; [exact (call_zero_run _ _ _ (Ok _) _ Hiz)|].
  split; [apply lookup_snoc|].
  rewrite lookup_app_r by lia.
  replace (S (length ((h ++ [I]) ++ [I])) - length ((h ++ [I]) ++ [I]))%nat
    with 1%nat by lia.
  simpl. f_equal. unfold Z, I, setitem. simpl. rewrite !insert_insert_eq.
  do 2 f_equal. unfold ns, zs. rewrite <- !list_fmap_compose.
  apply list_fmap_ext. intros j x _. simpl. lra.
Qed.

(** X21: [invert_current] and the columns it needs.  With [primary] true, a
    table without a [current] column makes it raise KeyError, and the
    receiver stays as it was even with the inplace flag.  With [primary]
    false no [current] column is needed; and with [secondary] false, or on a
    table without a [secondary current] column, the table returned is then a
    copy equal to the receiver: a secondary inversion of a table that has no
    secondary current is no error. *)
Theorem invert_current_columns (self : nat) (h : list (DataFrame R))
    (df : DataFrame R) :
  h !! self = Some df →
  (∀ secondary inplace,
     columns df !! "current" = None →
     invert_current self true secondary inplace h
     = (Raise KeyError, (h ++ [df])%list)) ∧
  (∀ secondary,
     secondary = false ∨ columns df !! "secondary current" = None →
     invert_current self false secondary false h
     = (Ok (length h), (h ++ [df])%list)).
Proof.
  intros Hself. split.
  - intros secondary inplace Hcur. by apply invert_current_KeyError.
  - intros secondary Hsec.
    rewrite (invert_current_run self false secondary false h df Hself) by done.
    do 3 f_equal. unfold inverted, contains.
    destruct Hsec as [->|Hsec]; [by rewrite andb_false_r|].
    rewrite Hsec. by rewrite bool_decide_eq_false_2 by (by intros [? ?]).
Qed.

End ZeroInvert.

Lemma zero_invert_commute_witness :
  ∃ z h1 az h2 zi h3 i h4 ai h5 iz h6 out,
    Analysis.call_zero (Analysis.AnalysisRef 0) false [two_rows]
    = (Ok (Analysis.DataFrameRef z), h1) ∧
    Analysis.init (Analysis.DataFrameRef z) h1 = (Ok (Analysis.AnalysisRef az), h2) ∧
    Analysis.call_invert_current (Analysis.AnalysisRef az) true false false h2
    = (Ok (Analysis.DataFrameRef zi), h3) ∧
    Analysis.call_invert_current (Analysis.AnalysisRef 0) true false false [two_rows]
    = (Ok (Analysis.DataFrameRef i), h4) ∧
    Analysis.init (Analysis.DataFrameRef i) h4 = (Ok (Analysis.AnalysisRef ai), h5) ∧
    Analysis.call_zero (Analysis.AnalysisRef ai) false h5
    = (Ok (Analysis.DataFrameRef iz), h6) ∧
    h3 !! zi = Some out ∧
    h6 !! iz = Some out.
Proof.
  exact (zero_invert_commute 0 [two_rows] two_rows [-1; 2] [-5; 8]
           eq_refl two_rows_wf eq_refl eq_refl eq_refl
           (proj1 two_rows_voltages) (proj2 two_rows_voltages)).
Defined.

Lemma invert_current_columns_witness :
  let df := mkFrame (RangeIndex 2) (list_to_map [("voltage", [-1; 2])]) in
  Analysis.invert_current 0 true false true [df] = (Raise KeyError, [df; df]) ∧
  Analysis.invert_current 0 false true false [df] = (Ok 1%nat, [df; df]).
Proof.
  intros df.
  destruct (invert_current_columns 0 [df] df eq_refl) as [Hraise Hcopy].
  split.
  - exact (Hraise false true eq_refl).
  - exact (Hcopy true (or_intror eq_refl)).
Defined.

(** ** [zero] on a dual sweep *)

Section ZeroDual.
Import Analysis.

Lemma select_length {A B} (mask : list bool) (xs : list A) (ys : list B) :
  length xs = length ys → length (select mask xs) = length (select mask ys).
Proof.
  revert xs ys. induction mask as [|b mask IH]; intros [|x xs] [|y ys] Hlen;
    try done.
  simpl in *. destruct b; simpl; rewrite (IH xs ys); congruence.
Qed.

Lemma wf_getitem_mask (mask : list bool) (df : DataFrame R) :
  wf df → wf (getitem_mask mask df).
Proof.
  intros Hwf name col Hcol. unfold getitem_mask in *. simpl in Hcol.
  rewrite lookup_fmap in Hcol.
  destruct (columns df !! name) as [col0|] eqn:Hcol0; [|done].
  injection Hcol as <-. unfold nrows. simpl.
  apply select_length. by apply (Hwf name).
Qed.

Lemma elem_of_unique (x : R) (xs : list R) : x ∈ unique xs → x ∈ xs.
Proof.
  induction xs as [|y xs IH]; simpl; [done|].
  intros Hin. apply elem_of_cons in Hin as [->|Hin]; [apply list_elem_of_here|].
  apply list_elem_of_filter in Hin as [_ Hin]. by apply list_elem_of_further, IH.
Qed.

(** One round of the loop of [zero] over the secondary voltages. *)
Lemma calibration_round (self : nat) (hc : list (DataFrame R)) (df : DataFrame R)
    (sec vs cs : list R) (sv : R) :
  hc !! self = Some df → wf df →
  columns df !! "secondary voltage" = Some sec →
  columns df !! "voltage" = Some vs →
  columns df !! "current" = Some cs →
  NoDup (group sv sec vs) →
  (∃ v, v ∈ group sv sec vs ∧ v <= 0) →
  ∃ offset junk,
    reference (group sv sec vs) (group sv sec cs) offset ∧
    (sec' ← column self "secondary voltage";
     op ← rows_where self (map (fun x => bool_decide (x = sv)) sec');
     op' ← copy op;
     find_zero op') hc
    = (Ok offset, (hc ++ junk)%list).
Proof.
  intros Hself Hwf Hsec Hv Hcur Hnd Hneg.
  set (mask := map (fun x => bool_decide (x = sv)) sec).
  set (G := getitem_mask mask df).
  destruct (find_zero_run (S (length hc)) (hc ++ [G; G])%list G
              (group sv sec vs) (group sv sec cs))
    as (j & v0 & offset & Hj & Hv0 & Hleast & Hoff & Hrun); [..|done|done|].
  { rewrite lookup_app_r by lia.
    replace (S (length hc) - length hc)%nat with 1%nat by lia. reflexivity. }
  { by apply wf_getitem_mask. }
  { unfold G, getitem_mask. simpl. by rewrite lookup_fmap, Hv. }
  { unfold G, getitem_mask. simpl. by rewrite lookup_fmap, Hcur. }
  exists offset. eexists. split; [by exists j, v0|].
  rewrite (bind_Ok _ _ _ hc sec).
  2:{ rewrite (column_run _ _ _ df) by done. unfold getitem. by rewrite Hsec. }
  rewrite (bind_Ok _ _ _ (hc ++ [G])%list (length hc)).
  2:{ unfold rows_where. by rewrite (bind_Ok _ _ _ _ _ (load_run _ _ _ Hself)). }
  rewrite (bind_Ok _ _ _ (hc ++ [G; G])%list (S (length hc))).
  2:{ rewrite (copy_run _ _ G) by apply lookup_snoc.
      rewrite length_app, Nat.add_1_r. by rewrite <- app_assoc. }
  rewrite Hrun.
  replace (S (length hc)) with (length hc + 1)%nat by lia.
  by rewrite insert_app_r.
Qed.

Lemma calibration_rounds (self : nat) (df : DataFrame R) (sec vs cs : list R)
    (svs : list R) :
  wf df →
  columns df !! "secondary voltage" = Some sec →
  columns df !! "voltage" = Some vs →
  columns df !! "current" = Some cs →
  (∀ sv, sv ∈ svs →
     NoDup (group sv sec vs) ∧ ∃ v, v ∈ group sv sec vs ∧ v <= 0) →
  ∀ hc, hc !! self = Some df →
  ∃ offsets junk,
    Forall2 (fun sv offset => reference (group sv sec vs) (group sv sec cs) offset)
      svs offsets ∧
    mapM (fun sv =>
            sec' ← column self "secondary voltage";
            op ← rows_where self (map (fun x => bool_decide (x = sv)) sec');
            op' ← copy op;
            find_zero op') svs hc
    = (Ok offsets, (hc ++ junk)%list).
Proof.
  intros Hwf Hsec Hv Hcur. induction svs as [|sv svs IH]; intros Hgroups hc Hself.
  { exists [], []. split; [constructor|]. by rewrite app_nil_r. }
  destruct (Hgroups sv (list_elem_of_here _ _)) as [Hnd Hneg].
  destruct (calibration_round self hc df sec vs cs sv Hself Hwf Hsec Hv Hcur Hnd Hneg)
    as (offset & junk & Href & Hround).
  destruct (IH (fun sv' Hin => Hgroups sv' (list_elem_of_further _ _ _ Hin))
              (hc ++ junk)%list (lookup_app_l_Some _ _ _ _ Hself))
    as (offsets & junk' & Hrefs & Hrest).
  exists (offset :: offsets), (junk ++ junk')%list. split; [by constructor|].
  cbn [mapM]. rewrite (bind_Ok _ _ _ _ _ Hround).
  rewrite (bind_Ok _ _ _ _ _ Hrest). by rewrite app_assoc.
Qed.

(** X22: [zero] on a dual sweep.  On a table with a [secondary voltage]
    column, every sub-sweep of which (the rows of one secondary voltage) has
    distinct voltages, one of them not positive, [zero] returns the original
    table with one offset subtracted from every current: the mean, over the
    distinct secondary voltages in the order of their first appearance, of
    the current that the sub-sweep has in the row of its non-positive voltage
    closest to zero. *)
Theorem zero_dual_sweep (self : nat) (inplace : bool) (h : list (DataFrame R))
    (df : DataFrame R) (sec vs cs : list R) :
  h !! self = Some df → wf df →
  columns df !! "secondary voltage" = Some sec →
  columns df !! "voltage" = Some vs →
  columns df !! "current" = Some cs →
  (∀ sv, sv ∈ sec →
     NoDup (group sv sec vs) ∧ ∃ v, v ∈ group sv sec vs ∧ v <= 0) →
  ∃ offsets op h' out,
    Forall2 (fun sv offset => reference (group sv sec vs) (group sv sec cs) offset)
      (unique sec) offsets ∧
    zero self inplace h = (Ok op, h') ∧
    h' !! op = Some out ∧
    index out = index df ∧
    columns out = <["current" := (fun x => x - mean offsets) <$> cs]> (columns df).
Proof.
  intros Hself Hwf Hsec Hv Hcur Hgroups.
  destruct (calibration_rounds self df sec vs cs (unique sec) Hwf Hsec Hv Hcur
              (fun sv Hin => Hgroups sv (elem_of_unique _ _ Hin)) h Hself)
    as (offsets & junk & Hrefs & Hrounds).
  assert (Hcal : calibration self h = (Ok (mean offsets), (h ++ junk)%list)).
  { unfold calibration.
    rewrite (bind_Ok _ _ _ _ _ (has_column_run _ _ _ _ Hself)).
    unfold contains. rewrite Hsec.
    rewrite bool_decide_eq_true_2 by (by eexists).
    rewrite (bind_Ok _ _ _ h sec).
    2:{ rewrite (column_run _ _ _ df) by done. unfold getitem. by rewrite Hsec. }
    by rewrite (bind_Ok _ _ _ _ _ Hrounds). }
  pose proof (zero_run self inplace h _ (mean offsets) df cs Hcal
                (lookup_app_l_Some _ _ _ _ Hself) Hcur) as Hrun.
  simpl in Hrun.
  exists offsets.
  eexists _, _, (setitem "current" ((fun x => x - mean offsets) <$> cs) df).
  split_and!; [exact Hrefs|exact Hrun| |reflexivity|reflexivity].
  destruct inplace.
  - rewrite list_lookup_insert_ne.
    + apply lookup_snoc.
    + apply lookup_lt_Some in Hself. rewrite length_app. lia.
  - apply lookup_snoc.
Qed.

End ZeroDual.

Lemma two_groups_wf : wf two_groups.
Proof. apply wf_list_to_map. repeat constructor. Qed.

Lemma two_groups_sub_sweeps {A} (sv : R) (a b c d : A) :
  sv ∈ [0; 0; 1; 1] →
  sv = 0 ∧ group sv [0; 0; 1; 1] [a; b; c; d] = [a; b] ∨
  sv = 1 ∧ group sv [0; 0; 1; 1] [a; b; c; d] = [c; d].
Proof.
  intros Hin. unfold group. simpl.
  repeat (apply elem_of_cons in Hin as [->|Hin]);
    [left|left|right|right|by apply elem_of_nil in Hin];
    (split; [done|]);
    rewrite ?(bool_decide_eq_true_2 (0 = 0)), ?(bool_decide_eq_true_2 (1 = 1)),
      ?(bool_decide_eq_false_2 (0 = 1)), ?(bool_decide_eq_false_2 (1 = 0))
      by lra; done.
Qed.

Lemma two_groups_unique : unique [0; 0; 1; 1] = [0; 1].
Proof.
  simpl.
  rewrite (filter_cons_False (fun y => y ≠ 1) 1) by (intros Hne; by apply Hne).
  rewrite filter_nil.
  rewrite (filter_cons_True (fun y => y ≠ 0) 1) by lra.
  rewrite filter_nil.
  rewrite (filter_cons_False (fun y => y ≠ 0) 0) by (intros Hne; by apply Hne).
  rewrite (filter_cons_True (fun y => y ≠ 0) 1) by lra.
  by rewrite filter_nil.
Qed.

Lemma zero_dual_sweep_witness :
  ∃ op h' out,
    Analysis.zero 0 false [two_groups] = (Ok op, h') ∧
    h' !! op = Some out ∧
    columns out !! "voltage" = Some [-1; 1; -1; 1] ∧
    columns out !! "current" = Some [1 - 2; 2 - 2; 3 - 2; 4 - 2].
Proof.
  destruct (zero_dual_sweep 0 false [two_groups] two_groups
              [0; 0; 1; 1] [-1; 1; -1; 1] [1; 2; 3; 4]
              eq_refl two_groups_wf eq_refl eq_refl eq_refl)
    as (offsets & op & h' & out & Hrefs & Hrun & Hout & _ & Hcols).
  { intros sv Hin.
    destruct (two_groups_sub_sweeps sv (-1) 1 (-1) 1 Hin) as [[_ ->]|[_ ->]].
    - split; [|exists (-1); split; [apply list_elem_of_here|lra]].
      apply NoDup_cons. split; [|apply NoDup_singleton].
      intros Hin'. apply list_elem_of_singleton in Hin'. lra.
    - split; [|exists (-1); split; [apply list_elem_of_here|lra]].
      apply NoDup_cons. split; [|apply NoDup_singleton].
      intros Hin'. apply list_elem_of_singleton in Hin'. lra. }
  exists op, h', out. split_and!; [exact Hrun|exact Hout| |].
  - rewrite Hcols. reflexivity.
  - rewrite Hcols, lookup_insert_eq. f_equal.
    assert (Hmean : mean offsets = 2).
    { rewrite two_groups_unique in Hrefs.
      apply Forall2_cons_inv_l in Hrefs as (o0 & rest & Href0 & Hrefs & ->).
      apply Forall2_cons_inv_l in Hrefs as (o1 & rest' & Href1 & Hrefs & ->).
      apply Forall2_nil_inv_l in Hrefs as ->.
      destruct (two_groups_sub_sweeps 0 (-1) 1 (-1) 1 (list_elem_of_here _ _))
        as [[_ Hv0]|[Hne _]]; [|lra].
      destruct (two_groups_sub_sweeps 0 1 2 3 4 (list_elem_of_here _ _))
        as [[_ Hc0]|[Hne _]]; [|lra].
      assert (Hin1 : 1 ∈ [0; 0; 1; 1])
        by (repeat (apply list_elem_of_here || apply list_elem_of_further)).
      destruct (two_groups_sub_sweeps 1 (-1) 1 (-1) 1 Hin1)
        as [[Hne _]|[_ Hv1]]; [lra|].
      destruct (two_groups_sub_sweeps 1 1 2 3 4 Hin1)
        as [[Hne _]|[_ Hc1]]; [lra|].
      rewrite Hv0, Hc0 in Href0. rewrite Hv1, Hc1 in Href1.
      destruct Href0 as (j0 & v0 & Hj0 & Hle0 & _ & Ho0).
      destruct Href1 as (j1 & v1 & Hj1 & Hle1 & _ & Ho1).
      assert (o0 = 1) as ->.
      { destruct j0 as [|[|j0]]; simpl in Hj0, Ho0; [congruence| |done].
        injection Hj0 as <-. lra. }
      assert (o1 = 3) as ->.
      { destruct j1 as [|[|j1]]; simpl in Hj1, Ho1; [congruence| |done].
        injection Hj1 as <-. lra. }
      unfold mean. simpl. lra. }
    rewrite Hmean. reflexivity.
Defined.

(** ** More on the Fowler-Nordheim transform *)

Section FowlerNordheimTable.
Import Analysis.
#[local] Arguments pow : simpl never.

Lemma mapM_ext {A B} (f g : A → result B) (l : list A) :
  (∀ x, x ∈ l → f x = g x) → mapM f l = mapM g l.
Proof.
  induction l as [|x l IH]; intros Hfg; simpl; [done|].
  rewrite Hfg by apply list_elem_of_here.
  rewrite IH; [done|]. intros y Hy. apply Hfg. by apply list_elem_of_further.
Qed.

(** The table that the transform returns, column by column. *)
Lemma fowler_nordheim_run (self : DataFrame R) (vn cn : string)
    (vs vsds cs csds : list R) :
  wf self →
  columns self !! vn = Some vs →
  columns self !! (vn +:+ " sd") = Some vsds →
  columns self !! cn = Some cs →
  columns self !! (cn +:+ " sd") = Some csds →
  let V i := default 0 (vs !! i) in
  let VS i := default 0 (vsds !! i) in
  let C i := default 0 (cs !! i) in
  let CS i := default 0 (csds !! i) in
  let cols : gmap string (list cell) :=
    <["fn_x" := (fun i => fn_x_cell (V i)) <$> seq 0 (nrows self)]>
      (<["fn_x sd" := (fun i => fn_x_sd_cell (V i) (VS i)) <$> seq 0 (nrows self)]>
        (<["fn_y" := (fun i => fn_y_cell (V i) (C i)) <$> seq 0 (nrows self)]>
          (<["fn_y sd" := (fun i => fn_y_sd_cell (C i) (CS i) (V i) (VS i))
                            <$> seq 0 (nrows self)]> ∅))) in
  fowler_nordheim_transform self vn cn
  = Ok (mkFrame (index self)
          match columns self !! "secondary voltage" with
          | Some sec => <["secondary voltage" := (fun v => Some (Float v)) <$> sec]> cols
          | None => cols
          end).
Proof.
  intros Hwf Hv Hvsd Hc Hcsd V VS C CS cols.
  assert (Hrow : ∀ i, (i < nrows self)%nat →
            row_at self i vn = Ok (V i) ∧ row_at self i (vn +:+ " sd") = Ok (VS i) ∧
            row_at self i cn = Ok (C i) ∧ row_at self i (cn +:+ " sd") = Ok (CS i)).
  { intros i Hi. unfold V, VS, C, CS.
    destruct (wf_lookup _ _ _ i Hwf Hv Hi) as [a Ha].
    destruct (wf_lookup _ _ _ i Hwf Hvsd Hi) as [b Hb].
    destruct (wf_lookup _ _ _ i Hwf Hc Hi) as [c Hc'].
    destruct (wf_lookup _ _ _ i Hwf Hcsd Hi) as [d Hd].
    rewrite Ha, Hb, Hc', Hd. simpl.
    repeat split; eapply row_at_Ok; eauto. }
  assert (E1 : apply_rows (fun x => v ← x vn; x_transform v) self
               = Ok ((fun i => fn_x_cell (V i)) <$> seq 0 (nrows self))).
  { apply apply_rows_Ok. intros i Hi. destruct (Hrow i Hi) as (-> & _). simpl.
    apply x_transform_eq. }
  assert (E2 : apply_rows (fun x => v ← x vn; vsd ← x (vn +:+ " sd"); x_sd v vsd) self
               = Ok ((fun i => fn_x_sd_cell (V i) (VS i)) <$> seq 0 (nrows self))).
  { apply apply_rows_Ok. intros i Hi. destruct (Hrow i Hi) as (-> & -> & _).
    simpl. apply x_sd_eq. }
  assert (E3 : apply_rows (fun x => v ← x vn; c ← x cn; y_transform v c) self
               = Ok ((fun i => fn_y_cell (V i) (C i)) <$> seq 0 (nrows self))).
  { apply apply_rows_Ok. intros i Hi. destruct (Hrow i Hi) as (-> & _ & -> & _).
    simpl. apply y_transform_eq. }
  assert (E4 : apply_rows (fun x => c ← x cn; csd ← x (cn +:+ " sd");
                             v ← x vn; vsd ← x (vn +:+ " sd"); y_sd c csd v vsd) self
               = Ok ((fun i => fn_y_sd_cell (C i) (CS i) (V i) (VS i))
                       <$> seq 0 (nrows self))).
  { apply apply_rows_Ok. intros i Hi. destruct (Hrow i Hi) as (-> & -> & -> & ->).
    simpl. apply y_sd_eq. }
  unfold fowler_nordheim_transform. rewrite E1. simpl. rewrite E2. simpl.
  rewrite E3. simpl. rewrite E4. simpl. fold cols.
  unfold contains, getitem.
  destruct (columns self !! "secondary voltage") as [sec|] eqn:Hsec.
  - rewrite bool_decide_eq_true_2 by (by eexists). done.
  - rewrite bool_decide_eq_false_2 by (by intros [? ?]). done.
Qed.

(** X23: the table of the transform.  On a table with the voltage, current
    and deviation columns, the table returned has the row labels of the
    original and as many cells in every column as the original has rows; its
    columns are [fn_x], [fn_x sd], [fn_y] and [fn_y sd] and, when the
    original has a [secondary voltage] column, that column, with the values
    it has in the original; it has no other column. *)
Theorem fowler_nordheim_table (self : DataFrame R) (vn cn : string)
    (vs vsds cs csds : list R) :
  wf self →
  columns self !! vn = Some vs →
  columns self !! (vn +:+ " sd") = Some vsds →
  columns self !! cn = Some cs →
  columns self !! (cn +:+ " sd") = Some csds →
  ∃ out, fowler_nordheim_transform self vn cn = Ok out ∧
    index out = index self ∧
    wf out ∧
    (∀ name, is_Some (columns out !! name) ↔
       name ∈ ["fn_x"; "fn_x sd"; "fn_y"; "fn_y sd"] ∨
       name = "secondary voltage" ∧ is_Some (columns self !! "secondary voltage")) ∧
    columns out !! "secondary voltage"
    = fmap (fun v => Some (Float v)) <$> columns self !! "secondary voltage".
Proof.
  intros Hwf Hv Hvsd Hc Hcsd.
  rewrite (fowler_nordheim_run self vn cn vs vsds cs csds Hwf Hv Hvsd Hc Hcsd).
  cbv zeta. set (cols := <["fn_x" := _]> _).
  assert (Hcols : ∀ name col, cols !! name = Some col →
            name ∈ ["fn_x"; "fn_x sd"; "fn_y"; "fn_y sd"] ∧ length col = nrows self).
  { intros name col. unfold cols.
    repeat (rewrite lookup_insert; case_decide;
            [subst name; intros [= <-]; split;
               [repeat (apply list_elem_of_here || apply list_elem_of_further)
               |by rewrite length_fmap, length_seq]|]).
    by rewrite lookup_empty. }
  assert (Hfn : ∀ name, name ∈ ["fn_x"; "fn_x sd"; "fn_y"; "fn_y sd"] →
            is_Some (cols !! name)).
  { intros name Hname. unfold cols.
    repeat (apply elem_of_cons in Hname as [->|Hname];
            [repeat (rewrite lookup_insert_ne by done);
             rewrite lookup_insert_eq; by eexists|]).
    by apply elem_of_nil in Hname. }
  assert (Hnot : cols !! "secondary voltage" = None).
  { destruct (cols !! "secondary voltage") as [col|] eqn:Hcol; [|done].
    destruct (Hcols _ _ Hcol) as [Hin _].
    repeat (apply elem_of_cons in Hin as [Hin|Hin]; [discriminate Hin|]).
    by apply elem_of_nil in Hin. }
  eexists. split; [done|]. split; [done|].
  destruct (columns self !! "secondary voltage") as [sec|] eqn:Hsec; simpl.
  - split_and!.
    + intros name col Hcol. change (length col = nrows self).
      cbn [columns] in Hcol.
      destruct (decide (name = "secondary voltage")) as [->|Hne].
      * rewrite lookup_insert_eq in Hcol. injection Hcol as <-.
        rewrite length_fmap. by eapply Hwf.
      * rewrite lookup_insert_ne in Hcol by done. by apply (Hcols name).
    + intros name. destruct (decide (name = "secondary voltage")) as [->|Hne].
      * rewrite lookup_insert_eq. split; [intros _; right; by eauto|by eauto].
      * rewrite lookup_insert_ne by done. split.
        -- intros [col Hcol]. left. by apply (Hcols name col).
        -- intros [Hin|[? _]]; [by apply Hfn|done].
    + by rewrite lookup_insert_eq.
  - split_and!.
    + intros name col Hcol. change (length col = nrows self).
      cbn [columns] in Hcol. by apply (Hcols name).
    + intros name. split.
      * intros [col Hcol]. left. by apply (Hcols name col).
      * intros [Hin|[_ [? ?]]]; [by apply Hfn|done].
    + exact Hnot.
Qed.

Lemma fn_y_cell_negated (v c : R) : fn_y_cell v (c * -1) = fn_y_cell v c.
Proof.
  unfold fn_y_cell.
  destruct (decide (v = 0 ∨ c = 0)) as [H0|H0].
  - rewrite decide_True; [done|]. destruct H0 as [?| ->]; [by left|right; lra].
  - rewrite decide_False by (intros [?|?]; apply H0; [by left|right; lra]).
    do 3 f_equal. replace (c * -1 / v ^ 2) with (- (c / v ^ 2)).
    + apply Rabs_Ropp.
    + unfold Rdiv. lra.
Qed.

Lemma fn_y_sd_cell_negated (c csd v vsd : R) :
  fn_y_sd_cell (c * -1) csd v vsd = fn_y_sd_cell c csd v vsd.
Proof.
  unfold fn_y_sd_cell.
  destruct (decide (v = 0 ∨ c = 0)) as [H0|H0].
  - rewrite decide_True; [done|]. destruct H0 as [?| ->]; [by left|right; lra].
  - rewrite decide_False by (intros [?|?]; apply H0; [by left|right; lra]).
    do 4 f_equal.
    assert (c ≠ 0) by (intros ->; apply H0; by right).
    replace (1 / (c * -1) * csd) with (- (1 / c * csd)) by (by field).
    unfold pow. lra.
Qed.

(** The transform of a table whose currents were multiplied by -1 is the
    transform of the table, whether it is a table or an exception. *)
Lemma fowler_nordheim_negated (df : DataFrame R) (cs : list R) :
  columns df !! "current" = Some cs →
  fowler_nordheim_transform (setitem "current" ((fun x => x * -1) <$> cs) df)
    "voltage" "current"
  = fowler_nordheim_transform df "voltage" "current".
Proof.
  intros Hcur.
  set (df' := setitem "current" ((fun x => x * -1) <$> cs) df) in *.
  assert (Hother : ∀ i name, name ≠ "current" → row_at df' i name = row_at df i name).
  { intros i name Hname. unfold row_at, df'. simpl. by rewrite lookup_insert_ne. }
  assert (Hcurrent : ∀ i, row_at df' i "current"
                          = c ← row_at df i "current"; Ok (c * -1)).
  { intros i. unfold row_at, df'. simpl. rewrite lookup_insert_eq, Hcur.
    rewrite list_lookup_fmap. by destruct (cs !! i). }
  unfold fowler_nordheim_transform, apply_rows.
  change (nrows df') with (nrows df). change (index df') with (index df).
  assert (E1 : mapM (fun i => v ← row_at df' i "voltage"; x_transform v)
                 (seq 0 (nrows df))
               = mapM (fun i => v ← row_at df i "voltage"; x_transform v)
                   (seq 0 (nrows df))).
  { apply mapM_ext. intros i _. by rewrite Hother. }
  assert (E2 : mapM (fun i => v ← row_at df' i "voltage";
                              vsd ← row_at df' i ("voltage" +:+ " sd"); x_sd v vsd)
                 (seq 0 (nrows df))
               = mapM (fun i => v ← row_at df i "voltage";
                                vsd ← row_at df i ("voltage" +:+ " sd"); x_sd v vsd)
                   (seq 0 (nrows df))).
  { apply mapM_ext. intros i _. by rewrite !Hother. }
  assert (E3 : mapM (fun i => v ← row_at df' i "voltage";
                              c ← row_at df' i "current"; y_transform v c)
                 (seq 0 (nrows df))
               = mapM (fun i => v ← row_at df i "voltage";
                                c ← row_at df i "current"; y_transform v c)
                   (seq 0 (nrows df))).
  { apply mapM_ext. intros i _. rewrite (Hother i "voltage") by done.
    rewrite Hcurrent.
    destruct (row_at df i "voltage") as [v|]; [|done]. simpl.
    destruct (row_at df i "current") as [c|]; [|done]. simpl.
    by rewrite !y_transform_eq, fn_y_cell_negated. }
  assert (E4 : mapM (fun i => c ← row_at df' i "current";
                              csd ← row_at df' i ("current" +:+ " sd");
                              v ← row_at df' i "voltage";
                              vsd ← row_at df' i ("voltage" +:+ " sd");
                              y_sd c csd v vsd)
                 (seq 0 (nrows df))
               = mapM (fun i => c ← row_at df i "current";
                                csd ← row_at df i ("current" +:+ " sd");
                                v ← row_at df i "voltage";
                                vsd ← row_at df i ("voltage" +:+ " sd");
                                y_sd c csd v vsd)
                   (seq 0 (nrows df))).
  { apply mapM_ext. intros i _.
    rewrite (Hother i ("current" +:+ " sd")), (Hother i "voltage"),
      (Hother i ("voltage" +:+ " sd")) by done.
    rewrite Hcurrent.
    destruct (row_at df i "current") as [c|]; [|done]. simpl.
    destruct (row_at df i ("current" +:+ " sd")) as [csd|]; [|done]. simpl.
    destruct (row_at df i "voltage") as [v|]; [|done]. simpl.
    destruct (row_at df i ("voltage" +:+ " sd")) as [vsd|]; [|done]. simpl.
    by rewrite !y_sd_eq, fn_y_sd_cell_negated. }
  rewrite E1, E2, E3, E4.
  assert (Hsec : contains "secondary voltage" df' = contains "secondary voltage" df).
  { unfold contains, df'. simpl. by rewrite lookup_insert_ne. }
  assert (Hget : getitem "secondary voltage" df' = getitem "secondary voltage" df).
  { unfold getitem, df'. simpl. by rewrite lookup_insert_ne. }
  by rewrite Hsec, Hget.
Qed.


Lemma call_fowler_nordheim_transform_run (self : nat) (vn cn : string)
    (h : list (DataFrame R)) (df : DataFrame R) :
  h !! self = Some df →
  call_fowler_nordheim_transform (AnalysisRef self) vn cn h
  = (fowler_nordheim_transform df vn cn, h).
Proof.
  intros Hself. unfold call_fowler_nordheim_transform.
  rewrite (bind_Ok _ _ _ _ _ (load_run _ _ _ Hself)). done.
Qed.

(** X24: the transform does not see the sign of the current.  The table
    that [invert_current] returns is a plain DataFrame, without the method
    (AttributeError); wrapped in [Analysis] again, its transform is the
    transform of the original table, whether that is a table or an
    exception. *)
Theorem fowler_nordheim_ignores_current_sign (self : nat)
    (h : list (DataFrame R)) (df : DataFrame R) (cs : list R) :
  h !! self = Some df →
  columns df !! "current" = Some cs →
  ∃ out h' again h1 r,
    call_invert_current (AnalysisRef self) true false false h
    = (Ok (DataFrameRef out), h') ∧
    call_fowler_nordheim_transform (DataFrameRef out) "voltage" "current" h'
    = (Raise AttributeError, h') ∧
    init (DataFrameRef out) h' = (Ok (AnalysisRef again), h1) ∧
    call_fowler_nordheim_transform (AnalysisRef again) "voltage" "current" h1
    = (r, h1) ∧
    call_fowler_nordheim_transform (AnalysisRef self) "voltage" "current" h
    = (r, h).
Proof.
  intros Hself Hcur.
  pose proof (invert_current_run self true false false h df Hself
                (fun _ => mk_is_Some _ _ Hcur)) as Hrun.
  rewrite (inverted_primary df cs Hcur) in Hrun.
  set (df' := setitem "current" ((fun x => x * -1) <$> cs) df) in *.
  eexists _, _, _, _, _.
  split; [exact (call_invert_current_run _ _ _ _ _ (Ok _) _ Hrun)|].
  split; [done|].
  split; [exact (init_run (DataFrameRef _) _ _ (lookup_snoc _ _))|].
  split.
  - rewrite (call_fowler_nordheim_transform_run _ _ _ _ df') by apply lookup_snoc.
    unfold df'. by rewrite (fowler_nordheim_negated df cs Hcur).
  - by apply call_fowler_nordheim_transform_run.
Qed.

End FowlerNordheimTable.

Lemma fowler_nordheim_table_witness :
  ∃ out, Analysis.fowler_nordheim_transform fn_sample "voltage" "current" = Ok out ∧
    index out = RangeIndex 3 ∧
    columns out !! "secondary voltage" = None ∧
    columns out !! "voltage" = None.
Proof.
  destruct (fowler_nordheim_table fn_sample "voltage" "current"
              [0; 2; 1] [1; 4; 1] [3; 5; 0] [1; 1; 1]
              fn_sample_wf eq_refl eq_refl eq_refl eq_refl)
    as (out & Hrun & Hix & _ & Hnames & Hsec).
  exists out. split_and!; [exact Hrun|exact Hix|exact Hsec|].
  destruct (columns out !! "voltage") as [col|] eqn:Hcol; [|reflexivity].
  destruct (proj1 (Hnames "voltage") (mk_is_Some _ _ Hcol)) as [Hin|[Hne _]].
  - repeat (apply elem_of_cons in Hin as [Hin|Hin]; [discriminate Hin|]).
    by apply elem_of_nil in Hin.
  - discriminate Hne.
Defined.

Lemma fowler_nordheim_ignores_current_sign_witness :
  ∃ out h' again h1 r,
    Analysis.call_invert_current (Analysis.AnalysisRef 0) true false false [fn_sample]
    = (Ok (Analysis.DataFrameRef out), h') ∧
    Analysis.init (Analysis.DataFrameRef out) h' = (Ok (Analysis.AnalysisRef again), h1) ∧
    Analysis.call_fowler_nordheim_transform (Analysis.AnalysisRef again)
      "voltage" "current" h1
    = (r, h1) ∧
    Analysis.call_fowler_nordheim_transform (Analysis.AnalysisRef 0)
      "voltage" "current" [fn_sample]
    = (r, [fn_sample]).
Proof.
  destruct (fowler_nordheim_ignores_current_sign 0 [fn_sample] fn_sample [3; 5; 0]
              eq_refl eq_refl)
    as (out & h' & again & h1 & r & Hrun & _ & Hinit & Hagain & Hself).
  exists out, h', again, h1, r.
  split_and!; [exact Hrun|exact Hinit|exact Hagain|exact Hself].
Defined.

(** ** The transform without its columns *)

Section FowlerNordheimColumns.
Import Analysis.

Lemma mapM_first_raises {A B} (f : A → result B) (x : A) (l : list A) (e : exn) :
  f x = Raise e → mapM f (x :: l) = Raise e.
Proof. intros Hf. simpl. by rewrite Hf. Qed.

Lemma mapM_Ok_or {A B} (f : A → result B) (l : list A) (e : exn) :
  (∀ x, x ∈ l → (∃ y, f x = Ok y) ∨ f x = Raise e) →
  (∃ ys, mapM f l = Ok ys) ∨ mapM f l = Raise e.
Proof.
  induction l as [|x l IH]; intros Hf; [left; by eexists|].
  simpl. destruct (Hf x (list_elem_of_here _ _)) as [[y ->]| ->]; [|by right].
  simpl. destruct IH as [[ys ->]| ->]; [|left; by eexists|by right].
  intros z Hz. apply Hf. by apply list_elem_of_further.
Qed.

(** A cell of a well-formed table is there, or its column is not. *)
Lemma row_at_cases (df : DataFrame R) (i : nat) (name : string) :
  wf df → (i < nrows df)%nat →
  (∃ x, row_at df i name = Ok x ∧ is_Some (columns df !! name)) ∨
  (row_at df i name = Raise KeyError ∧ columns df !! name = None).
Proof.
  intros Hwf Hi. unfold row_at.
  destruct (columns df !! name) as [col|] eqn:Hcol; [|by right].
  destruct (wf_lookup df name col i Hwf Hcol Hi) as [x ->].
  left. by eauto.
Qed.

(** X25: the transform needs its four columns.  On a table with at least
    one row that lacks the voltage column, the current column or one of
    their deviation columns, the transform raises KeyError. *)
Theorem fowler_nordheim_missing_column (self : DataFrame R) (vn cn : string) :
  wf self → (0 < nrows self)%nat →
  columns self !! vn = None ∨ columns self !! (vn +:+ " sd") = None ∨
  columns self !! cn = None ∨ columns self !! (cn +:+ " sd") = None →
  fowler_nordheim_transform self vn cn = Raise KeyError.
Proof.
  intros Hwf Hrows Hmissing.
  assert (Hseq : seq 0 (nrows self) = 0%nat :: seq 1 (nrows self - 1)).
  { destruct (nrows self) as [|n]; [lia|]. simpl. by rewrite Nat.sub_0_r. }
  assert (Hcell : ∀ i name, i ∈ seq 0 (nrows self) →
            (∃ x, row_at self i name = Ok x ∧ is_Some (columns self !! name)) ∨
            (row_at self i name = Raise KeyError ∧ columns self !! name = None)).
  { intros i name Hi. apply row_at_cases; [done|]. apply elem_of_seq in Hi. lia. }
  assert (H0 : 0%nat ∈ seq 0 (nrows self)).
  { rewrite Hseq. apply list_elem_of_here. }
  unfold fowler_nordheim_transform, apply_rows.
  set (f1 := fun i => v ← row_at self i vn; x_transform v).
  set (f2 := fun i => v ← row_at self i vn; vsd ← row_at self i (vn +:+ " sd");
                      x_sd v vsd).
  set (f3 := fun i => v ← row_at self i vn; c ← row_at self i cn; y_transform v c).
  set (f4 := fun i => c ← row_at self i cn; csd ← row_at self i (cn +:+ " sd");
                      v ← row_at self i vn; vsd ← row_at self i (vn +:+ " sd");
                      y_sd c csd v vsd).
  assert (E1 : (∃ ys, mapM f1 (seq 0 (nrows self)) = Ok ys ∧
                      is_Some (columns self !! vn)) ∨
               mapM f1 (seq 0 (nrows self)) = Raise KeyError).
  { destruct (Hcell 0%nat vn H0) as [(x & Hx & Hsome)|[Hx _]].
    - destruct (mapM_Ok_or f1 (seq 0 (nrows self)) KeyError) as [[ys ->]| ->];
        [|left; by eauto|by right].
      intros i Hi. unfold f1.
      destruct (Hcell i vn Hi) as [(y & -> & _)|[-> _]]; [|by right].
      left. simpl. rewrite x_transform_eq. by eexists.
    - right. rewrite Hseq. apply mapM_first_raises. unfold f1. by rewrite Hx. }
  assert (E2 : (∃ ys, mapM f2 (seq 0 (nrows self)) = Ok ys ∧
                      is_Some (columns self !! (vn +:+ " sd"))) ∨
               mapM f2 (seq 0 (nrows self)) = Raise KeyError).
  { destruct (Hcell 0%nat vn H0) as [(x & Hx & _)|[Hx _]];
      [|right; rewrite Hseq; apply mapM_first_raises; unfold f2; by rewrite Hx].
    destruct (Hcell 0%nat (vn +:+ " sd") H0) as [(y & Hy & Hsome)|[Hy _]];
      [|right; rewrite Hseq; apply mapM_first_raises; unfold f2;
        rewrite Hx; simpl; by rewrite Hy].
    destruct (mapM_Ok_or f2 (seq 0 (nrows self)) KeyError) as [[ys ->]| ->];
      [|left; by eauto|by right].
    intros i Hi. unfold f2.
    destruct (Hcell i vn Hi) as [(a & -> & _)|[-> _]]; [|by right]. simpl.
    destruct (Hcell i (vn +:+ " sd") Hi) as [(b & -> & _)|[-> _]]; [|by right].
    left. simpl. rewrite x_sd_eq. by eexists. }
  assert (E3 : (∃ ys, mapM f3 (seq 0 (nrows self)) = Ok ys ∧
                      is_Some (columns self !! cn)) ∨
               mapM f3 (seq 0 (nrows self)) = Raise KeyError).
  { destruct (Hcell 0%nat vn H0) as [(x & Hx & _)|[Hx _]];
      [|right; rewrite Hseq; apply mapM_first_raises; unfold f3; by rewrite Hx].
    destruct (Hcell 0%nat cn H0) as [(y & Hy & Hsome)|[Hy _]];
      [|right; rewrite Hseq; apply mapM_first_raises; unfold f3;
        rewrite Hx; simpl; by rewrite Hy].
    destruct (mapM_Ok_or f3 (seq 0 (nrows self)) KeyError) as [[ys ->]| ->];
      [|left; by eauto|by right].
    intros i Hi. unfold f3.
    destruct (Hcell i vn Hi) as [(a & -> & _)|[-> _]]; [|by right]. simpl.
    destruct (Hcell i cn Hi) as [(b & -> & _)|[-> _]]; [|by right].
    left. simpl. rewrite y_transform_eq. by eexists. }
  assert (E4 : (∃ ys, mapM f4 (seq 0 (nrows self)) = Ok ys ∧
                      is_Some (columns self !! (cn +:+ " sd"))) ∨
               mapM f4 (seq 0 (nrows self)) = Raise KeyError).
  { destruct (Hcell 0%nat cn H0) as [(x & Hx & _)|[Hx _]];
      [|right; rewrite Hseq; apply mapM_first_raises; unfold f4; by rewrite Hx].
    destruct (Hcell 0%nat (cn +:+ " sd") H0) as [(y & Hy & Hsome)|[Hy _]];
      [|right; rewrite Hseq; apply mapM_first_raises; unfold f4;
        rewrite Hx; simpl; by rewrite Hy].
    destruct (mapM_Ok_or f4 (seq 0 (nrows self)) KeyError) as [[ys ->]| ->];
      [|left; by eauto|by right].
    intros i Hi. unfold f4.
    destruct (Hcell i cn Hi) as [(a & -> & _)|[-> _]]; [|by right]. simpl.
    destruct (Hcell i (cn +:+ " sd") Hi) as [(b & -> & _)|[-> _]]; [|by right].
    simpl.
    destruct (Hcell i vn Hi) as [(c & -> & _)|[-> _]]; [|by right]. simpl.
    destruct (Hcell i (vn +:+ " sd") Hi) as [(d & -> & _)|[-> _]]; [|by right].
    left. simpl. rewrite y_sd_eq. by eexists. }
  destruct E1 as [(ys1 & -> & S1)| ->]; [|done]. simpl.
  destruct E2 as [(ys2 & -> & S2)| ->]; [|done]. simpl.
  destruct E3 as [(ys3 & -> & S3)| ->]; [|done]. simpl.
  destruct E4 as [(ys4 & -> & S4)| ->]; [|done]. simpl.
  destruct Hmissing as [Hm|[Hm|[Hm|Hm]]]; rewrite Hm in *;
    by match goal with H : is_Some None |- _ => destruct H end.
Qed.

End FowlerNordheimColumns.

Lemma fowler_nordheim_missing_column_witness :
  Analysis.fowler_nordheim_transform two_rows "voltage" "current" = Raise KeyError.
Proof.
  apply (fowler_nordheim_missing_column two_rows "voltage" "current" two_rows_wf).
  - unfold two_rows. rewrite nrows_range. lia.
  - right. left. reflexivity.
Defined.

(** ** The switching current *)

Section SwitchingCurrent.
Import Analysis.

Lemma series_max_spec (xs : list R) (x0 : R) :
  x0 ∈ xs → ∃ hi, series_max xs = Some hi ∧ hi ∈ xs ∧ ∀ x, x ∈ xs → x <= hi.
Proof.
  destruct xs as [|x xs]; [by intros ?%elem_of_nil|]. intros _.
  eexists. split; [done|].
  assert (Hfold : ∀ l m, let hi := fold_left Rmax l m in
            (hi = m ∨ hi ∈ l) ∧ m <= hi ∧ ∀ y, y ∈ l → y <= hi).
  { induction l as [|y l IH]; intros m; simpl.
    { split_and!; [by left|lra|]. by intros y ?%elem_of_nil. }
    destruct (IH (Rmax m y)) as (Hin & Hle & Hall). split_and!.
    - destruct Hin as [Hin|Hin]; [|right; by apply list_elem_of_further].
      rewrite Hin. unfold Rmax. destruct (Rle_dec m y); [right|by left].
      apply list_elem_of_here.
    - pose proof (Rmax_l m y). lra.
    - intros z Hz. apply elem_of_cons in Hz as [->|Hz]; [|by apply Hall].
      pose proof (Rmax_r m y). lra. }
  destruct (Hfold xs x) as (Hin & Hle & Hall). split.
  - destruct Hin as [->|Hin]; [apply list_elem_of_here|by apply list_elem_of_further].
  - intros y Hy. apply elem_of_cons in Hy as [->|Hy]; [done|by apply Hall].
Qed.

Lemma series_min_spec (xs : list R) (x0 : R) :
  x0 ∈ xs → ∃ lo, series_min xs = Some lo ∧ lo ∈ xs ∧ ∀ x, x ∈ xs → lo <= x.
Proof.
  destruct xs as [|x xs]; [by intros ?%elem_of_nil|]. intros _.
  eexists. split; [done|].
  assert (Hfold : ∀ l m, let lo := fold_left Rmin l m in
            (lo = m ∨ lo ∈ l) ∧ lo <= m ∧ ∀ y, y ∈ l → lo <= y).
  { induction l as [|y l IH]; intros m; simpl.
    { split_and!; [by left|lra|]. by intros y ?%elem_of_nil. }
    destruct (IH (Rmin m y)) as (Hin & Hle & Hall). split_and!.
    - destruct Hin as [Hin|Hin]; [|right; by apply list_elem_of_further].
      rewrite Hin. unfold Rmin. destruct (Rle_dec m y); [by left|right].
      apply list_elem_of_here.
    - pose proof (Rmin_l m y). lra.
    - intros z Hz. apply elem_of_cons in Hz as [->|Hz]; [|by apply Hall].
      pose proof (Rmin_r m y). lra. }
  destruct (Hfold xs x) as (Hin & Hle & Hall). split.
  - destruct Hin as [->|Hin]; [apply list_elem_of_here|by apply list_elem_of_further].
  - intros y Hy. apply elem_of_cons in Hy as [->|Hy]; [done|by apply Hall].
Qed.

(** The currents that two masks in a row select: those of the rows whose
    key [ks] passes [f] and whose secondary voltage passes [g]. *)
Lemma select_twice_elem (f g : R → bool) (ks ss cs : list R) (c : R) :
  length ks = length ss → length ss = length cs →
  c ∈ select (map g (select (map f ks) ss)) (select (map f ks) cs) ↔
  ∃ i k s, ks !! i = Some k ∧ f k = true ∧ ss !! i = Some s ∧ g s = true ∧
           cs !! i = Some c.
Proof.
  revert ss cs. induction ks as [|k ks IH]; intros [|s ss] [|c' cs] H1 H2;
    try done.
  { split; [by intros ?%elem_of_nil|]. by intros (i & k & s & Hk & _). }
  simpl in H1, H2. injection H1 as H1. injection H2 as H2.
  assert (Hshift : (∃ i k0 s0, (k :: ks) !! i = Some k0 ∧ f k0 = true ∧
                      (s :: ss) !! i = Some s0 ∧ g s0 = true ∧
                      (c' :: cs) !! i = Some c) ↔
                   (f k = true ∧ g s = true ∧ c' = c) ∨
                   (∃ i k0 s0, ks !! i = Some k0 ∧ f k0 = true ∧
                      ss !! i = Some s0 ∧ g s0 = true ∧ cs !! i = Some c)).
  { split.
    - intros ([|i] & k0 & s0 & Hk & Hf & Hs & Hg & Hc); simpl in *.
      + left. by simplify_eq.
      + right. by exists i, k0, s0.
    - intros [(Hf & Hg & ->)|(i & k0 & s0 & Hrest)].
      + by exists 0%nat, k, s.
      + by exists (S i), k0, s0. }
  rewrite Hshift. simpl. destruct (f k) eqn:Hf; simpl.
  - destruct (g s) eqn:Hg; simpl.
    + rewrite elem_of_cons, (IH ss cs H1 H2). split.
      * intros [->|Hin]; [by left|by right].
      * intros [(_ & _ & ->)|Hin]; [by left|by right].
    + rewrite (IH ss cs H1 H2). split; [by right|].
      by intros [(_ & ? & _)|Hin].
  - rewrite (IH ss cs H1 H2). split; [by right|].
    by intros [(? & _)|Hin].
Qed.

(** [switching_current] on a dual-sweep table, row by row. *)
Lemma switching_current_run (self : DataFrame R) (vs sec cs : list R) :
  columns self !! "voltage" = Some vs →
  columns self !! "secondary voltage" = Some sec →
  columns self !! "current" = Some cs →
  switching_current self
  = Ok (Some (mkFrame (LabelIndex None (unique vs))
                (<["positive" :=
                     (fun v =>
                        float_div
                          (series_max (currents_at vs sec cs v
                                         (fun s => bool_decide (s >= 0))))
                          (series_min (currents_at vs sec cs v
                                         (fun s => bool_decide (s >= 0)))))
                     <$> unique vs]>
                   (<["negative" :=
                        (fun v =>
                           float_div
                             (series_min (currents_at vs sec cs v
                                            (fun s => bool_decide (s <= 0))))
                             (series_max (currents_at vs sec cs v
                                            (fun s => bool_decide (s <= 0)))))
                        <$> unique vs]> ∅)))).
Proof.
  intros Hv Hsec Hcur. unfold switching_current, contains.
  rewrite Hsec, bool_decide_eq_true_2 by (by eexists).
  unfold getitem. rewrite Hv. simpl.
  rewrite (mapM_Ok _ (fun v =>
             (float_div
                (series_max (currents_at vs sec cs v (fun s => bool_decide (s >= 0))))
                (series_min (currents_at vs sec cs v (fun s => bool_decide (s >= 0)))),
              float_div
                (series_min (currents_at vs sec cs v (fun s => bool_decide (s <= 0))))
                (series_max (currents_at vs sec cs v (fun s => bool_decide (s <= 0))))))).
  2:{ intros v _. unfold getitem_mask. simpl.
      rewrite !lookup_fmap, Hsec. simpl.
      rewrite !lookup_fmap, Hcur. simpl. reflexivity. }
  simpl. do 4 f_equal.
  - by rewrite <- list_fmap_compose.
  - f_equal. by rewrite <- list_fmap_compose.
Qed.

(** The rows of the table: the two ratios, of the currents that the two
    masks select. *)
Lemma switching_current_rows (self : DataFrame R) (vs sec cs : list R) :
  wf self →
  columns self !! "voltage" = Some vs →
  columns self !! "secondary voltage" = Some sec →
  columns self !! "current" = Some cs →
  ∃ out,
    switching_current self = Ok (Some out) ∧
    labels (index out) = unique vs ∧
    (∀ name, is_Some (columns out !! name) ↔ name = "positive" ∨ name = "negative") ∧
    ∀ k v, unique vs !! k = Some v →
      ∃ opp opn,
        (∀ c, c ∈ opp ↔ ∃ i s, vs !! i = Some v ∧ sec !! i = Some s ∧ s >= 0 ∧
                               cs !! i = Some c) ∧
        (∀ c, c ∈ opn ↔ ∃ i s, vs !! i = Some v ∧ sec !! i = Some s ∧ s <= 0 ∧
                               cs !! i = Some c) ∧
        row_at out k "positive" = Ok (float_div (series_max opp) (series_min opp)) ∧
        row_at out k "negative" = Ok (float_div (series_min opn) (series_max opn)).
Proof.
  intros Hwf Hv Hsec Hcur.
  rewrite (switching_current_run self vs sec cs Hv Hsec Hcur).
  eexists. split; [reflexivity|]. split; [reflexivity|]. split.
  { intros name. simpl. rewrite !lookup_insert. repeat case_decide; subst.
    - split; [by left|by eauto].
    - split; [by right|by eauto].
    - rewrite lookup_empty. split; [by intros [? ?]|by intros [?|?]]. }
  intros k v Hk.
  assert (Hlen1 : length vs = length sec) by (by rewrite (Hwf _ _ Hv), (Hwf _ _ Hsec)).
  assert (Hlen2 : length sec = length cs) by (by rewrite (Hwf _ _ Hsec), (Hwf _ _ Hcur)).
  exists (currents_at vs sec cs v (fun s => bool_decide (s >= 0))),
    (currents_at vs sec cs v (fun s => bool_decide (s <= 0))).
  split_and!.
  - intros c. unfold currents_at. rewrite select_twice_elem by done. split.
    + intros (i & k0 & s & Hi & ->%bool_decide_eq_true & Hs & Hg%bool_decide_eq_true
              & Hc). by exists i, s.
    + intros (i & s & Hi & Hs & Hg & Hc). exists i, v, s.
      by rewrite !bool_decide_eq_true.
  - intros c. unfold currents_at. rewrite select_twice_elem by done. split.
    + intros (i & k0 & s & Hi & ->%bool_decide_eq_true & Hs & Hg%bool_decide_eq_true
              & Hc). by exists i, s.
    + intros (i & s & Hi & Hs & Hg & Hc). exists i, v, s.
      by rewrite !bool_decide_eq_true.
  - unfold row_at. cbn [columns]. rewrite lookup_insert_eq.
    by rewrite !list_lookup_fmap, Hk.
  - unfold row_at. cbn [columns]. rewrite lookup_insert_ne by done.
    rewrite lookup_insert_eq. by rewrite !list_lookup_fmap, Hk.
Qed.

(** X26: the switching currents of a dual sweep.  On a table with the
    [voltage], [secondary voltage] and [current] columns and no current of
    zero, [switching_current] returns a table with the columns [positive]
    and [negative] and one row for every distinct primary voltage, in the
    order of first appearance.  In the row of a voltage, [positive] is the
    largest current divided by the smallest among the rows of that voltage
    whose secondary voltage is not negative, and [negative] is the smallest
    divided by the largest among those whose secondary voltage is not
    positive; a row of secondary voltage zero counts on both sides.  The
    cell is no number when there is no such row. *)
Theorem switching_current_table (self : DataFrame R) (vs sec cs : list R) :
  wf self →
  columns self !! "voltage" = Some vs →
  columns self !! "secondary voltage" = Some sec →
  columns self !! "current" = Some cs →
  (∀ c, c ∈ cs → c ≠ 0) →
  ∃ out,
    switching_current self = Ok (Some out) ∧
    labels (index out) = unique vs ∧
    (∀ name, is_Some (columns out !! name) ↔ name = "positive" ∨ name = "negative") ∧
    ∀ k v, unique vs !! k = Some v →
      let P c := ∃ i s, vs !! i = Some v ∧ sec !! i = Some s ∧ s >= 0 ∧
                        cs !! i = Some c in
      let N c := ∃ i s, vs !! i = Some v ∧ sec !! i = Some s ∧ s <= 0 ∧
                        cs !! i = Some c in
      (∀ hi lo, P hi → P lo → (∀ c, P c → lo <= c <= hi) →
         row_at out k "positive" = Ok (Some (hi / lo))) ∧
      ((∀ c, ¬ P c) → row_at out k "positive" = Ok None) ∧
      (∀ hi lo, N hi → N lo → (∀ c, N c → lo <= c <= hi) →
         row_at out k "negative" = Ok (Some (lo / hi))) ∧
      ((∀ c, ¬ N c) → row_at out k "negative" = Ok None).
Proof.
  intros Hwf Hv Hsec Hcur Hnz.
  destruct (switching_current_rows self vs sec cs Hwf Hv Hsec Hcur)
    as (out & Hrun & Hlabels & Hnames & Hrows).
  exists out. split_and!; [done..|].
  intros k v Hk P N.
  destruct (Hrows k v Hk) as (opp & opn & HP & HN & -> & ->).
  assert (Hratio : ∀ (l : list R) (Q : R → Prop),
            (∀ c, c ∈ l ↔ Q c) →
            (∀ hi lo, Q hi → Q lo → (∀ c, Q c → lo <= c <= hi) →
               series_max l = Some hi ∧ series_min l = Some lo) ∧
            ((∀ c, ¬ Q c) → series_max l = None ∧ series_min l = None)).
  { intros l Q HQ. split.
    - intros hi lo Hhi Hlo Hall.
      destruct (series_max_spec l hi) as (hi' & -> & Hin & Hmax); [by apply HQ|].
      destruct (series_min_spec l lo) as (lo' & -> & Hin' & Hmin); [by apply HQ|].
      assert (hi' = hi) as ->.
      { apply Rle_antisym; [apply Hall; by apply HQ|apply Hmax; by apply HQ]. }
      assert (lo' = lo) as ->.
      { apply Rle_antisym; [apply Hmin; by apply HQ|apply Hall; by apply HQ]. }
      done.
    - intros Hnone. destruct l as [|x l]; [done|].
      destruct (Hnone x). apply HQ, list_elem_of_here. }
  assert (HPnz : ∀ c, P c → c ≠ 0).
  { intros c (i & s & _ & _ & _ & Hc). by eapply Hnz, list_elem_of_lookup_2. }
  assert (HNnz : ∀ c, N c → c ≠ 0).
  { intros c (i & s & _ & _ & _ & Hc). by eapply Hnz, list_elem_of_lookup_2. }
  destruct (Hratio opp P HP) as [Hp1 Hp2]. destruct (Hratio opn N HN) as [Hn1 Hn2].
  split_and!.
  - intros hi lo Hhi Hlo Hall. destruct (Hp1 hi lo Hhi Hlo Hall) as [-> ->].
    simpl. by rewrite decide_False by by apply HPnz.
  - intros Hnone. by destruct (Hp2 Hnone) as [-> ->].
  - intros hi lo Hhi Hlo Hall. destruct (Hn1 hi lo Hhi Hlo Hall) as [-> ->].
    simpl. by rewrite decide_False by by apply HNnz.
  - intros Hnone. by destruct (Hn2 Hnone) as [-> ->].
Qed.

(** X27: the bounds of the switching currents.  On a table without a
    current of zero, where the currents at a primary voltage are positive
    the ratios are numbers: [positive], taken over the rows whose secondary
    voltage is not negative, is at least 1, and [negative], taken over those
    whose secondary voltage is not positive, is above 0 and at most 1. *)
Theorem switching_current_bounds (self : DataFrame R) (vs sec cs : list R) :
  wf self →
  columns self !! "voltage" = Some vs →
  columns self !! "secondary voltage" = Some sec →
  columns self !! "current" = Some cs →
  (∀ c, c ∈ cs → c ≠ 0) →
  ∃ out,
    switching_current self = Ok (Some out) ∧
    ∀ k v, unique vs !! k = Some v →
      let P c := ∃ i s, vs !! i = Some v ∧ sec !! i = Some s ∧ s >= 0 ∧
                        cs !! i = Some c in
      let N c := ∃ i s, vs !! i = Some v ∧ sec !! i = Some s ∧ s <= 0 ∧
                        cs !! i = Some c in
      ((∃ c, P c) → (∀ c, P c → 0 < c) →
       ∃ x, row_at out k "positive" = Ok (Some x) ∧ 1 <= x) ∧
      ((∃ c, N c) → (∀ c, N c → 0 < c) →
       ∃ x, row_at out k "negative" = Ok (Some x) ∧ 0 < x <= 1).
Proof.
  intros Hwf Hv Hsec Hcur _.
  destruct (switching_current_rows self vs sec cs Hwf Hv Hsec Hcur)
    as (out & Hrun & _ & _ & Hrows).
  exists out. split; [done|].
  intros k v Hk P N.
  destruct (Hrows k v Hk) as (opp & opn & HP & HN & -> & ->).
  split.
  - intros [c Hc] Hpos.
    destruct (series_max_spec opp c) as (hi & -> & Hhi & Hmax); [by apply HP|].
    destruct (series_min_spec opp c) as (lo & -> & Hlo & Hmin); [by apply HP|].
    assert (0 < lo) by (by apply Hpos, HP).
    assert (lo <= hi) by (by apply Hmax).
    simpl. rewrite decide_False by lra. eexists. split; [done|].
    apply (Rmult_le_reg_r lo); [done|]. unfold Rdiv.
    rewrite Rmult_assoc, Rinv_l by lra. lra.
  - intros [c Hc] Hpos.
    destruct (series_max_spec opn c) as (hi & -> & Hhi & Hmax); [by apply HN|].
    destruct (series_min_spec opn c) as (lo & -> & Hlo & Hmin); [by apply HN|].
    assert (0 < lo) by (by apply Hpos, HN).
    assert (lo <= hi) by (by apply Hmax).
    simpl. rewrite decide_False by lra. eexists. split; [done|].
    split.
    + apply Rdiv_lt_0_compat; lra.
    + apply (Rmult_le_reg_r hi); [lra|]. unfold Rdiv.
      rewrite Rmult_assoc, Rinv_l by lra. lra.
Qed.

End SwitchingCurrent.

Lemma two_groups_rows (c : R) :
  (∃ (i : nat) (s : R),
     [-1; 1; -1; 1] !! i = Some (-1) ∧ [0; 0; 1; 1] !! i = Some s ∧ s >= 0 ∧
     [1; 2; 3; 4] !! i = Some c) ↔ c = 1 ∨ c = 3.
Proof.
  split.
  - intros (i & s & Hv & Hs & _ & Hc).
    destruct i as [|[|[|[|i]]]]; simpl in Hv, Hc.
    + left. congruence.
    + injection Hv as Hv. lra.
    + right. congruence.
    + injection Hv as Hv. lra.
    + discriminate Hv.
  - intros [-> | ->].
    + exists 0%nat, 0. split_and!; [done|done|lra|done].
    + exists 2%nat, 1. split_and!; [done|done|lra|done].
Qed.

Lemma two_groups_currents (c : R) : c ∈ [1; 2; 3; 4] → c ≠ 0.
Proof.
  intros Hin.
  repeat (apply elem_of_cons in Hin as [->|Hin]; [lra|]).
  by apply elem_of_nil in Hin.
Qed.

Lemma switching_current_table_witness :
  ∃ out,
    Analysis.switching_current two_groups = Ok (Some out) ∧
    row_at out 0 "positive" = Ok (Some (3 / 1)).
Proof.
  destruct (switching_current_table two_groups [-1; 1; -1; 1] [0; 0; 1; 1]
              [1; 2; 3; 4] two_groups_wf eq_refl eq_refl eq_refl
              two_groups_currents)
    as (out & Hrun & _ & _ & Hrows).
  exists out. split; [exact Hrun|].
  destruct (Hrows 0%nat (-1) eq_refl) as (Hpos & _).
  rewrite (Hpos 3 1).
  - reflexivity.
  - apply two_groups_rows. by right.
  - apply two_groups_rows. by left.
  - intros c [-> | ->]%two_groups_rows; lra.
Defined.

Lemma switching_current_bounds_witness :
  ∃ out x,
    Analysis.switching_current two_groups = Ok (Some out) ∧
    row_at out 0 "positive" = Ok (Some x) ∧ 1 <= x.
Proof.
  destruct (switching_current_bounds two_groups [-1; 1; -1; 1] [0; 0; 1; 1]
              [1; 2; 3; 4] two_groups_wf eq_refl eq_refl eq_refl
              two_groups_currents)
    as (out & Hrun & Hrows).
  destruct (Hrows 0%nat (-1) eq_refl) as (Hpos & _).
  destruct Hpos as (x & Hx & Hle).
  - exists 1. apply two_groups_rows. by left.
  - intros c [-> | ->]%two_groups_rows; lra.
  - exists out, x. split_and!; [exact Hrun|exact Hx|exact Hle].
Defined.

Section SwitchingCurrentEdges.
Import Analysis.

(** X28: [switching_current] at the edges.  On a table without a
    [secondary voltage] column it returns None, whatever else the table
    holds.  On a dual-sweep table without a [voltage] column it raises
    KeyError; without a [current] column it raises KeyError when the table
    has a row, and returns a table without rows when it has none. *)
Theorem switching_current_edges (self : DataFrame R) :
  (columns self !! "secondary voltage" = None →
   switching_current self = Ok None) ∧
  (is_Some (columns self !! "secondary voltage") →
   columns self !! "voltage" = None →
   switching_current self = Raise KeyError) ∧
  (is_Some (columns self !! "secondary voltage") →
   columns self !! "current" = None →
   ∀ vs, columns self !! "voltage" = Some vs →
     match vs with
     | [] =>
         switching_current self
         = Ok (Some (mkFrame (LabelIndex None [])
                       (<["positive" := []]> (<["negative" := []]> ∅))))
     | _ :: _ => switching_current self = Raise KeyError
     end).
Proof.
  split_and!.
  - intros Hsec. unfold switching_current, contains. rewrite Hsec.
    by rewrite bool_decide_eq_false_2 by (by intros [? ?]).
  - intros Hsec Hv. unfold switching_current, contains.
    rewrite bool_decide_eq_true_2 by done. unfold getitem. by rewrite Hv.
  - intros [sec Hsec] Hcur vs Hv. unfold switching_current, contains.
    rewrite Hsec, bool_decide_eq_true_2 by (by eexists).
    unfold getitem. rewrite Hv. simpl. destruct vs as [|v vs]; [done|].
    simpl. unfold getitem_mask. simpl.
    rewrite !lookup_fmap, Hsec. simpl.
    by rewrite !lookup_fmap, Hcur.
Qed.

End SwitchingCurrentEdges.

Lemma switching_current_edges_witness :
  Analysis.switching_current two_rows = Ok None.
Proof.
  exact (proj1 (switching_current_edges two_rows) eq_refl).
Defined.
